(** * drivefuse: blob store and inbound synchronisation

    A shallow embedding of [blob/blob.go] (the on-disk blob store) and of
    [syncer/syncer.go] (the inbound change-feed reconciliation), with the
    properties of the design document stated and proved over it. *)

From Stdlib Require Import ZArith Lia String Ascii List Bool.
From Stdlib.Strings Require Import Byte.
From stdpp Require Import base option gmap strings list fin_maps sorting.

Set Warnings "-notation-for-abbreviation".

Local Open Scope Z_scope.

(** ** Part I: the blob store (blob/blob.go) *)

Module Blob.

(** *** The file system the store runs on

    The store only ever touches regular files that sit in directories.  A
    directory is addressed by the elements of its cleaned absolute path; a
    file system maps each existing directory to its regular-file entries.
    Sub-directories are not listed as entries: the model covers stores in
    which no directory is named like a blob file.  Operations on this ideal
    file system fail only when a path does not exist (no permission or
    device errors); Part II has the operations with their failures. *)

Notation path := (list string).
Notation dirent := (gmap string (list byte)).
Notation FS := (gmap (list string) (gmap string (list byte))).

Inductive error : Set :=
| ErrNotExist   (* os.ErrNotExist: no such file or directory *)
| ErrIsDir      (* the path names a directory *)
| EOF.          (* io.EOF *)

#[global] Instance error_eq_dec : EqDecision error.
Proof. solve_decision. Defined.

(** [strings.Split(s, "/")]. *)
Fixpoint split_slash (s : string) : list string :=
  match s with
  | EmptyString => [EmptyString]
  | String c rest =>
      if Ascii.eqb c "/" then EmptyString :: split_slash rest
      else match split_slash rest with
           | [] => [String c EmptyString]
           | h :: t => String c h :: t
           end
  end.

(** One step of [path.Clean] on a rooted path: empty and ["."] elements are
    dropped, [".."] removes the element before it (and is dropped at the
    root), anything else is appended. *)
Definition clean_elem (stack : path) (e : string) : path :=
  if String.eqb e EmptyString || String.eqb e "." then stack
  else if String.eqb e ".." then removelast stack
  else stack ++ [e].

(** [path.Join(base, s)] for a cleaned absolute [base]: the elements of [s]
    are cleaned onto [base]. *)
Definition path_Join (base : path) (s : string) : path :=
  fold_left clean_elem (split_slash s) base.

Definition parent (p : path) : path := removelast p.
Definition base (p : path) : string := default EmptyString (last p).

Definition lookup_file (p : path) (fs : FS) : option (list byte) :=
  match p with
  | [] => None
  | _ => fs !! parent p ≫= λ es, es !! base p
  end.

(** The content of entry [n] of directory [d], if both exist. *)
Definition entry (fs : FS) (d : path) (n : string) : option (list byte) :=
  fs !! d ≫= λ es, es !! n.

(** A string free of the path separator. *)
Fixpoint no_slash (s : string) : bool :=
  match s with
  | EmptyString => true
  | String c rest => negb (Ascii.eqb c "/") && no_slash rest
  end.

(** A name that can be a directory entry: free of the separator, not
    empty, not ["."] or [".."]. *)
Definition is_elem (s : string) : bool :=
  no_slash s && negb (String.eqb s EmptyString) && negb (String.eqb s ".")
  && negb (String.eqb s "..").

(** Directory entries of a real file system are path elements. *)
Definition wf_fs (fs : FS) : Prop :=
  map_Forall (λ (_ : path) (es : dirent),
                map_Forall (λ (n : string) (_ : list byte), is_elem n = true) es) fs.

#[global] Instance wf_fs_dec fs : Decision (wf_fs fs).
Proof. unfold wf_fs. apply _. Defined.

(** [ioutil.ReadDir]: the names of the entries of a directory.  (Go sorts
    them by name; [cleanup] treats each entry on its own, so their order
    does not matter.) *)
Definition ReadDir (d : path) (fs : FS) : list string + error :=
  match fs !! d with
  | Some es => inl (map_to_list es).*1
  | None => inr ErrNotExist
  end.

(** [os.Remove] of a regular file. *)
Definition Remove (p : path) (fs : FS) : option error * FS :=
  match p, fs !! parent p with
  | _ :: _, Some es =>
      match es !! base p with
      | Some _ => (None, <[parent p := delete (base p) es]> fs)
      | None => (Some ErrNotExist, fs)
      end
  | _, _ => (Some ErrNotExist, fs)
  end.

Definition mkdir (fs : FS) (d : path) : FS :=
  match fs !! d with
  | Some _ => fs
  | None => <[d := ∅]> fs
  end.

Definition prefixes (d : path) : list path :=
  (λ k, take k d) <$> seq 0 (S (length d)).

(** [os.MkdirAll]: the directory and every missing ancestor are created. *)
Definition MkdirAll (d : path) (fs : FS) : option error * FS :=
  (None, fold_left mkdir (prefixes d) fs).

(** An open [os.File]: the path it was opened at and its offset. *)
Record File := { f_path : path; f_off : nat }.

(** [os.OpenFile(p, os.O_CREATE|os.O_RDWR, 0750)]: an existing file is
    opened as it is (no O_TRUNC), a missing one is created empty. *)
Definition OpenFile (p : path) (fs : FS) : (File + error) * FS :=
  match p, fs !! parent p with
  | [], _ => (inr ErrIsDir, fs)
  | _, None => (inr ErrNotExist, fs)
  | _, Some es =>
      match es !! base p with
      | Some _ => (inl {| f_path := p; f_off := 0 |}, fs)
      | None => (inl {| f_path := p; f_off := 0 |},
                 <[parent p := <[base p := []]> es]> fs)
      end
  end.

(** [os.Open]: read-only; the root directory can be opened, any other path
    must be a regular file. *)
Definition Open (p : path) (fs : FS) : File + error :=
  match p with
  | [] => inl {| f_path := p; f_off := 0 |}
  | _ => match lookup_file p fs with
         | Some _ => inl {| f_path := p; f_off := 0 |}
         | None => inr ErrNotExist
         end
  end.

Definition write_at (off : nat) (p c : list byte) : list byte :=
  take off c ++ replicate (off - length c) x00%byte ++ p
  ++ drop (off + length p) c.

(** [os.File.Write]: overwrites at the offset and advances it. *)
Definition file_Write (f : File) (p : list byte) (fs : FS) : File * FS :=
  ({| f_path := f_path f; f_off := (f_off f + length p)%nat |},
   alter (alter (write_at (f_off f) p) (base (f_path f))) (parent (f_path f)) fs).

(** [os.File.Seek(seek, 0)]; a negative offset is refused and leaves the
    offset where it was. *)
Definition file_Seek (f : File) (seek : Z) : File :=
  if seek <? 0 then f else {| f_path := f_path f; f_off := Z.to_nat seek |}.

(** [os.File.Read] into a buffer of [l] bytes: the bytes read and the
    error. *)
Definition file_Read (f : File) (l : nat) (fs : FS) : list byte * option error :=
  match lookup_file (f_path f) fs with
  | None => ([], Some ErrIsDir)
  | Some c =>
      if (l =? 0)%nat then ([], None)
      else if (length c <=? f_off f)%nat then ([], Some EOF)
      else (take l (drop (f_off f) c), None)
  end.

(** *** bufio

    [bufio.NewWriter] has a buffer of 4096 bytes; bytes written to it reach
    the file only when the buffer overflows or on [Flush]. *)
Definition defaultBufSize : nat := 4096.

Record Writer := { wr : File; buf : list byte }.

Definition NewWriter (f : File) : Writer := {| wr := f; buf := [] |}.

Definition Available (b : Writer) : nat := (defaultBufSize - length (buf b))%nat.

(** [bufio.Writer.Write]; its loop runs at most twice: a partly filled
    buffer is topped up and flushed, and what is left either goes to the
    file directly (larger than the buffer) or is buffered. *)
Definition Writer_Write (b : Writer) (p : list byte) (fs : FS) : Writer * FS :=
  if (Available b <? length p)%nat then
    if (length (buf b) =? 0)%nat then
      let '(f, fs) := file_Write (wr b) p fs in
      ({| wr := f; buf := [] |}, fs)
    else
      let n := Available b in
      let '(f, fs) := file_Write (wr b) (buf b ++ take n p) fs in
      let p := drop n p in
      if (defaultBufSize <? length p)%nat then
        let '(f, fs) := file_Write f p fs in
        ({| wr := f; buf := [] |}, fs)
      else ({| wr := f; buf := p |}, fs)
  else ({| wr := wr b; buf := buf b ++ p |}, fs).

(** Of [L] bytes written through a fresh [bufio.Writer] in slices of at
    most its buffer size and never flushed, the count that reached the
    file: the buffer is written out each time it is full and more bytes
    arrive, so the last 1 to 4096 bytes stay behind. *)
Definition flushed_len (L : nat) : nat :=
  (defaultBufSize * ((L - 1) / defaultBufSize))%nat.

(** An [io.ReadCloser] delivering finite content: the byte slices its
    successive [Read] calls return with a nil error (each at most the 4096
    bytes asked for), after which [Read] returns [io.EOF].
    [bufio.Reader.Read] with a destination as large as its own buffer
    passes each call through to the reader. *)
Notation ReadCloser := (list (list byte)).

(** *** The manager *)

Section Manager.

(** The [blobPath] of the manager, as the elements of its cleaned absolute
    path. *)
Variable blobPath : path.

Definition getBlobName (id checksum : string) : string :=
  id +:+ "==" +:+ checksum.

(** [id[l-2:l]] panics on ids shorter than two bytes: [None]. *)
Definition getBlobDir (id : string) : option path :=
  let l := String.length id in
  if (l <? 2)%nat then None
  else Some (path_Join blobPath (substring (l - 2) 2 id)).

Definition getBlobPath (id checksum : string) : option path :=
  dir ← getBlobDir id;
  Some (path_Join dir (getBlobName id checksum)).

(** [strings.Contains]. *)
Fixpoint Contains (s sub : string) : bool :=
  String.prefix sub s
  || match s with
     | EmptyString => false
     | String _ s' => Contains s' sub
     end.

(** The test of the loop of [cleanup]. *)
Definition stale (id checksum name : string) : bool :=
  negb (String.eqb name (getBlobName id checksum))
  && Contains name (getBlobName id EmptyString).

Definition cleanup (id checksum : string) (fs : FS) : option (option error * FS) :=
  dir ← getBlobDir id;
  match ReadDir dir fs with
  | inr err => Some (Some err, fs)
  | inl blobs =>
      Some (None,
            fold_left (λ fs name,
                         if stale id checksum name
                         then (Remove (path_Join dir name) fs).2 (* rmErr is only logged *)
                         else fs)
                      blobs fs)
  end.

(** The copy loop of [Save]: each slice the reader returns is handed to the
    buffered writer; when the slices are used up the reader reports
    [io.EOF] and the loop is left. *)
Fixpoint copy_loop (rc : ReadCloser) (writer : Writer) (fs : FS) : Writer * FS :=
  match rc with
  | [] => (writer, fs)
  | p :: rest =>
      let '(writer, fs) := Writer_Write writer p fs in
      copy_loop rest writer fs
  end.

(** [Save]; [None] is the panic on a short id.  The writer is never flushed:
    what it still buffers when the loop ends does not reach the file. *)
Definition Save (id checksum : string) (rc : ReadCloser) (fs : FS)
  : option (option error * FS) :=
  '(_, fs) ← cleanup id checksum fs;
  dir ← getBlobDir id;
  let '(err, fs) := MkdirAll dir fs in
  match err with
  | Some e => Some (Some e, fs)
  | None =>
      p ← getBlobPath id checksum;
      match OpenFile p fs with
      | (inr err, fs) => Some (Some err, fs)
      | (inl file, fs) =>
          let '(_, fs) := copy_loop rc (NewWriter file) fs in
          Some (None, fs)
      end
  end.

(** [Read]: the blob slice, the count of bytes read and the error; [None]
    is a panic (short id, negative length). *)
Definition Read (id checksum : string) (seek l : Z) (fs : FS)
  : option (list byte * Z * option error) :=
  p ← getBlobPath id checksum;
  match Open p fs with
  | inr err => Some ([], 0, Some err)
  | inl file =>
      if l <? 0 then None
      else
        let file := file_Seek file seek in
        let '(data, err) := file_Read file (Z.to_nat l) fs in
        Some (data ++ replicate (Z.to_nat l - length data) x00%byte,
              Z.of_nat (length data), err)
  end.

Definition Delete (id : string) (fs : FS) : option (option error * FS) :=
  cleanup id "*" fs.

End Manager.

End Blob.

(** ** Part II: the blob store on a file system that fails (blob/blob.go) *)

Module BlobOS.

(** *** The file system with its failures

    The same store layout as in [Blob] (each existing directory with its
    regular files), under operations that fail as those of an operating
    system do: a name can be refused (a NUL byte, a name that is too
    long), a regular file can lie where a directory is needed, a directory
    where a file is needed, and any operation on a path can be denied
    (no permission, a busy file, an I/O error).  What is refused or denied
    is given by an environment, which can differ from one call to the
    next.  A write that reaches an open file fails as a whole, leaving the
    file as it was, when writing to it is denied (a full disk, an I/O
    error); reads of an open file do not fail.  On a store whose shard
    directory has no sub-directory and no regular file on its path, where
    no name is refused and nothing is denied, the manager on this file
    system is the one of Part I ([AgreeFacts.managers_agree]). *)

Notation path := (list string).
Notation dirent := (gmap string (list byte)).
Notation FS := (gmap (list string) (gmap string (list byte))).

Inductive error : Set :=
| ErrNotExist     (* ENOENT *)
| ErrNotDir       (* ENOTDIR: a regular file lies on the path *)
| ErrIsDir        (* EISDIR *)
| ErrInvalid      (* EINVAL, ENAMETOOLONG: a name the system refuses *)
| ErrNotEmpty     (* ENOTEMPTY *)
| ErrPermission   (* EACCES, EPERM, EBUSY: the operation is denied *)
| ErrNoSpace      (* ENOSPC, EIO: a write is denied *)
| EOF.            (* io.EOF *)

#[global] Instance error_eq_dec : EqDecision error.
Proof. solve_decision. Defined.

(** The operations that can be denied. *)
Inductive op : Set :=
| OpReadDir | OpRemove | OpMkdir | OpCreate | OpOpenRW | OpOpenRO | OpWrite.

#[global] Instance op_eq_dec : EqDecision op.
Proof. solve_decision. Defined.

Record Env := {
  name_ok : string → bool;      (* the names the system accepts *)
  denied : op → path → bool;    (* the operations it denies, by path *)
  max_len : Z }.                (* the longest slice [make] allocates *)

Definition is_dir (fs : FS) (p : path) : bool := bool_decide (is_Some (fs !! p)).

Definition is_file (fs : FS) (p : path) : bool :=
  bool_decide (is_Some (Blob.lookup_file p fs)).

(** The error of resolving a path at which there is neither a directory
    nor a regular file. *)
Definition lookup_error (env : Env) (fs : FS) (p : path) : error :=
  if negb (forallb (name_ok env) p) then ErrInvalid
  else if existsb (is_file fs) (Blob.prefixes p) then ErrNotDir
  else ErrNotExist.

(** The names of the sub-directories of a directory. *)
Definition subdirs (fs : FS) (d : path) : list string :=
  omap (λ p, if bool_decide (p ≠ [] ∧ Blob.parent p = d) then Some (Blob.base p) else None)
       (map_to_list fs).*1.

(** [ioutil.ReadDir]: the names of the regular files and of the
    sub-directories.  (Go sorts them by name; [cleanup] treats each entry on
    its own.) *)
Definition ReadDir (env : Env) (d : path) (fs : FS) : list string + error :=
  match fs !! d with
  | Some es =>
      if denied env OpReadDir d then inr ErrPermission
      else inl ((map_to_list es).*1 ++ subdirs fs d)
  | None => inr (lookup_error env fs d)
  end.

(** [os.Remove]: removes a regular file or an empty directory, unless the
    removal is denied; the root is never removed. *)
Definition Remove (env : Env) (p : path) (fs : FS) : option error * FS :=
  if bool_decide (p = []) then (Some ErrPermission, fs)
  else if is_file fs p then
    if denied env OpRemove p then (Some ErrPermission, fs)
    else (None, alter (delete (Blob.base p)) (Blob.parent p) fs)
  else match fs !! p with
       | Some es =>
           if bool_decide ((map_to_list es).*1 = []) && bool_decide (subdirs fs p = [])
           then if denied env OpRemove p then (Some ErrPermission, fs)
                else (None, delete p fs)
           else (Some ErrNotEmpty, fs)
       | None => (Some (lookup_error env fs p), fs)
       end.

(** [os.MkdirAll]: walks the path from the root; an existing directory is
    passed, a regular file on the path, a refused name or a denied
    creation stops the walk with an error (the directories made before it
    stay), a missing directory is made.  The root exists: a store that
    does not list it gets it listed. *)
Fixpoint mkdirs (env : Env) (qs : list path) (fs : FS) : option error * FS :=
  match qs with
  | [] => (None, fs)
  | q :: qs =>
      if is_dir fs q then mkdirs env qs fs
      else if bool_decide (q = []) then mkdirs env qs (<[q := ∅]> fs)
      else if is_file fs q then (Some ErrNotDir, fs)
      else if negb (name_ok env (Blob.base q)) then (Some ErrInvalid, fs)
      else if denied env OpMkdir q then (Some ErrPermission, fs)
      else mkdirs env qs (<[q := ∅]> fs)
  end.

Definition MkdirAll (env : Env) (d : path) (fs : FS) : option error * FS :=
  mkdirs env (Blob.prefixes d) fs.

(** [os.OpenFile(p, os.O_CREATE|os.O_RDWR, 0750)]: a directory is refused,
    an existing file is opened as it is (no O_TRUNC), a missing one is
    created empty if its directory exists and its name is accepted. *)
Definition OpenFile (env : Env) (p : path) (fs : FS) : (Blob.File + error) * FS :=
  if is_dir fs p || bool_decide (p = []) then (inr ErrIsDir, fs)
  else if is_file fs p then
    if denied env OpOpenRW p then (inr ErrPermission, fs)
    else (inl {| Blob.f_path := p; Blob.f_off := 0 |}, fs)
  else match fs !! Blob.parent p with
       | Some es =>
           if negb (name_ok env (Blob.base p)) then (inr ErrInvalid, fs)
           else if denied env OpCreate p then (inr ErrPermission, fs)
           else (inl {| Blob.f_path := p; Blob.f_off := 0 |},
                 <[Blob.parent p := <[Blob.base p := []]> es]> fs)
       | None => (inr (lookup_error env fs p), fs)
       end.

(** [os.Open]: read-only; opens a regular file or a directory, the root
    among them. *)
Definition Open (env : Env) (p : path) (fs : FS) : Blob.File + error :=
  if is_dir fs p || is_file fs p || bool_decide (p = []) then
    if denied env OpOpenRO p then inr ErrPermission
    else inl {| Blob.f_path := p; Blob.f_off := 0 |}
  else inr (lookup_error env fs p).

(** [os.File.Read] into a buffer of [l] bytes; a directory cannot be
    read. *)
Definition file_Read (f : Blob.File) (l : nat) (fs : FS) : list byte * option error :=
  match Blob.lookup_file (Blob.f_path f) fs with
  | None => ([], Some ErrIsDir)
  | Some c =>
      if (l =? 0)%nat then ([], None)
      else if (length c <=? Blob.f_off f)%nat then ([], Some EOF)
      else (take l (drop (Blob.f_off f) c), None)
  end.

(** What one [Read] of an [io.Reader] returns: bytes with a nil error,
    bytes with an error other than [io.EOF], or bytes with [io.EOF]. *)
Inductive read_result :=
| ReadOk (p : list byte)
| ReadErr (p : list byte)
| ReadEOF (p : list byte).

(** An [io.ReadCloser]: [None] is the nil reader; otherwise the results of
    its successive [Read] calls (each of at most the 4096 bytes asked for),
    after which it returns no bytes and [io.EOF].  (A reader that never
    returns [io.EOF] keeps [Save] in its loop for ever; it has no such
    list.) *)
Notation ReadCloser := (option (list read_result)).

(** [bufio.Writer.Write]: the bytes go to the file only when they do not
    fit the buffer; the write to the file can then fail, and the error is
    returned. *)
Definition Writer_Write (env : Env) (b : Blob.Writer) (p : list byte) (fs : FS)
  : option error * Blob.Writer * FS :=
  if (Blob.Available b <? length p)%nat && denied env OpWrite (Blob.f_path (Blob.wr b))
  then (Some ErrNoSpace, b, fs)
  else (None, (Blob.Writer_Write b p fs).1, (Blob.Writer_Write b p fs).2).

(** The copy loop of [Save]: [io.EOF] leaves the loop, and the bytes
    returned with it are not written; any other error of the reader is
    overwritten by the result of the write, and the loop goes on unless
    the write failed. *)
Fixpoint copy_loop (env : Env) (rc : list read_result) (writer : Blob.Writer) (fs : FS)
  : option error * FS :=
  match rc with
  | [] => (None, fs)
  | ReadEOF _ :: _ => (None, fs)
  | ReadOk p :: rest | ReadErr p :: rest =>
      match Writer_Write env writer p fs with
      | (Some err, _, fs) => (Some err, fs)
      | (None, writer, fs) => copy_loop env rest writer fs
      end
  end.

(** Every name on a path is accepted. *)
Definition names_ok (env : Env) (p : path) : bool := forallb (name_ok env) p.

(** No regular file lies on a path. *)
Definition clear_path (fs : FS) (p : path) : Prop :=
  ∀ q, q `prefix_of` p → is_file fs q = false.

(** A directory without sub-directories. *)
Definition no_subdirs (fs : FS) (d : path) : Prop :=
  ∀ n, fs !! (d ++ [n]) = None.

(** Nothing is denied on the path of a directory nor on its entries. *)
Definition permits (env : Env) (d : path) : Prop :=
  ∀ o q, q `prefix_of` d ∨ (∃ n, q = d ++ [n]) → denied env o q = false.

(** *** The manager *)

Section Manager.

Variable blobPath : path.

Definition cleanup (env : Env) (id checksum : string) (fs : FS)
  : option (option error * FS) :=
  dir ← Blob.getBlobDir blobPath id;
  match ReadDir env dir fs with
  | inr err => Some (Some err, fs)
  | inl blobs =>
      Some (None,
            fold_left (λ fs name,
                         if Blob.stale id checksum name
                         then (Remove env (Blob.path_Join dir name) fs).2 (* rmErr is only logged *)
                         else fs)
                      blobs fs)
  end.

(** [Save]; [None] is a panic: a short id, or the first read of a nil
    reader. *)
Definition Save (env : Env) (id checksum : string) (rc : ReadCloser) (fs : FS)
  : option (option error * FS) :=
  '(_, fs) ← cleanup env id checksum fs;
  dir ← Blob.getBlobDir blobPath id;
  let '(err, fs) := MkdirAll env dir fs in
  match err with
  | Some e => Some (Some e, fs)
  | None =>
      p ← Blob.getBlobPath blobPath id checksum;
      match OpenFile env p fs with
      | (inr err, fs) => Some (Some err, fs)
      | (inl file, fs) =>
          rc ← rc;
          Some (copy_loop env rc (Blob.NewWriter file) fs)
      end
  end.

(** [Read]; [None] is a panic: a short id, or a length [make] refuses. *)
Definition Read (env : Env) (id checksum : string) (seek l : Z) (fs : FS)
  : option (list byte * Z * option error) :=
  p ← Blob.getBlobPath blobPath id checksum;
  match Open env p fs with
  | inr err => Some ([], 0, Some err)
  | inl file =>
      if (l <? 0) || (max_len env <? l) then None
      else
        let file := Blob.file_Seek file seek in
        let '(data, err) := file_Read file (Z.to_nat l) fs in
        Some (data ++ replicate (Z.to_nat l - length data) x00%byte,
              Z.of_nat (length data), err)
  end.

Definition Delete (env : Env) (id : string) (fs : FS) : option (option error * FS) :=
  cleanup env id "*" fs.

End Manager.

(** The errors of the file system of Part I among those of this one, and
    the results of its manager among those of this one. *)
Definition of_ideal (e : Blob.error) : error :=
  match e with
  | Blob.ErrNotExist => ErrNotExist
  | Blob.ErrIsDir => ErrIsDir
  | Blob.EOF => EOF
  end.

Definition of_ideal_result (r : option Blob.error * FS) : option error * FS :=
  (of_ideal <$> r.1, r.2).

Definition of_ideal_read (r : list byte * Z * option Blob.error)
  : list byte * Z * option error :=
  (r.1.1, r.1.2, of_ideal <$> r.2).

End BlobOS.

(** ** Part III: the inbound synchronisation (syncer/syncer.go) *)

Module Syncer.

(** Go [error] values, by their message. *)
Notation error := string.

(** Modelled from the spec: the declarations of the remote client
    ([Change], [ChangeList], [File], its labels and parent references) are
    not part of the sources at hand; the fields are the ones of the
    external interface the document lists, under the names the syncer
    uses. *)
Record ParentReference := { Parent_Id : string }.

Record FileLabels := { Trashed : bool }.

Record File := {
  File_Id : string;
  Title : string;
  MimeType : string;
  FileSize : Z;
  Md5Checksum : string;
  DownloadUrl : string;
  Labels : FileLabels;
  Parents : list ParentReference }.

Record Change := {
  Id : Z;
  FileId : string;
  Deleted : bool;
  Change_File : File }.

Record ChangeList := {
  Items : list Change;
  NextPageToken : string }.

(** A change-list request as [mergeChanges] builds it: each setter that was
    called, with its argument. *)
Record ChangesListCall := {
  IncludeSubscribed : option bool;
  PageToken : option string;
  StartChangeId : option Z;
  IncludeDeleted : option bool }.

(** Modelled from the spec: the metadata record ([metadata.CachedDriveFile],
    declared outside the sources at hand), with the fields the syncer
    fills. *)
Record CachedDriveFile := {
  cdf_Id : string;
  cdf_ParentId : string;
  cdf_Name : string;
  cdf_MimeType : string;
  cdf_FileSize : Z;
  cdf_Md5Checksum : string;
  cdf_LastMod : Z }.

(** [int64] arithmetic wraps around. *)
Definition wrap64 (z : Z) : Z := (z + 2 ^ 63) mod 2 ^ 64 - 2 ^ 63.

(** The calls the syncer makes on its two collaborators, with what each
    returned. *)
Inductive event :=
| EvGetLargestChangeId (r : Z + error)
| EvSaveLargestChangeId (v : Z)
| EvSave (parentId id : string) (data : CachedDriveFile) (isLeaf flag : bool)
         (r : option error)
| EvDelete (id : string) (r : option error)
| EvFilesGet (id : string) (r : File + error)
| EvChangesList (req : ChangesListCall) (r : ChangeList + error).

(** What a trace shows of a pass: the requests made to the change feed,
    the pages it served, the cursor values written, and whether a page
    fetch failed. *)
Definition requests (tr : list event) : list ChangesListCall :=
  omap (λ ev, match ev with EvChangesList req _ => Some req | _ => None end) tr.

Definition served (tr : list event) : list ChangeList :=
  omap (λ ev, match ev with EvChangesList _ (inl cl) => Some cl | _ => None end) tr.

Definition cursor_writes (tr : list event) : list Z :=
  omap (λ ev, match ev with EvSaveLargestChangeId v => Some v | _ => None end) tr.

Definition fetch_failed (tr : list event) : bool :=
  existsb (λ ev, match ev with EvChangesList _ (inr _) => true | _ => false end) tr.

(** By position: every page served when a page fetch failed, else every
    page served but the last.  (In a pass that failed these are the pages
    merged to their end; [merged_pages] below reads them off the calls.) *)
Definition fully_merged (tr : list event) : list ChangeList :=
  if fetch_failed tr then served tr else removelast (served tr).

Definition ids (pages : list ChangeList) : list Z :=
  concat ((λ cl, Id <$> Items cl) <$> pages).

(** The id of the last item of a page, and the cursor a page merged to its
    end makes the syncer write. *)
Definition last_id (cl : ChangeList) : Z := default 0 (Id <$> last (Items cl)).

Definition page_cursor (cl : ChangeList) : option Z :=
  if 0 <? last_id cl then Some (last_id cl) else None.

(** The maximum change id among the items of a page (0 for an empty page). *)
Definition max_id (items : list Change) : Z :=
  foldr Z.max 0 (Id <$> items).

(** The parent id the document prescribes for a persisted item: the first
    listed parent, else the empty string; the root id of the remote account
    is replaced by the sentinel. *)
Definition resolved_parent (sentinel rootId : string) (item : Change) : string :=
  let first := match Parents (Change_File item) with
               | p :: _ => Parent_Id p
               | [] => EmptyString
               end in
  if decide (first = rootId) then sentinel else first.

(** The resume point the document prescribes: zero on a forced pass or when
    the cursor cannot be read, else the cursor plus one. *)
Definition resume_point (isForce : bool) (cursor : Z + error) : Z :=
  match cursor with
  | inl c => if isForce then 0 else c + 1
  | inr _ => 0
  end.

(** The file ids a trace shows as saved without error. *)
Definition saved_ids (tr : list event) : list string :=
  omap (λ ev, match ev with EvSave _ id _ _ _ None => Some id | _ => None end) tr.

(** Whether the calls at the head of [evs] are those of the merge of every
    item of a page, in order, each merge returning no error: a delete (its
    own result is not returned) for a deleted or trashed item, nothing for
    an item that is skipped, a save that returned no error for any other
    item.  The calls that follow them are returned. *)
Fixpoint merged_prefix (folderType : string) (items : list Change) (evs : list event)
  : option (list event) :=
  match items with
  | [] => Some evs
  | item :: rest =>
      if Deleted item || Trashed (Labels (Change_File item)) then
        match evs with
        | EvDelete id _ :: evs' =>
            if String.eqb id (FileId item) then merged_prefix folderType rest evs'
            else None
        | _ => None
        end
      else if String.eqb (DownloadUrl (Change_File item)) EmptyString
              && negb (String.eqb (MimeType (Change_File item)) folderType)
      then merged_prefix folderType rest evs
      else
        match evs with
        | EvSave _ id _ _ _ None :: evs' =>
            if String.eqb id (FileId item) then merged_prefix folderType rest evs'
            else None
        | _ => None
        end
  end.

(** The pages of a trace that were merged to their end: served, and
    followed by the calls of the merge of each of their items.  The other
    pages served are the ones whose merge failed or was not made. *)
Fixpoint merged_pages (folderType : string) (tr : list event) : list ChangeList :=
  match tr with
  | [] => []
  | EvChangesList _ (inl cl) :: rest =>
      match merged_prefix folderType (Items cl) rest with
      | Some _ => cl :: merged_pages folderType rest
      | None => merged_pages folderType rest
      end
  | _ :: rest => merged_pages folderType rest
  end.

Fixpoint unmerged_pages (folderType : string) (tr : list event) : list ChangeList :=
  match tr with
  | [] => []
  | EvChangesList _ (inl cl) :: rest =>
      match merged_prefix folderType (Items cl) rest with
      | Some _ => unmerged_pages folderType rest
      | None => cl :: unmerged_pages folderType rest
      end
  | _ :: rest => unmerged_pages folderType rest
  end.

(** The cursor that a metadata service which keeps the last value written
    holds after a pass that read [cur] before. *)
Definition cursor_after (cur : Z + error) (tr : list event) : Z + error :=
  match last (cursor_writes tr) with
  | Some v => inl v
  | None => cur
  end.

(** An event of the merge of one item: a save or a delete of a record. *)
Definition item_event (ev : event) : Prop :=
  match ev with
  | EvSave _ _ _ _ _ _ | EvDelete _ _ => True
  | _ => False
  end.

(** A save whose parent is not the remote root id, unless that id is the
    sentinel itself. *)
Definition remapped (sentinel rootId : string) (ev : event) : Prop :=
  match ev with
  | EvSave parentId _ _ _ _ _ => parentId = sentinel ∨ parentId ≠ rootId
  | _ => True
  end.

(** The save of the root record: no parent, the sentinel as id, not a leaf. *)
Definition root_save (sentinel : string) (rootFile : File) (ev : event) : Prop :=
  match ev with
  | EvSave parentId id data isLeaf flag _ =>
      parentId = EmptyString ∧ id = sentinel ∧ isLeaf = false ∧ flag = false
      ∧ cdf_Id data = sentinel ∧ cdf_ParentId data = EmptyString
      ∧ cdf_Name data = Title rootFile ∧ cdf_MimeType data = MimeType rootFile
  | _ => False
  end.

Definition save_result (ev : event) : option error :=
  match ev with
  | EvSave _ _ _ _ _ r => r
  | _ => None
  end.

(** The error a call of the trace failed with: a save, the root fetch or a
    page fetch.  (A failed delete and a failed cursor read are calls whose
    error the syncer does not act on.) *)
Definition failure (ev : event) : option error :=
  match ev with
  | EvSave _ _ _ _ _ (Some e) => Some e
  | EvFilesGet _ (inr e) => Some e
  | EvChangesList _ (inr e) => Some e
  | _ => None
  end.

(** A trace that ends at its first failure, with the error returned; or,
    without error, holds no failure. *)
Definition fail_fast (r : option error) (tr : list event) : Prop :=
  match r with
  | Some e => ∃ tr' ev, tr = tr' ++ [ev] ∧ failure ev = Some e
                        ∧ Forall (λ ev, failure ev = None) tr'
  | None => Forall (λ ev, failure ev = None) tr
  end.

(** The file ids a trace shows as merged: saved or deleted in the metadata
    service, whatever the call returned. *)
Definition merged_ids (tr : list event) : list string :=
  omap (λ ev, match ev with
              | EvSave _ id _ _ _ _ => Some id
              | EvDelete id _ => Some id
              | _ => None
              end) tr.

(** The request [mergeChanges] builds. *)
Definition request_for (isInitialSync : bool) (startChangeId : Z)
    (pageToken : string) : ChangesListCall :=
  {| IncludeSubscribed := Some false;
     PageToken := if String.eqb pageToken EmptyString then None else Some pageToken;
     StartChangeId :=
       if String.eqb pageToken EmptyString && (0 <? startChangeId) then Some startChangeId
       else None;
     IncludeDeleted := if isInitialSync then Some false else None |}.

(** What a run of the page loop leaves in the trace. *)
Record loop_trace (sentinel : string) (ini : bool) (rootId : string) (start : Z) (tok : string)
    (r : option (option error)) (tr : list event) : Prop := {
  lt_requests :
    Forall (λ req, IncludeDeleted req = (if ini then Some false else None)
                   ∧ IncludeSubscribed req = Some false) (requests tr);
  lt_first :
    match head (requests tr) with
    | Some req => req = request_for ini start tok
    | None => True
    end;
  lt_remapped : Forall (remapped sentinel rootId) tr;
  lt_failed : ∀ e, r = Some (Some e) →
    cursor_writes tr = omap page_cursor (fully_merged tr)
    ∧ requests tr ≠ []
    ∧ (fetch_failed tr = false → served tr ≠ []);
  lt_done : (∀ e, r ≠ Some (Some e)) →
    cursor_writes tr = omap page_cursor (served tr) ∧ fetch_failed tr = false }.

(** The collaborators: the metadata service, the remote service and the
    clock, as transitions of a world [W] the syncer does not look into. *)
Class Collaborators (W : Type) := {
  meta_GetLargestChangeId : W → (Z + error) * W;
  meta_SaveLargestChangeId : Z → W → W;
  meta_Save : string → string → CachedDriveFile → bool → bool → W → option error * W;
  meta_Delete : string → W → option error * W;
  files_Get : string → W → (File + error) * W;
  changes_List : ChangesListCall → W → (ChangeList + error) * W;
  time_Now : W → Z }.

Section Syncer.

Context {W : Type} `{Collaborators W}.

(** The constants [metadata.IdRootFolder] and [metadata.MimeTypeFolder] are
    declared outside the sources at hand. *)
Variable IdRootFolder : string.
Variable MimeTypeFolder : string.

(** Modelled from the spec: [CachedDriveFile.IsFolder] is not part of the
    sources at hand; an entry is a folder when its MIME type is the folder
    type. *)
Definition IsFolder (f : CachedDriveFile) : bool :=
  String.eqb (cdf_MimeType f) MimeTypeFolder.

(** Computations of the syncer: a world transition that also yields the
    calls made, in order. *)
Definition M (A : Type) : Type := W → A * W * list event.

Definition ret {A} (a : A) : M A := λ w, (a, w, []).

Definition bind {A B} (m : M A) (f : A → M B) : M B :=
  λ w, let '(a, w1, t1) := m w in
       let '(b, w2, t2) := f a w1 in
       (b, w2, t1 ++ t2).

Notation "'let*' x ':=' m 'in' k" := (bind m (λ x, k))
  (at level 10, x pattern, m at level 100, k at level 200, only parsing).

Definition GetLargestChangeId : M (Z + error) :=
  λ w, let '(r, w) := meta_GetLargestChangeId w in (r, w, [EvGetLargestChangeId r]).

Definition SaveLargestChangeId (v : Z) : M unit :=
  λ w, (tt, meta_SaveLargestChangeId v w, [EvSaveLargestChangeId v]).

Definition metaSave (parentId id : string) (data : CachedDriveFile)
    (isLeaf flag : bool) : M (option error) :=
  λ w, let '(r, w) := meta_Save parentId id data isLeaf flag w in
       (r, w, [EvSave parentId id data isLeaf flag r]).

Definition metaDelete (id : string) : M (option error) :=
  λ w, let '(r, w) := meta_Delete id w in (r, w, [EvDelete id r]).

Definition FilesGet (id : string) : M (File + error) :=
  λ w, let '(r, w) := files_Get id w in (r, w, [EvFilesGet id r]).

Definition ChangesList (req : ChangesListCall) : M (ChangeList + error) :=
  λ w, let '(r, w) := changes_List req w in (r, w, [EvChangesList req r]).

Definition Now : M Z := λ w, (time_Now w, w, []).

Definition mergeChange (rootId : string) (item : Change) : M (option error) :=
  let err : option error := None in
  if Deleted item || Trashed (Labels (Change_File item)) then
    (* the result of Delete is dropped; the test reads [err], still nil *)
    let* _ := metaDelete (FileId item) in
    match err with
    | Some _ => ret err
    | None => ret err
    end
  else
    if String.eqb (DownloadUrl (Change_File item)) EmptyString
       && negb (String.eqb (MimeType (Change_File item)) MimeTypeFolder)
    then ret err
    else
      let fileId := FileId item in
      let parentId := EmptyString in
      let parentId :=
        match Parents (Change_File item) with
        | p :: _ => Parent_Id p
        | [] => parentId
        end in
      let parentId :=
        if String.eqb parentId rootId then IdRootFolder else parentId in
      let* now := Now in
      let metadata := {|
        cdf_Id := FileId item;
        cdf_ParentId := parentId;
        cdf_Name := Title (Change_File item);
        cdf_MimeType := MimeType (Change_File item);
        cdf_FileSize := FileSize (Change_File item);
        cdf_Md5Checksum := Md5Checksum (Change_File item);
        cdf_LastMod := now |} in
      metaSave parentId fileId metadata (negb (IsFolder metadata)) false.

(** The loop of [mergeChanges] over the items of a page: the error of the
    first failing merge, and [largestId] as the loop leaves it. *)
Fixpoint mergeItems (rootId : string) (items : list Change) (largestId : Z)
  : M (Z * option error) :=
  match items with
  | [] => ret (largestId, None)
  | item :: rest =>
      let* err := mergeChange rootId item in
      match err with
      | Some e => ret (largestId, Some e)
      | None => mergeItems rootId rest (Id item)
      end
  end.

Definition mergeChanges (isInitialSync : bool) (rootId : string)
    (startChangeId : Z) (pageToken : string) : M (string * option error) :=
  let req := {|
    IncludeSubscribed := Some false;
    PageToken := if String.eqb pageToken EmptyString then None else Some pageToken;
    StartChangeId :=
      if String.eqb pageToken EmptyString && (0 <? startChangeId) then Some startChangeId
      else None;
    IncludeDeleted := if isInitialSync then Some false else None |} in
  let* r := ChangesList req in
  match r with
  | inr err => ret (EmptyString, Some err)
  | inl changes =>
      let nextPageToken := NextPageToken changes in
      let* (largestId, err) := mergeItems rootId (Items changes) 0 in
      match err with
      | Some e => ret (nextPageToken, Some e)
      | None =>
          let* _ := (if 0 <? largestId then SaveLargestChangeId largestId else ret tt) in
          ret (nextPageToken, None)
      end
  end.

(** The page loop of [syncInbound].  It runs for as long as the remote
    hands out page tokens; [fuel] bounds the pages fetched, and the outer
    [None] says the bound was reached before the loop returned. *)
Fixpoint pageLoop (fuel : nat) (isInitialSync : bool) (rootId : string)
    (largestChangeId : Z) (pageToken : string) : M (option (option error)) :=
  match fuel with
  | O => ret None
  | S fuel =>
      let* (pageToken, err) := mergeChanges isInitialSync rootId largestChangeId pageToken in
      if bool_decide (err ≠ None) || String.eqb pageToken EmptyString then ret (Some err)
      else pageLoop fuel isInitialSync rootId largestChangeId pageToken
  end.

Definition syncInbound (fuel : nat) (isForce : bool) : M (option (option error)) :=
  let* r := GetLargestChangeId in
  let largestChangeId :=
    match r with
    | inl v => if isForce then 0 else wrap64 (v + 1)
    | inr _ => 0
    end in
  let isInitialSync := largestChangeId =? 0 in
  let* r := FilesGet IdRootFolder in
  match r with
  | inr err => ret (Some (Some err))
  | inl rootFile =>
      let* now := Now in
      let data := {|
        cdf_Id := IdRootFolder;
        cdf_ParentId := EmptyString;
        cdf_Name := Title rootFile;
        cdf_MimeType := MimeType rootFile;
        cdf_FileSize := FileSize rootFile;
        cdf_Md5Checksum := Md5Checksum rootFile;
        cdf_LastMod := now |} in
      let* err := metaSave EmptyString IdRootFolder data false false in
      match err with
      | Some e => ret (Some (Some e))
      | None => pageLoop fuel isInitialSync (File_Id rootFile) largestChangeId EmptyString
      end
  end.

End Syncer.

End Syncer.

(** ** Part IV: concrete collaborators and inputs

    An in-memory metadata service and change feed on which passes can be
    run, and a few concrete stores and pages. *)

Module Sim.

Import Syncer.

(** The two services are outside the sources at hand; these stand-ins
    follow the interface the document gives for them.  The metadata service
    keeps the cursor and one record per file id; the change feed is a log
    of changes served in pages of [page_size] items, from the requested
    start change id on, or from the position a page token stands for.
    [save_fails], [delete_fails] and [list_fails] make chosen calls fail. *)
Record world := {
  cursor : Z + Syncer.error;
  records : gmap string CachedDriveFile;
  save_fails : list string;
  delete_fails : bool;
  root : File;
  feed : list Change;
  page_size : nat;
  list_fails : list string;
  clock : Z }.

Definition set_cursor (v : Z) (w : world) : world :=
  {| cursor := inl v; records := records w; save_fails := save_fails w;
     delete_fails := delete_fails w; root := root w; feed := feed w;
     page_size := page_size w; list_fails := list_fails w; clock := clock w |}.

Definition set_records (r : gmap string CachedDriveFile) (w : world) : world :=
  {| cursor := cursor w; records := r; save_fails := save_fails w;
     delete_fails := delete_fails w; root := root w; feed := feed w;
     page_size := page_size w; list_fails := list_fails w; clock := clock w |}.

(** A page token stands for a position in the feed: as many characters. *)
Fixpoint token (n : nat) : string :=
  match n with
  | O => EmptyString
  | S n => String "t" (token n)
  end.

Definition sim_Save (parentId id : string) (data : CachedDriveFile)
    (isLeaf flag : bool) (w : world) : option Syncer.error * world :=
  if bool_decide (id ∈ save_fails w) then (Some "save failed", w)
  else (None, set_records (<[id := data]> (records w)) w).

Definition sim_Delete (id : string) (w : world) : option Syncer.error * world :=
  if delete_fails w then (Some "delete failed", w)
  else (None, set_records (delete id (records w)) w).

(** The changes of the log from change id [start] on. *)
Fixpoint from_id (start : Z) (log : list Change) : list Change :=
  match log with
  | [] => []
  | c :: rest => if Id c <? start then from_id start rest else log
  end.

Definition sim_List (req : ChangesListCall) (w : world)
  : (ChangeList + Syncer.error) * world :=
  if bool_decide (default EmptyString (PageToken req) ∈ list_fails w)
  then (inr "list failed", w)
  else
    let rest :=
      match PageToken req, StartChangeId req with
      | Some t, _ => drop (String.length t) (feed w)
      | None, Some start => from_id start (feed w)
      | None, None => feed w
      end in
    let page := take (page_size w) rest in
    let page :=
      if bool_decide (IncludeDeleted req = Some false)
      then filter (λ c, Deleted c = false) page else page in
    let next :=
      if (page_size w <? length rest)%nat
      then token (length (feed w) - length rest + page_size w)
      else EmptyString in
    (inl {| Items := page; NextPageToken := next |}, w).

#[global] Instance sim_collaborators : Collaborators world := {|
  meta_GetLargestChangeId w := (cursor w, w);
  meta_SaveLargestChangeId v w := set_cursor v w;
  meta_Save := sim_Save;
  meta_Delete := sim_Delete;
  files_Get id w := (inl (root w), w);
  changes_List := sim_List;
  time_Now w := clock w |}.

Definition IdRootFolder : string := "root".
Definition MimeTypeFolder : string := "application/vnd.google-apps.folder".

Definition file (id mime url : string) (parents : list string) : File :=
  {| File_Id := id; Title := id; MimeType := mime; FileSize := 0;
     Md5Checksum := EmptyString; DownloadUrl := url;
     Labels := {| Trashed := false |};
     Parents := (λ p, {| Parent_Id := p |}) <$> parents |}.

Definition change (n : Z) (id : string) (parents : list string) : Change :=
  {| Id := n; FileId := id; Deleted := false;
     Change_File := file id "text/plain" ("https://content/" +:+ id) parents |}.

Definition tombstone (n : Z) (id : string) : Change :=
  {| Id := n; FileId := id; Deleted := true;
     Change_File := file id EmptyString EmptyString [] |}.

Definition folder (n : Z) (id : string) (parents : list string) : Change :=
  {| Id := n; FileId := id; Deleted := false;
     Change_File := file id MimeTypeFolder EmptyString parents |}.

Definition remote_root : File := file "ROOT_REMOTE" MimeTypeFolder EmptyString [].

Definition world0 (c : Z + Syncer.error) (log : list Change) (size : nat) : world :=
  {| cursor := c; records := ∅; save_fails := []; delete_fails := false;
     root := remote_root; feed := log; page_size := size; list_fails := [];
     clock := 0 |}.

Definition failing_saves (ids : list string) (w : world) : world :=
  {| cursor := cursor w; records := records w; save_fails := ids;
     delete_fails := delete_fails w; root := root w; feed := feed w;
     page_size := page_size w; list_fails := list_fails w; clock := clock w |}.

Definition failing_deletes (w : world) : world :=
  {| cursor := cursor w; records := records w; save_fails := save_fails w;
     delete_fails := true; root := root w; feed := feed w;
     page_size := page_size w; list_fails := list_fails w; clock := clock w |}.

Definition failing_lists (tokens : list string) (w : world) : world :=
  {| cursor := cursor w; records := records w; save_fails := save_fails w;
     delete_fails := delete_fails w; root := root w; feed := feed w;
     page_size := page_size w; list_fails := tokens; clock := clock w |}.

(** A pass of the syncer on the in-memory collaborators. *)
Definition pass (fuel : nat) (isForce : bool) (w : world)
  : option (option Syncer.error) * world * list event :=
  syncInbound IdRootFolder MimeTypeFolder fuel isForce w.

(** Blob stores. *)
Definition blobPath : list string := ["var"; "blobs"].

Definition bytes (s : string) : list byte :=
  (λ a, Byte.of_bits (let '(Ascii.Ascii a0 a1 a2 a3 a4 a5 a6 a7) := a in
                      (a0, (a1, (a2, (a3, (a4, (a5, (a6, a7))))))))) <$> list_ascii_of_string s.

Definition empty_store : gmap (list string) (gmap string (list byte)) := ∅.

Definition store_with (dir : list string) (name : string) (content : list byte)
  : gmap (list string) (gmap string (list byte)) :=
  {[ dir := {[ name := content ]} ]}.

(** The store an operation leaves, and whether it returned an error. *)
Definition fs_of (r : option (option Blob.error * gmap (list string) (gmap string (list byte))))
  : gmap (list string) (gmap string (list byte)) :=
  match r with
  | Some (_, fs) => fs
  | None => ∅
  end.

Definition err_of (r : option (option Blob.error * gmap (list string) (gmap string (list byte))))
  : option (option Blob.error) :=
  fst <$> r.

(** A store holding one blob of id ["abc"], and one holding a blob of
    that id saved under the checksum ["*"]. *)
Definition shard_bc : list string := ["var"; "blobs"; "bc"].

Definition store_one : gmap (list string) (gmap string (list byte)) :=
  store_with shard_bc "abc==c0" (bytes "old").

Definition store_star : gmap (list string) (gmap string (list byte)) :=
  store_with shard_bc "abc==*" (bytes "xy").

(** A reader that delivers one full slice of 4096 bytes, then four more
    bytes. *)
Definition buffer_and_tail : list (list byte) :=
  [replicate 4096 "a"%byte; bytes "tail"].

(** Change logs and the passes run on them. *)
Definition four_changes : list Change :=
  [change 1 "A" []; change 2 "B" []; change 3 "C" []; change 4 "D" []].

Definition world_fail_C : world :=
  failing_saves ["C"] (world0 (inl 0) four_changes 2).

Definition run_fail_C : option (option Syncer.error) * world * list event :=
  pass 5 false world_fail_C.

Definition world_fail_B : world :=
  failing_saves ["B"] (world0 (inl 0) [change 1 "A" []; change 2 "B" []] 10).

Definition run_fail_B : option (option Syncer.error) * world * list event :=
  pass 5 false world_fail_B.

Definition rerun_fail_B : option (option Syncer.error) * world * list event :=
  pass 5 false run_fail_B.1.2.

(** A pass over the four changes in pages of two, nothing failing. *)
Definition world_four : world := world0 (inl 0) four_changes 2.

Definition run_four : option (option Syncer.error) * world * list event :=
  pass 5 false world_four.

Definition unordered_page : list Change := [tombstone 5 "A"; tombstone 3 "B"].

Definition run_unordered : string * option Syncer.error * world * list event :=
  mergeChanges IdRootFolder MimeTypeFolder false "ROOT_REMOTE" 1 EmptyString
    (world0 (inl 0) unordered_page 10).

Definition world_delete_fails : world := failing_deletes (world0 (inl 0) [] 10).

Definition world_cursor_5 : world := world0 (inl 5) [] 10.

(** The end-to-end scenario of the document. *)
Definition world_scenario : world :=
  world0 (inl 0) [change 5 "A" ["ROOT_REMOTE"]] 10.

Definition run_scenario : option (option Syncer.error) * world * list event :=
  pass 5 true world_scenario.

Definition record_A (now : Z) : CachedDriveFile :=
  {| cdf_Id := "A"; cdf_ParentId := "root"; cdf_Name := "A";
     cdf_MimeType := "text/plain"; cdf_FileSize := 0; cdf_Md5Checksum := EmptyString;
     cdf_LastMod := now |}.

(** A forced pass over a feed of two changes, begun with the cursor at 2,
    in which the save of the second change fails; and the pass that follows
    it, not forced, once saves no longer fail. *)
Definition world_forced_B : world :=
  failing_saves ["B"] (world0 (inl 2) [change 1 "A" []; change 2 "B" []] 10).

Definition run_forced_B : option (option Syncer.error) * world * list event :=
  pass 5 true world_forced_B.

Definition rerun_forced_B : option (option Syncer.error) * world * list event :=
  pass 5 false (failing_saves [] run_forced_B.1.2).

(** The resume point of a pass, not forced, that follows a pass begun in
    the world [w] with the trace [tr]. *)
Definition resume_after (w : world) (tr : list event) : Z :=
  wrap64 (resume_point false (Syncer.cursor_after (cursor w) tr)).

End Sim.

Module SimOS.
Import Sim.

(** Environments of the file system: one that accepts the names free of
    the NUL byte and at most 255 bytes long and denies nothing, and one
    that also denies one operation on one path. *)
Definition nul : string := String Ascii.zero EmptyString.

Definition has_nul (s : string) : bool :=
  existsb (Ascii.eqb Ascii.zero) (list_ascii_of_string s).

Definition posix : BlobOS.Env :=
  {| BlobOS.name_ok s := negb (has_nul s) && (String.length s <=? 255)%nat;
     BlobOS.denied _ _ := false;
     BlobOS.max_len := 2 ^ 47 |}.

Definition denying (o : BlobOS.op) (p : list string) : BlobOS.Env :=
  {| BlobOS.name_ok := BlobOS.name_ok posix;
     BlobOS.denied o' q := bool_decide (o' = o ∧ q = p);
     BlobOS.max_len := BlobOS.max_len posix |}.

(** The store an operation leaves, and the error it returned. *)
Definition os_fs_of
    (r : option (option BlobOS.error * gmap (list string) (gmap string (list byte))))
  : gmap (list string) (gmap string (list byte)) :=
  match r with
  | Some (_, fs) => fs
  | None => ∅
  end.

Definition os_err_of
    (r : option (option BlobOS.error * gmap (list string) (gmap string (list byte))))
  : option (option BlobOS.error) :=
  fst <$> r.

(** The names in the shard directory of ["abc"]. *)
Definition shard_names (fs : gmap (list string) (gmap string (list byte)))
  : option (gset string) :=
  dom <$> fs !! shard_bc.

(** Two saves in a row, each under its environment. *)
Definition os_save_twice (env1 env2 : BlobOS.Env) (id c1 c2 : string)
    (fs : gmap (list string) (gmap string (list byte)))
  : option (option BlobOS.error * gmap (list string) (gmap string (list byte))) :=
  BlobOS.Save blobPath env2 id c2 (Some [BlobOS.ReadOk (bytes "two")])
    (os_fs_of (BlobOS.Save blobPath env1 id c1 (Some [BlobOS.ReadOk (bytes "one")]) fs)).

End SimOS.

(** ** Part V: properties of the inbound synchronisation *)

Module SyncFacts.
Import Syncer.

Section Facts.
Context {W : Type} `{Collaborators W}.
Variable IdRootFolder MimeTypeFolder : string.

Notation mergeChange := (Syncer.mergeChange IdRootFolder MimeTypeFolder).
Notation mergeItems := (Syncer.mergeItems IdRootFolder MimeTypeFolder).
Notation mergeChanges := (Syncer.mergeChanges IdRootFolder MimeTypeFolder).
Notation pageLoop := (Syncer.pageLoop IdRootFolder MimeTypeFolder).
Notation syncInbound := (Syncer.syncInbound IdRootFolder MimeTypeFolder).

#[local] Arguments requests : simpl never.
#[local] Arguments served : simpl never.
#[local] Arguments cursor_writes : simpl never.
#[local] Arguments fetch_failed : simpl never.

Ltac run := unfold bind, ret, metaSave, metaDelete, Now, GetLargestChangeId,
  SaveLargestChangeId, FilesGet, ChangesList in *; simpl in *.

Lemma resolved_parent_eqb rootId item :
  (let first := match Parents (Change_File item) with
                | p :: _ => Parent_Id p
                | [] => EmptyString
                end in
   if String.eqb first rootId then IdRootFolder else first)
  = resolved_parent IdRootFolder rootId item.
Proof.
  unfold resolved_parent. simpl.
  destruct (String.eqb_spec
              (match Parents (Change_File item) with
               | p :: _ => Parent_Id p
               | [] => EmptyString
               end) rootId); case_decide; congruence.
Qed.

Lemma resolved_parent_remapped rootId item :
  resolved_parent IdRootFolder rootId item = IdRootFolder
  ∨ resolved_parent IdRootFolder rootId item ≠ rootId.
Proof. unfold resolved_parent. case_decide; auto. Qed.

Lemma mergeChange_cases rootId item w :
  let '(r, w', tr) := mergeChange rootId item w in
  (r = None ∧ w' = w ∧ tr = [])
  ∨ (r = None ∧ tr = [EvDelete (FileId item) (meta_Delete (FileId item) w).1])
  ∨ (∃ data isLeaf,
       tr = [EvSave (resolved_parent IdRootFolder rootId item) (FileId item)
                    data isLeaf false r]
       ∧ cdf_Id data = FileId item
       ∧ cdf_ParentId data = resolved_parent IdRootFolder rootId item).
Proof.
  unfold mergeChange.
  destruct (Deleted item || Trashed (Labels (Change_File item))).
  - run. destruct (meta_Delete (FileId item) w) as [r w1]. simpl. by right; left.
  - destruct (_ && _).
    + run. by left.
    + run. pose proof (resolved_parent_eqb rootId item) as Hp. simpl in Hp.
      rewrite Hp.
      match goal with |- context [meta_Save ?p ?i ?d ?l ?f w] =>
        destruct (meta_Save p i d l f w) as [r w1] eqn:E end.
      simpl. right; right. by eexists _, _.
Qed.

Lemma mergeChange_trace rootId item w :
  Forall item_event (mergeChange rootId item w).2
  ∧ Forall (remapped IdRootFolder rootId) (mergeChange rootId item w).2.
Proof.
  pose proof (mergeChange_cases rootId item w) as Hc.
  destruct (mergeChange rootId item w) as [[r w'] tr]. simpl.
  destruct Hc as [(_ & _ & ->) | [(_ & ->) | (data & leaf & -> & _)]].
  - split; constructor.
  - split; repeat constructor.
  - split; (constructor; [|constructor]); simpl; [exact I|].
    apply resolved_parent_remapped.
Qed.

Lemma mergeItems_spec rootId items l0 w :
  let '((l, err), w', tr) := mergeItems rootId items l0 w in
  Forall item_event tr
  ∧ Forall (remapped IdRootFolder rootId) tr
  ∧ (err = None → l = default l0 (Id <$> last items)).
Proof.
  revert l0 w. induction items as [|item rest IH]; intros l0 w.
  - simpl. run. repeat split; constructor.
  - simpl. unfold bind at 1.
    pose proof (mergeChange_trace rootId item w) as [Hi Hr].
    destruct (mergeChange rootId item w) as [[r w1] t1]. simpl in Hi, Hr.
    destruct r as [e|].
    + run. rewrite app_nil_r. repeat split; auto. discriminate.
    + specialize (IH (Id item) w1).
      destruct (mergeItems rootId rest (Id item) w1) as [[[l err] w2] t2].
      destruct IH as (IH1 & IH2 & IH3).
      repeat split; try (apply Forall_app; split; assumption).
      intros ->. rewrite IH3 by reflexivity.
      destruct rest as [|c rest']; [reflexivity|].
      change (last (item :: c :: rest')) with (last (c :: rest')).
      destruct (last (c :: rest')) eqn:E; [reflexivity|].
      apply last_None in E. discriminate.
Qed.

(** What the trace functions make of item events. *)
Lemma item_events_silent tr :
  Forall item_event tr →
  requests tr = [] ∧ served tr = [] ∧ cursor_writes tr = []
  ∧ fetch_failed tr = false.
Proof.
  induction 1 as [|ev tr Hev _ (IH1 & IH2 & IH3 & IH4)]; [done|].
  destruct ev; try done; simpl in *; unfold requests, served, cursor_writes in *;
    simpl; auto.
Qed.

Lemma mergeChanges_cases ini rootId start tok w :
  let '((next, err), w', tr) := mergeChanges ini rootId start tok w in
  let req := request_for ini start tok in
  (∃ e, err = Some e ∧ tr = [EvChangesList req (inr e)])
  ∨ (∃ cl e its, err = Some e ∧ tr = EvChangesList req (inl cl) :: its
       ∧ Forall item_event its ∧ Forall (remapped IdRootFolder rootId) its)
  ∨ (∃ cl its, err = None ∧ next = NextPageToken cl
       ∧ tr = EvChangesList req (inl cl) :: its
              ++ match page_cursor cl with
                 | Some v => [EvSaveLargestChangeId v]
                 | None => []
                 end
       ∧ Forall item_event its ∧ Forall (remapped IdRootFolder rootId) its).
Proof.
  unfold mergeChanges. fold (request_for ini start tok).
  unfold bind at 1. unfold ChangesList.
  destruct (changes_List (request_for ini start tok) w) as [[cl|e] w1].
  - unfold bind at 1.
    pose proof (mergeItems_spec rootId (Items cl) 0 w1) as Hs.
    destruct (mergeItems rootId (Items cl) 0 w1) as [[[l err] w2] t2].
    destruct Hs as (H1 & H2 & H3).
    destruct err as [e|].
    + run. right; left. exists cl, e, t2. rewrite app_nil_r. done.
    + specialize (H3 eq_refl). subst l.
      fold (last_id cl).
      destruct (0 <? last_id cl) eqn:E; run; right; right; exists cl, t2;
        unfold page_cursor; rewrite E, ?app_nil_r; done.
  - run. left. by exists e.
Qed.

Lemma requests_cons_list req r tr :
  requests (EvChangesList req r :: tr) = req :: requests tr.
Proof. reflexivity. Qed.

Lemma served_cons_page req cl tr :
  served (EvChangesList req (inl cl) :: tr) = cl :: served tr.
Proof. reflexivity. Qed.

Lemma cursor_writes_cons_list req r tr :
  cursor_writes (EvChangesList req r :: tr) = cursor_writes tr.
Proof. reflexivity. Qed.

Lemma fetch_failed_cons_page req cl tr :
  fetch_failed (EvChangesList req (inl cl) :: tr) = fetch_failed tr.
Proof. reflexivity. Qed.

Lemma cursor_event_silent (o : option Z) :
  let tr := match o with Some v => [EvSaveLargestChangeId v] | None => [] end in
  requests tr = [] ∧ served tr = [] ∧ cursor_writes tr = option_list o
  ∧ fetch_failed tr = false.
Proof. by destruct o. Qed.

Lemma pageLoop_trace fuel ini rootId start tok w :
  let '(r, w', tr) := pageLoop fuel ini rootId start tok w in
  loop_trace IdRootFolder ini rootId start tok r tr.
Proof.
  revert tok w. induction fuel as [|fuel IH]; intros tok w.
  - simpl. run. split; simpl; try done; try constructor.
  - simpl. unfold bind at 1.
    pose proof (mergeChanges_cases ini rootId start tok w) as Hc.
    destruct (mergeChanges ini rootId start tok w) as [[[next err] w1] t1].
    simpl in Hc.
    destruct Hc as [(e & -> & ->) | [(cl & e & its & -> & -> & Hi & Hr)
                                   | (cl & its & -> & -> & -> & Hi & Hr)]].
    + (* the fetch failed *)
      run. split; simpl; try done.
      * repeat constructor.
      * repeat constructor.
      * intros He. by destruct (He e).
    + (* a merge failed *)
      run. rewrite app_nil_r.
      destruct (item_events_silent its Hi) as (Q1 & Q2 & Q3 & Q4).
      split.
      * rewrite requests_cons_list, Q1. repeat constructor.
      * rewrite requests_cons_list. done.
      * constructor; [exact I | done].
      * intros e' _. unfold fully_merged.
        rewrite fetch_failed_cons_page, served_cons_page, cursor_writes_cons_list,
          requests_cons_list, Q2, Q3, Q4. done.
      * intros He. by destruct (He e).
    + (* the page was merged to its end *)
      destruct (item_events_silent its Hi) as (Q1 & Q2 & Q3 & Q4).
      pose proof (cursor_event_silent (page_cursor cl)) as (C1 & C2 & C3 & C4).
      simpl in C1, C2, C3, C4.
      set (ct := match page_cursor cl with
                 | Some v => [EvSaveLargestChangeId v]
                 | None => []
                 end) in *.
      assert (Hreq : ∀ t, requests ((EvChangesList (request_for ini start tok) (inl cl)
                                     :: its ++ ct) ++ t)
                          = request_for ini start tok :: requests t).
      { intros t. rewrite <- app_comm_cons, requests_cons_list.
        unfold requests in *. rewrite !omap_app, Q1, C1. done. }
      assert (Hsv : ∀ t, served ((EvChangesList (request_for ini start tok) (inl cl)
                                     :: its ++ ct) ++ t)
                          = cl :: served t).
      { intros t. rewrite <- app_comm_cons, served_cons_page.
        unfold served in *. rewrite !omap_app, Q2, C2. done. }
      assert (Hcw : ∀ t, cursor_writes ((EvChangesList (request_for ini start tok) (inl cl)
                                     :: its ++ ct) ++ t)
                          = option_list (page_cursor cl) ++ cursor_writes t).
      { intros t. rewrite <- app_comm_cons, cursor_writes_cons_list.
        unfold cursor_writes in *. rewrite !omap_app, Q3, C3. done. }
      assert (Hff : ∀ t, fetch_failed ((EvChangesList (request_for ini start tok) (inl cl)
                                     :: its ++ ct) ++ t)
                          = fetch_failed t).
      { intros t. rewrite <- app_comm_cons, fetch_failed_cons_page.
        unfold fetch_failed in *. rewrite !existsb_app, Q4, C4. done. }
      assert (Hrm : Forall (remapped IdRootFolder rootId)
                      (EvChangesList (request_for ini start tok) (inl cl) :: its ++ ct)).
      { constructor; [exact I|]. apply Forall_app. split; [done|].
        subst ct. destruct (page_cursor cl); repeat constructor. }
      assert (Hone : requests [] = [] ∧ served [] = [] ∧ cursor_writes [] = []
                     ∧ fetch_failed [] = false) by done.
      destruct (bool_decide (None ≠ None) || String.eqb (NextPageToken cl) EmptyString) eqn:Estop.
      * (* last page *)
        unfold ret. simpl. rewrite app_nil_r.
        specialize (Hreq []). specialize (Hsv []). specialize (Hcw []).
        specialize (Hff []). rewrite app_nil_r in Hreq, Hsv, Hcw, Hff.
        split.
        -- rewrite Hreq. repeat constructor.
        -- rewrite Hreq. done.
        -- exact Hrm.
        -- intros e' [=].
        -- intros _. rewrite Hcw, Hsv, Hff. simpl.
           destruct (page_cursor cl); simpl; done.
      * specialize (IH (NextPageToken cl) w1).
        destruct (pageLoop fuel ini rootId start (NextPageToken cl) w1)
          as [[r w2] t2].
        destruct IH as [L1 L2 L3 L4 L5].
        split.
        -- rewrite Hreq. constructor; [|done]. done.
        -- rewrite Hreq. done.
        -- apply Forall_app. done.
        -- intros e' ->. destruct (L4 e' eq_refl) as (L4a & L4b & L4c).
           rewrite Hcw, Hreq. split; [|split; [done|]].
           ++ unfold fully_merged in *. rewrite Hff, Hsv.
              destruct (fetch_failed t2) eqn:Ef.
              ** simpl. rewrite L4a. destruct (page_cursor cl); done.
              ** specialize (L4c eq_refl).
                 destruct (served t2) as [|p ps] eqn:Es; [done|].
                 change (removelast (cl :: p :: ps)) with (cl :: removelast (p :: ps)).
                 simpl omap. rewrite L4a. destruct (page_cursor cl); done.
           ++ intros _. rewrite Hsv. done.
        -- intros He. destruct (L5 He) as [L5a L5b].
           rewrite Hcw, Hsv, Hff, L5a. split; [|done].
           simpl. destruct (page_cursor cl); done.
Qed.

Lemma wrap64_small z : - 2 ^ 63 ≤ z < 2 ^ 63 → wrap64 z = z.
Proof. intros Hz. unfold wrap64. rewrite Z.mod_small; lia. Qed.

(** The shape of the trace of a pass: the cursor read, the root fetch, the
    save of the root record, then the page loop. *)
Lemma syncInbound_shape fuel isForce w :
  let '(r, w', tr) := syncInbound fuel isForce w in
  let cur := (meta_GetLargestChangeId w).1 in
  let resume := wrap64 (resume_point isForce cur) in
  (∃ e, r = Some (Some e)
        ∧ tr = [EvGetLargestChangeId cur; EvFilesGet IdRootFolder (inr e)])
  ∨ (∃ rootFile sv loop,
       tr = EvGetLargestChangeId cur :: EvFilesGet IdRootFolder (inl rootFile)
            :: sv :: loop
       ∧ root_save IdRootFolder rootFile sv
       ∧ match save_result sv with
         | Some e => r = Some (Some e) ∧ loop = []
         | None => loop_trace IdRootFolder (resume =? 0) (File_Id rootFile) resume EmptyString r loop
         end).
Proof.
  unfold syncInbound. unfold bind at 1. unfold GetLargestChangeId.
  destruct (meta_GetLargestChangeId w) as [cur w1]. simpl fst.
  set (largest := match cur with
                  | inl v => if isForce then 0 else wrap64 (v + 1)
                  | inr _ => 0
                  end).
  assert (Hl : largest = wrap64 (resume_point isForce cur)).
  { subst largest. unfold resume_point. destruct cur; [destruct isForce|]; done. }
  unfold bind at 1. unfold FilesGet.
  destruct (files_Get IdRootFolder w1) as [[rootFile|e] w2].
  - unfold bind at 1. unfold Now. unfold bind at 1. unfold metaSave.
    match goal with |- context [meta_Save ?p ?i ?d ?l ?f w2] =>
      destruct (meta_Save p i d l f w2) as [sr w3] eqn:E;
      set (data := d) in * end.
    destruct sr as [e|].
    + run. right. exists rootFile,
        (EvSave EmptyString IdRootFolder data false false (Some e)), [].
      simpl. done.
    + pose proof (pageLoop_trace fuel (largest =? 0) (File_Id rootFile) largest EmptyString w3)
        as Hloop.
      destruct (pageLoop fuel (largest =? 0) (File_Id rootFile) largest EmptyString w3)
        as [[r w4] loop].
      simpl. right.
      exists rootFile, (EvSave EmptyString IdRootFolder data false false None), loop.
      simpl. rewrite <- Hl. done.
  - run. left. by exists e.
Qed.

(** The last cursor written over pages of positive ids is the id of the
    last item served in them. *)
Lemma last_page_cursor pages :
  Forall (λ i, 0 < i) (ids pages) →
  last (omap page_cursor pages) = last (ids pages).
Proof.
  induction pages as [|p ps IH] using rev_ind; [done|].
  unfold ids. rewrite fmap_app, concat_app, omap_app. simpl. rewrite app_nil_r.
  intros [Hps Hp]%Forall_app.
  rewrite !last_app. unfold page_cursor, last_id.
  rewrite <- !fmap_last.
  destruct (last (Id <$> Items p)) as [i|] eqn:E; simpl.
  - assert (0 < i) as Hi.
    { apply last_Some in E as [l' E]. rewrite E in Hp.
      apply Forall_app in Hp as [_ Hp]. by inversion Hp. }
    apply Z.ltb_lt in Hi. rewrite Hi. done.
  - apply IH, Hps.
Qed.

Lemma sorted_around_last (l1 l2 : list Z) c :
  StronglySorted Z.lt (l1 ++ l2) → last l1 = Some c →
  Forall (λ i, i ≤ c) l1 ∧ Forall (λ i, c < i) l2.
Proof.
  intros Hs [l' ->]%last_Some. split.
  - apply StronglySorted_app_1_l in Hs.
    apply Forall_app. split; [|repeat constructor; lia].
    apply Forall_forall. intros x Hx.
    apply Z.lt_le_incl.
    eapply (StronglySorted_app_1_elem_of _ l' [c]); [done|done|]. set_solver.
  - apply Forall_forall. intros y Hy.
    eapply (StronglySorted_app_1_elem_of _ (l' ++ [c]) l2); [done| |done]. set_solver.
Qed.

(** On a page whose change ids do not decrease, the id of the last item is
    the maximum: there the cursor written is the largest change id. *)
Lemma last_id_max_of_sorted_page cl :
  StronglySorted Z.le (Id <$> Items cl) →
  0 < last_id cl →
  last_id cl = max_id (Items cl).
Proof.
  unfold last_id, max_id. rewrite <- fmap_last.
  generalize (Id <$> Items cl). clear cl. intros l Hs.
  induction Hs as [|a l Hs IH Ha]; simpl; [lia|].
  destruct l as [|b l]; simpl in *; [lia|]. intros Hpos.
  specialize (IH Hpos). rewrite <- IH.
  assert (a ≤ default 0 (last (b :: l))); [|lia].
  destruct (last (b :: l)) as [x|] eqn:E; [|by apply last_None in E].
  simpl. rewrite Forall_forall in Ha. apply Ha.
  apply last_Some in E as [l' ->]. set_solver.
Qed.

(** C9.  For a deleted or trashed change item the merge returns no error,
    whatever the delete of the metadata service returned: the delete is
    called once, its result appears in the trace and nowhere else. *)
Theorem mergeChange_drops_delete_error rootId item w :
  Deleted item || Trashed (Labels (Change_File item)) = true →
  mergeChange rootId item w
  = (None, (meta_Delete (FileId item) w).2,
     [EvDelete (FileId item) (meta_Delete (FileId item) w).1]).
Proof.
  intros Hdel. unfold mergeChange. rewrite Hdel. run.
  by destruct (meta_Delete (FileId item) w).
Qed.

(** C5.  For an item that is neither deleted nor trashed: with an empty
    download reference and a MIME type other than the folder type nothing
    is persisted (no call is made, the world is unchanged); with the folder
    MIME type the item is saved, leaf flag false, whatever its download
    reference. *)
Theorem mergeChange_skip_and_folder rootId item w :
  Deleted item = false →
  Trashed (Labels (Change_File item)) = false →
  (DownloadUrl (Change_File item) = EmptyString →
   MimeType (Change_File item) ≠ MimeTypeFolder →
   mergeChange rootId item w = (None, w, []))
  ∧ (MimeType (Change_File item) = MimeTypeFolder →
     ∃ parentId data,
       cdf_Id data = FileId item ∧ cdf_MimeType data = MimeTypeFolder
       ∧ mergeChange rootId item w
         = ((meta_Save parentId (FileId item) data false false w).1,
            (meta_Save parentId (FileId item) data false false w).2,
            [EvSave parentId (FileId item) data false false
                    (meta_Save parentId (FileId item) data false false w).1])).
Proof.
  intros Hd Ht. unfold mergeChange. rewrite Hd, Ht. simpl. split.
  - intros -> Hm. apply String.eqb_neq in Hm. rewrite Hm. done.
  - intros Hm. rewrite Hm, String.eqb_refl, andb_false_r. run.
    unfold IsFolder. simpl. rewrite String.eqb_refl. simpl.
    match goal with |- context [meta_Save ?p ?i ?d false false w] =>
      exists p, d end.
    simpl.
    match goal with |- context [meta_Save ?p ?i ?d false false w] =>
      by destruct (meta_Save p i d false false w) end.
Qed.

(** C6.  Every record the merge of a change item saves carries the item's
    file id and, as parent id, the first listed parent or else the empty
    string, with the root id of the remote account replaced by the
    sentinel; and in every pass the save of the root record under the
    sentinel id comes right after the root fetch, before anything of the
    page loop, which runs only if that save succeeded and then never saves
    the fetched root id as a parent (unless it is the sentinel itself). *)
Theorem root_remap_and_root_first :
  (∀ rootId item w parentId id data isLeaf flag r,
     EvSave parentId id data isLeaf flag r ∈ (mergeChange rootId item w).2 →
     id = FileId item
     ∧ parentId = resolved_parent IdRootFolder rootId item
     ∧ cdf_Id data = id ∧ cdf_ParentId data = parentId)
  ∧ (∀ fuel isForce w,
       let tr := (syncInbound fuel isForce w).2 in
       (∃ g e, tr = [g; EvFilesGet IdRootFolder (inr e)])
       ∨ (∃ g rootFile sv rest,
            tr = g :: EvFilesGet IdRootFolder (inl rootFile) :: sv :: rest
            ∧ root_save IdRootFolder rootFile sv
            ∧ (save_result sv ≠ None → rest = [])
            ∧ Forall (remapped IdRootFolder (File_Id rootFile)) rest)).
Proof.
  split.
  - intros rootId item w parentId id data isLeaf flag r Hin.
    pose proof (mergeChange_cases rootId item w) as Hc.
    destruct (mergeChange rootId item w) as [[r' w'] tr]. simpl in Hin.
    destruct Hc as [(_ & _ & ->) | [(_ & ->) | (d & l & -> & Hid & Hp)]].
    + by apply elem_of_nil in Hin.
    + apply list_elem_of_singleton in Hin. discriminate.
    + apply list_elem_of_singleton in Hin. injection Hin as -> -> -> -> -> ->.
      done.
  - intros fuel isForce w.
    pose proof (syncInbound_shape fuel isForce w) as Hs.
    destruct (syncInbound fuel isForce w) as [[r w'] tr]. simpl in *.
    destruct Hs as [(e & _ & ->) | (rootFile & sv & loop & -> & Hroot & Hres)].
    + left. by eexists _, _.
    + right. eexists _, rootFile, sv, loop. split; [done|]. split; [done|].
      destruct (save_result sv) as [e|].
      * destruct Hres as [_ ->]. split; [done|constructor].
      * split; [done|]. apply Hres.
Qed.

(** The change requests of a pass. *)
Lemma pass_requests fuel isForce w :
  let resume := wrap64 (resume_point isForce (meta_GetLargestChangeId w).1) in
  let reqs := requests (syncInbound fuel isForce w).2 in
  match head reqs with
  | Some req =>
      PageToken req = None
      ∧ StartChangeId req = (if 0 <? resume then Some resume else None)
  | None => True
  end
  ∧ Forall (λ req, IncludeDeleted req = (if resume =? 0 then Some false else None))
           reqs.
Proof.
  intros resume reqs.
  pose proof (syncInbound_shape fuel isForce w) as Hs.
  subst reqs. destruct (syncInbound fuel isForce w) as [[r w'] tr].
  simpl in *. fold resume in Hs.
  destruct Hs as [(e & _ & ->) | (rootFile & sv & loop & -> & Hroot & Hres)].
  - split; [done|constructor].
  - destruct sv; try done. simpl in Hres.
    change (requests (_ :: _ :: _ :: loop)) with (requests loop).
    destruct r0 as [e|].
    + destruct Hres as [_ ->]. split; [done|constructor].
    + destruct Hres as [L1 L2 _ _ _]. split.
      * destruct (head (requests loop)) as [req|]; [|done].
        subst req. done.
      * eapply Forall_impl; [exact L1|]. by intros req [Hd _].
Qed.

(** C7.  With the resume point of the document, taken in [int64] (zero on a
    forced pass or a failed cursor read, else the cursor plus one), the
    first change request of the pass carries no page token and starts at
    the resume point when it is positive, and every change request of the
    pass excludes deletions exactly when the resume point is zero. *)
Theorem cursor_resolution fuel isForce w :
  let cursor := (meta_GetLargestChangeId w).1 in
  let resume := wrap64 (resume_point isForce cursor) in
  let reqs := requests (syncInbound fuel isForce w).2 in
  (isForce = true ∨ (∃ e, cursor = inr e) → resume = 0)
  ∧ (∀ c, isForce = false → cursor = inl c →
       resume = wrap64 (c + 1) ∧ (- 2 ^ 63 ≤ c < 2 ^ 63 - 1 → resume = c + 1))
  ∧ match head reqs with
    | Some req =>
        PageToken req = None
        ∧ StartChangeId req = (if 0 <? resume then Some resume else None)
    | None => True
    end
  ∧ Forall (λ req, (IncludeDeleted req = Some false ↔ resume = 0)
                   ∧ (IncludeDeleted req = None ↔ resume ≠ 0)) reqs.
Proof.
  intros cursor resume reqs. split; [|split].
  - subst resume. unfold resume_point.
    intros [-> | [e ->]]; [by destruct cursor | done].
  - intros c -> Hc. subst resume. rewrite Hc. simpl. split; [done|].
    intros Hr. apply wrap64_small. lia.
  - pose proof (pass_requests fuel isForce w) as [Hfirst Hall].
    split; [exact Hfirst|].
    eapply Forall_impl; [exact Hall|]. intros req Hd. simpl in Hd.
    fold cursor resume in Hd. rewrite Hd.
    destruct (Z.eqb_spec resume 0); split; split; done.
Qed.

End Facts.
End SyncFacts.

(** ** Part VI: properties of the blob store *)

Module BlobFacts.
Import Blob.

(** *** Names and paths *)

#[local] Arguments append _ _ : simpl nomatch.

Lemma split_slash_no_slash s : no_slash s = true → split_slash s = [s].
Proof.
  induction s as [|c s IH]; [done|]. simpl.
  intros [Hc Hs]%andb_prop. apply negb_true_iff in Hc. rewrite Hc.
  by rewrite (IH Hs).
Qed.

Lemma path_Join_elem d n : is_elem n = true → path_Join d n = d ++ [n].
Proof.
  unfold is_elem, path_Join, clean_elem.
  intros [[[Hs H0]%andb_prop H1]%andb_prop H2]%andb_prop.
  apply negb_true_iff in H0, H1, H2.
  rewrite (split_slash_no_slash _ Hs). simpl. by rewrite H0, H1, H2.
Qed.

Lemma parent_snoc d n : parent (d ++ [n]) = d.
Proof. apply removelast_last. Qed.

Lemma base_snoc d n : base (d ++ [n]) = n.
Proof. unfold base. by rewrite last_snoc. Qed.

Lemma lookup_file_snoc d n fs : lookup_file (d ++ [n]) fs = entry fs d n.
Proof.
  unfold lookup_file, entry. rewrite parent_snoc, base_snoc.
  by destruct d.
Qed.

Lemma no_slash_app a b : no_slash (a +:+ b) = no_slash a && no_slash b.
Proof. induction a as [|c a IH]; [done|]. simpl. by rewrite IH, andb_assoc. Qed.

Lemma append_inj_l a b c : a +:+ b = a +:+ c → b = c.
Proof. induction a as [|x a IH]; [done|]. simpl. intros [=]. auto. Qed.

Lemma append_assoc a b c : a +:+ b +:+ c = (a +:+ b) +:+ c.
Proof. induction a as [|x a IH]; [done|]. simpl. by f_equal. Qed.

Lemma append_empty_r a : a +:+ EmptyString = a.
Proof. induction a as [|x a IH]; [done|]. simpl. by rewrite IH. Qed.

Lemma prefix_append a b : String.prefix a (a +:+ b) = true.
Proof.
  induction a as [|x a IH]; [by destruct b|]. simpl.
  destruct (ascii_dec x x); [done|congruence].
Qed.

Lemma Contains_unfold s sub :
  Contains s sub
  = String.prefix sub s
    || match s with
       | EmptyString => false
       | String _ s' => Contains s' sub
       end.
Proof. by destruct s. Qed.

Lemma Contains_prefix a b : Contains (a +:+ b) a = true.
Proof. by rewrite Contains_unfold, prefix_append. Qed.

Lemma getBlobName_inj id c c' : getBlobName id c = getBlobName id c' → c = c'.
Proof. unfold getBlobName. intros H%append_inj_l. by apply append_inj_l in H. Qed.

Lemma getBlobName_elem id c :
  no_slash id = true → no_slash c = true → is_elem (getBlobName id c) = true.
Proof.
  intros Hi Hc. unfold is_elem, getBlobName.
  rewrite !no_slash_app, Hi, Hc. simpl.
  destruct id as [|x [|y [|z id]]]; simpl; rewrite ?andb_false_r; try done.
  all: destruct (Ascii.eqb x "."); simpl; try done.
  all: destruct (Ascii.eqb y "."); simpl; done.
Qed.

Lemma stale_other id c c' : c' ≠ c → stale id c (getBlobName id c') = true.
Proof.
  intros Hne. unfold stale. apply andb_true_intro. split.
  - apply negb_true_iff, String.eqb_neq. intros H%getBlobName_inj. done.
  - unfold getBlobName. rewrite append_empty_r.
    rewrite append_assoc. apply Contains_prefix.
Qed.

Lemma stale_same id c : stale id c (getBlobName id c) = false.
Proof. unfold stale. by rewrite String.eqb_refl. Qed.

(** *** The file system *)

Lemma wf_fs_entry fs :
  wf_fs fs ↔ ∀ d n, is_Some (entry fs d n) → is_elem n = true.
Proof.
  unfold wf_fs, map_Forall, entry. split.
  - intros Hw d n [c Hc]. destruct (fs !! d) as [es|] eqn:E; [|done].
    simpl in Hc. by eapply Hw.
  - intros Hw d es Hd n c Hn. apply (Hw d n). rewrite Hd. simpl. by eexists.
Qed.

Lemma entry_dir fs d n : is_Some (entry fs d n) → is_Some (fs !! d).
Proof. unfold entry. destruct (fs !! d); [by eexists|by intros [? ?]]. Qed.

Lemma snoc_not_nil {A} (d : list A) n : d ++ [n] ≠ [].
Proof. by destruct d. Qed.

Lemma Remove_nonempty p fs :
  p ≠ [] →
  Remove p fs
  = match fs !! parent p with
    | Some es =>
        match es !! base p with
        | Some _ => (None, <[parent p := delete (base p) es]> fs)
        | None => (Some ErrNotExist, fs)
        end
    | None => (Some ErrNotExist, fs)
    end.
Proof. destruct p; [done|]. intros _. unfold Remove. by destruct (fs !! _). Qed.

Lemma Remove_snoc d n fs :
  (∀ d', is_Some ((Remove (d ++ [n]) fs).2 !! d') ↔ is_Some (fs !! d'))
  ∧ ∀ d' n', entry (Remove (d ++ [n]) fs).2 d' n'
             = if bool_decide (d' = d ∧ n' = n) then None else entry fs d' n'.
Proof.
  rewrite (Remove_nonempty _ _ (snoc_not_nil d n)), parent_snoc, base_snoc.
  destruct (fs !! d) as [es|] eqn:Ed; [destruct (es !! n) as [c|] eqn:En|];
    simpl; (split; [intros d'|intros d' n']).
  - destruct (decide (d' = d)) as [->|Hd].
    + rewrite lookup_insert_eq, Ed. split; by eexists.
    + by rewrite lookup_insert_ne.
  - unfold entry. case_bool_decide as Hdn.
    + destruct Hdn as [-> ->]. rewrite lookup_insert_eq. simpl.
      apply lookup_delete_eq.
    + destruct (decide (d' = d)) as [->|Hd].
      * rewrite lookup_insert_eq, Ed. simpl. apply lookup_delete_ne.
        intros ->. by apply Hdn.
      * by rewrite lookup_insert_ne.
  - done.
  - case_bool_decide as Hdn; [|done]. destruct Hdn as [-> ->].
    unfold entry. by rewrite Ed.
  - done.
  - case_bool_decide as Hdn; [|done]. destruct Hdn as [-> ->].
    unfold entry. by rewrite Ed.
Qed.

Lemma cleanup_loop id c dir names fs :
  Forall (λ n, is_elem n = true) names →
  let fs' := fold_left (λ fs name,
                          if stale id c name
                          then (Remove (path_Join dir name) fs).2 else fs)
                       names fs in
  (∀ d, is_Some (fs' !! d) ↔ is_Some (fs !! d))
  ∧ ∀ d n, entry fs' d n
           = if bool_decide (d = dir ∧ n ∈ names ∧ stale id c n = true)
             then None else entry fs d n.
Proof.
  intros Hel. revert fs. induction Hel as [|x names Hx _ IH]; intros fs; simpl.
  - split; [done|]. intros d n. case_bool_decide as Hc; [|done].
    destruct Hc as (_ & Hin & _). by apply elem_of_nil in Hin.
  - rewrite (path_Join_elem _ _ Hx).
    destruct (stale id c x) eqn:Est.
    + destruct (Remove_snoc dir x fs) as [Rd Re].
      destruct (IH (Remove (dir ++ [x]) fs).2) as [IHd IHe]. split.
      * intros d. by rewrite IHd, Rd.
      * intros d n. rewrite IHe, Re.
        destruct (decide (d = dir ∧ n ∈ names ∧ stale id c n = true))
          as [(-> & Hin & Hst)|Hno].
        -- rewrite !bool_decide_true; [done| |by repeat split].
           split; [done|]. split; [by right|done].
        -- rewrite (bool_decide_false _ Hno).
           destruct (decide (d = dir ∧ n = x)) as [[-> ->]|Hdx].
           ++ rewrite !bool_decide_true; [done| |by split].
              split; [done|]. split; [by left|done].
           ++ rewrite (bool_decide_false _ Hdx). rewrite bool_decide_false; [done|].
              intros (-> & [->|Hin]%elem_of_cons & Hst); [by apply Hdx|].
              by apply Hno.
    + destruct (IH fs) as [IHd IHe]. split; [done|].
      intros d n. rewrite IHe.
      rewrite (bool_decide_ext (d = dir ∧ n ∈ names ∧ stale id c n = true)
                               (d = dir ∧ n ∈ x :: names ∧ stale id c n = true));
        [done|].
      split; intros (-> & Hin & Hst); (split; [done|]); (split; [|done]).
      * by right.
      * apply elem_of_cons in Hin as [->|Hin]; [congruence|done].
Qed.

Lemma ReadDir_names d fs es :
  fs !! d = Some es →
  ReadDir d fs = inl (map_to_list es).*1
  ∧ ∀ n, n ∈ (map_to_list es).*1 ↔ is_Some (es !! n).
Proof.
  intros Hd. unfold ReadDir. rewrite Hd. split; [done|]. intros n.
  rewrite list_elem_of_fmap. split.
  - intros ([n' c] & -> & Hin). apply elem_of_map_to_list in Hin. by eexists.
  - intros [c Hc]. exists (n, c). split; [done|]. by apply elem_of_map_to_list.
Qed.

Lemma mkdir_spec fs q :
  (∀ d, is_Some (mkdir fs q !! d) ↔ d = q ∨ is_Some (fs !! d))
  ∧ ∀ d n, entry (mkdir fs q) d n = entry fs d n.
Proof.
  unfold mkdir. destruct (fs !! q) as [es|] eqn:Eq.
  - split; [|done]. intros d. split; [by right|].
    intros [->|Hd]; [by eexists|done].
  - split.
    + intros d. destruct (decide (d = q)) as [->|Hd].
      * rewrite lookup_insert_eq. split; [by left|by eexists].
      * rewrite lookup_insert_ne by done. split; [by right|by intros [?|?]].
    + intros d n. unfold entry. destruct (decide (d = q)) as [->|Hd].
      * by rewrite lookup_insert_eq, Eq.
      * by rewrite lookup_insert_ne.
Qed.

Lemma MkdirAll_spec dir fs :
  (MkdirAll dir fs).1 = None
  ∧ is_Some ((MkdirAll dir fs).2 !! dir)
  ∧ (∀ d, is_Some (fs !! d) → is_Some ((MkdirAll dir fs).2 !! d))
  ∧ ∀ d n, entry (MkdirAll dir fs).2 d n = entry fs d n.
Proof.
  unfold MkdirAll. simpl. split; [done|].
  assert (Hfold : ∀ qs fs0,
    (∀ d, is_Some (fold_left mkdir qs fs0 !! d) ↔ d ∈ qs ∨ is_Some (fs0 !! d))
    ∧ ∀ d n, entry (fold_left mkdir qs fs0) d n = entry fs0 d n).
  { induction qs as [|q qs IH]; intros fs0; simpl.
    - split; [|done]. intros d. split; [by right|].
      intros [Hin|?]; [by apply elem_of_nil in Hin|done].
    - destruct (IH (mkdir fs0 q)) as [IHd IHe].
      destruct (mkdir_spec fs0 q) as [Md Me]. split.
      + intros d. rewrite IHd, Md, elem_of_cons. tauto.
      + intros d n. by rewrite IHe, Me. }
  destruct (Hfold (prefixes dir) fs) as [Hd He].
  split; [|split; [|done]].
  - apply Hd. left. unfold prefixes. apply list_elem_of_fmap.
    exists (length dir). split; [by rewrite firstn_all|].
    apply elem_of_seq. lia.
  - intros d Hs. apply Hd. by right.
Qed.

Lemma OpenFile_snoc d n fs es :
  fs !! d = Some es →
  (OpenFile (d ++ [n]) fs).1 = inl {| f_path := d ++ [n]; f_off := 0 |}
  ∧ (∀ d', is_Some ((OpenFile (d ++ [n]) fs).2 !! d') ↔ is_Some (fs !! d'))
  ∧ ∀ d' n', is_Some (entry (OpenFile (d ++ [n]) fs).2 d' n')
             ↔ (d' = d ∧ n' = n) ∨ is_Some (entry fs d' n').
Proof.
  intros Hd. unfold OpenFile.
  destruct (d ++ [n]) as [|x p] eqn:E; [by destruct d|]. rewrite <- E.
  rewrite parent_snoc, base_snoc, Hd.
  destruct (es !! n) as [c|] eqn:En; simpl.
  - split; [done|]. split; [done|]. intros d' n'. split; [by right|].
    intros [[-> ->]|?]; [|done]. unfold entry. rewrite Hd. simpl. by eexists.
  - split; [done|]. split.
    + intros d'. destruct (decide (d' = d)) as [->|Hne].
      * rewrite lookup_insert_eq, Hd. split; by eexists.
      * by rewrite lookup_insert_ne.
    + intros d' n'. unfold entry. destruct (decide (d' = d)) as [->|Hne].
      * rewrite lookup_insert_eq, Hd. simpl.
        destruct (decide (n' = n)) as [->|Hn].
        -- rewrite lookup_insert_eq. split; [by left|by eexists].
        -- rewrite lookup_insert_ne by done. split; [by right|].
           by intros [[_ ?]|?].
      * rewrite lookup_insert_ne by done. split; [by right|].
        by intros [[? _]|?].
Qed.

Lemma file_Write_names f p fs :
  (∀ d, is_Some ((file_Write f p fs).2 !! d) ↔ is_Some (fs !! d))
  ∧ ∀ d n, is_Some (entry (file_Write f p fs).2 d n) ↔ is_Some (entry fs d n).
Proof.
  unfold file_Write. simpl. split.
  - intros d. rewrite lookup_alter. case_decide; [subst|done].
    by rewrite fmap_is_Some.
  - intros d n. unfold entry. rewrite lookup_alter. case_decide; [subst|done].
    destruct (fs !! parent (f_path f)) as [es|]; simpl; [|done].
    rewrite lookup_alter. case_decide; [subst|done].
    by rewrite fmap_is_Some.
Qed.

Lemma Writer_Write_names b p fs :
  (∀ d, is_Some ((Writer_Write b p fs).2 !! d) ↔ is_Some (fs !! d))
  ∧ ∀ d n, is_Some (entry (Writer_Write b p fs).2 d n) ↔ is_Some (entry fs d n).
Proof.
  unfold Writer_Write.
  destruct (Available b <? length p)%nat; [|done].
  destruct (length (buf b) =? 0)%nat.
  - destruct (file_Write (wr b) p fs) as [f fs1] eqn:E1.
    pose proof (file_Write_names (wr b) p fs) as H1. rewrite E1 in H1. done.
  - destruct (file_Write (wr b) _ fs) as [f fs1] eqn:E1.
    pose proof (file_Write_names (wr b) (buf b ++ take (Available b) p) fs) as [H1 H2].
    rewrite E1 in H1, H2. simpl in H1, H2.
    destruct (defaultBufSize <? _)%nat; [|done].
    destruct (file_Write f _ fs1) as [f2 fs2] eqn:E2.
    pose proof (file_Write_names f (drop (Available b) p) fs1) as [H3 H4].
    rewrite E2 in H3, H4. simpl in *. split.
    + intros d. by rewrite H3, H1.
    + intros d n. by rewrite H4, H2.
Qed.

Lemma copy_loop_names rc b fs :
  (∀ d, is_Some ((copy_loop rc b fs).2 !! d) ↔ is_Some (fs !! d))
  ∧ ∀ d n, is_Some (entry (copy_loop rc b fs).2 d n) ↔ is_Some (entry fs d n).
Proof.
  revert b fs. induction rc as [|p rc IH]; intros b fs; simpl; [done|].
  destruct (Writer_Write b p fs) as [b1 fs1] eqn:E.
  pose proof (Writer_Write_names b p fs) as [H1 H2]. rewrite E in H1, H2.
  destruct (IH b1 fs1) as [H3 H4]. simpl in *. split.
  - intros d. by rewrite H3, H1.
  - intros d n. by rewrite H4, H2.
Qed.

Section Manager.

Variable blobPath : list string.

Notation getBlobDir := (Blob.getBlobDir blobPath).
Notation getBlobPath := (Blob.getBlobPath blobPath).
Notation cleanup := (Blob.cleanup blobPath).
Notation Save := (Blob.Save blobPath).
Notation Read := (Blob.Read blobPath).
Notation Delete := (Blob.Delete blobPath).

Lemma cleanup_spec id c dir fs :
  wf_fs fs → getBlobDir id = Some dir →
  ∃ r fs', cleanup id c fs = Some (r, fs')
    ∧ (is_Some (fs !! dir) → r = None)
    ∧ (∀ d, is_Some (fs' !! d) ↔ is_Some (fs !! d))
    ∧ ∀ d n, entry fs' d n
             = if bool_decide (d = dir ∧ stale id c n = true)
               then None else entry fs d n.
Proof.
  intros Hwf Hdir. unfold cleanup. rewrite Hdir. simpl.
  destruct (fs !! dir) as [es|] eqn:Ed.
  - destruct (ReadDir_names dir fs es Ed) as [-> Hnames].
    eexists _, _. split; [done|]. split; [done|].
    assert (Hel : Forall (λ n, is_elem n = true) (map_to_list es).*1).
    { apply Forall_forall. intros n Hn%Hnames.
      apply (proj1 (wf_fs_entry fs) Hwf dir n). unfold entry. by rewrite Ed. }
    destruct (cleanup_loop id c dir _ fs Hel) as [Hd He]. split; [done|].
    intros d n. rewrite He.
    destruct (decide (d = dir ∧ stale id c n = true)) as [[-> Hst]|Hno].
    + rewrite (bool_decide_true (_ ∧ stale id c n = true)) by done.
      destruct (decide (n ∈ (map_to_list es).*1)) as [Hin|Hout].
      * by rewrite bool_decide_true.
      * rewrite bool_decide_false by (by intros (_ & ? & _)).
        unfold entry. rewrite Ed. simpl.
        destruct (es !! n) eqn:En; [|done]. exfalso. apply Hout, Hnames.
        by eexists.
    + rewrite (bool_decide_false _ Hno). rewrite bool_decide_false; [done|].
      intros (-> & _ & Hst). by apply Hno.
  - unfold ReadDir. rewrite Ed. eexists _, _. split; [done|].
    split; [by intros [? ?]|]. split; [done|]. intros d n.
    case_bool_decide as Hc; [|done]. destruct Hc as [-> _].
    unfold entry. by rewrite Ed.
Qed.

#[local] Arguments MkdirAll : simpl never.
#[local] Arguments OpenFile : simpl never.
#[local] Arguments copy_loop : simpl never.
#[local] Arguments path_Join : simpl never.

(** As long as the bytes read fit the buffer of the writer, the copy loop
    only fills that buffer: nothing reaches the file. *)
Lemma copy_loop_buffers rc b fs :
  (length (buf b) + length (concat rc) ≤ defaultBufSize)%nat →
  copy_loop rc b fs = ({| wr := wr b; buf := buf b ++ concat rc |}, fs).
Proof.
  revert b. induction rc as [|p rc IH]; intros b Hlen.
  - unfold copy_loop. simpl. rewrite app_nil_r. by destruct b.
  - simpl in Hlen. rewrite length_app in Hlen.
    change (copy_loop (p :: rc) b fs)
      with (let '(writer, fs) := Writer_Write b p fs in copy_loop rc writer fs).
    unfold Writer_Write, Available.
    destruct (Nat.ltb_spec (defaultBufSize - length (buf b)) (length p)); [lia|].
    rewrite IH; simpl; [by rewrite <- app_assoc|].
    rewrite length_app. lia.
Qed.

Lemma OpenFile_entry d n fs es :
  fs !! d = Some es →
  entry (OpenFile (d ++ [n]) fs).2 d n = Some (default [] (es !! n)).
Proof.
  intros Hd. unfold OpenFile.
  destruct (d ++ [n]) as [|x p] eqn:E; [by destruct d|]. rewrite <- E.
  rewrite parent_snoc, base_snoc, Hd.
  destruct (es !! n) as [c|] eqn:En; simpl; unfold entry.
  - by rewrite Hd; simpl; rewrite En.
  - by rewrite lookup_insert_eq; simpl; rewrite lookup_insert_eq.
Qed.

Lemma getBlobPath_elem id c dir :
  getBlobDir id = Some dir → no_slash id = true → no_slash c = true →
  getBlobPath id c = Some (dir ++ [getBlobName id c]).
Proof.
  intros Hd Hi Hc. unfold Blob.getBlobPath. rewrite Hd. simpl.
  by rewrite (path_Join_elem _ _ (getBlobName_elem id c Hi Hc)).
Qed.

Lemma Open_snoc d n fs :
  Open (d ++ [n]) fs
  = match entry fs d n with
    | Some _ => inl {| f_path := d ++ [n]; f_off := 0 |}
    | None => inr ErrNotExist
    end.
Proof.
  unfold Open. destruct (d ++ [n]) as [|x p] eqn:E; [by destruct d|].
  by rewrite <- E, lookup_file_snoc.
Qed.

(** A save whose reader delivers no more than the 4096 bytes of the write
    buffer succeeds and leaves the blob file with the content it had
    before (empty if it was created): the bytes stay in the buffer. *)
Lemma Save_small_content_unwritten id c rc fs dir :
  wf_fs fs → getBlobDir id = Some dir →
  no_slash id = true → no_slash c = true →
  (length (concat rc) ≤ defaultBufSize)%nat →
  ∃ fs', Save id c rc fs = Some (None, fs')
    ∧ entry fs' dir (getBlobName id c)
      = Some (default [] (entry fs dir (getBlobName id c))).
Proof.
  intros Hwf Hdir Hi Hc Hlen. unfold Blob.Save.
  destruct (cleanup_spec id c dir fs Hwf Hdir)
    as (r & fs1 & -> & _ & Cd & Ce).
  cbn -[MkdirAll OpenFile copy_loop]. rewrite Hdir.
  cbn -[MkdirAll OpenFile copy_loop].
  destruct (MkdirAll_spec dir fs1) as (Mr & Mdir & Md & Me).
  destruct (MkdirAll dir fs1) as [err fs2]. simpl in Mr, Mdir, Md, Me. subst err.
  rewrite (getBlobPath_elem id c dir Hdir Hi Hc).
  cbn -[MkdirAll OpenFile copy_loop].
  destruct Mdir as [es Hes].
  destruct (OpenFile_snoc dir (getBlobName id c) fs2 es Hes) as (Or & _ & _).
  pose proof (OpenFile_entry dir (getBlobName id c) fs2 es Hes) as Oe.
  destruct (OpenFile (dir ++ [getBlobName id c]) fs2) as [res fs3].
  simpl in Or, Oe. subst res.
  rewrite copy_loop_buffers by (simpl; lia).
  eexists. split; [done|]. rewrite Oe. f_equal. f_equal.
  specialize (Me dir (getBlobName id c)). rewrite Ce in Me.
  rewrite bool_decide_false in Me by (rewrite stale_same; by intros [_ ?]).
  rewrite <- Me. unfold entry. by rewrite Hes.
Qed.

End Manager.

End BlobFacts.

(** ** Part VII: the properties on concrete inputs *)

Module BlobRuns.
Import Blob Sim BlobFacts.

Lemma wf_store_one : wf_fs store_one.
Proof. refine (bool_decide_unpack _ _). vm_compute. exact I. Qed.

Lemma succeeded r : err_of r = Some None → r = Some (None, fs_of r).
Proof. by destruct r as [[[e|] fs]|]. Qed.

(** C2 on the code.  A save of the two bytes ["hi"] succeeds and leaves the
    blob file empty when it is new, and with its whole previous content
    when it existed: the bytes are still in the write buffer when [Save]
    returns. *)
Theorem save_leaves_buffered_bytes_unwritten :
  (err_of (Save blobPath "abc" "c1" [bytes "hi"] empty_store) = Some None
   ∧ lookup_file (shard_bc ++ ["abc==c1"])
       (fs_of (Save blobPath "abc" "c1" [bytes "hi"] empty_store))
     = Some [])
  ∧ (err_of (Save blobPath "abc" "c0" [bytes "hi"] store_one) = Some None
     ∧ lookup_file (shard_bc ++ ["abc==c0"])
         (fs_of (Save blobPath "abc" "c0" [bytes "hi"] store_one))
       = Some (bytes "old")).
Proof. repeat split; vm_compute; reflexivity. Qed.

(** C10.  There are distinct ids [a] and [b] of length at least 2, with the
    same last two characters and [a] a suffix of [b], such that a save for
    [a] succeeds and removes the blob stored for [b]: the name of that blob
    contains the name prefix of [a]. *)
Theorem save_removes_blob_of_other_id :
  ∃ a b c cb data fs fs',
    a ≠ b
    ∧ (2 ≤ String.length a)%nat ∧ (2 ≤ String.length b)%nat
    ∧ substring (String.length a - 2) 2 a = substring (String.length b - 2) 2 b
    ∧ (∃ pre, b = pre +:+ a)
    ∧ wf_fs fs
    ∧ Contains (getBlobName b cb) (getBlobName a EmptyString) = true
    ∧ (getBlobPath blobPath b cb ≫= λ p, lookup_file p fs) = Some (bytes "old")
    ∧ Save blobPath a c data fs = Some (None, fs')
    ∧ (getBlobPath blobPath b cb ≫= λ p, lookup_file p fs') = None
    ∧ Read blobPath b cb 0 3 fs' = Some ([], 0, Some ErrNotExist).
Proof.
  exists "bc", "abc", "c1", "c0", [bytes "new"], store_one,
    (fs_of (Save blobPath "bc" "c1" [bytes "new"] store_one)).
  split; [discriminate|]. split; [simpl; lia|]. split; [simpl; lia|].
  split; [vm_compute; reflexivity|]. split; [by exists "a"|].
  split; [exact wf_store_one|].
  split; [vm_compute; reflexivity|].
  split; [vm_compute; reflexivity|].
  split; [apply succeeded; vm_compute; reflexivity|].
  split; vm_compute; reflexivity.
Qed.

End BlobRuns.

Module SyncRuns.
Import Syncer Sim SyncFacts.

Lemma triple_eta {A B C} (x : A * B * C) : x = (x.1.1, x.1.2, x.2).
Proof. by destruct x as [[a b] c]. Qed.

(** A delete that fails in the metadata service: the merge returns no
    error. *)
Lemma mergeChange_drops_delete_error_witness :
  Deleted (tombstone 7 "A") || Trashed (Labels (Change_File (tombstone 7 "A")))
  = true
  ∧ (meta_Delete "A" world_delete_fails).1 = Some "delete failed"
  ∧ mergeChange IdRootFolder MimeTypeFolder "ROOT_REMOTE" (tombstone 7 "A")
      world_delete_fails
    = (None, (meta_Delete (FileId (tombstone 7 "A")) world_delete_fails).2,
       [EvDelete (FileId (tombstone 7 "A"))
          (meta_Delete (FileId (tombstone 7 "A")) world_delete_fails).1]).
Proof.
  split; [vm_compute; reflexivity|]. split; [vm_compute; reflexivity|].
  apply (mergeChange_drops_delete_error IdRootFolder MimeTypeFolder).
  vm_compute. reflexivity.
Defined.

(** A folder without download reference is saved, leaf flag false. *)
Lemma mergeChange_skip_and_folder_witness :
  Deleted (folder 1 "F" ["ROOT_REMOTE"]) = false
  ∧ Trashed (Labels (Change_File (folder 1 "F" ["ROOT_REMOTE"]))) = false
  ∧ DownloadUrl (Change_File (folder 1 "F" ["ROOT_REMOTE"])) = EmptyString
  ∧ MimeType (Change_File (folder 1 "F" ["ROOT_REMOTE"])) = MimeTypeFolder
  ∧ ∃ parentId data,
      cdf_Id data = FileId (folder 1 "F" ["ROOT_REMOTE"])
      ∧ cdf_MimeType data = MimeTypeFolder
      ∧ mergeChange IdRootFolder MimeTypeFolder "ROOT_REMOTE"
          (folder 1 "F" ["ROOT_REMOTE"]) world_cursor_5
        = ((meta_Save parentId (FileId (folder 1 "F" ["ROOT_REMOTE"])) data
              false false world_cursor_5).1,
           (meta_Save parentId (FileId (folder 1 "F" ["ROOT_REMOTE"])) data
              false false world_cursor_5).2,
           [EvSave parentId (FileId (folder 1 "F" ["ROOT_REMOTE"])) data false false
                   (meta_Save parentId (FileId (folder 1 "F" ["ROOT_REMOTE"])) data
                      false false world_cursor_5).1]).
Proof.
  assert (Hd : Deleted (folder 1 "F" ["ROOT_REMOTE"]) = false)
    by (vm_compute; reflexivity).
  assert (Ht : Trashed (Labels (Change_File (folder 1 "F" ["ROOT_REMOTE"]))) = false)
    by (vm_compute; reflexivity).
  assert (Hm : MimeType (Change_File (folder 1 "F" ["ROOT_REMOTE"])) = MimeTypeFolder)
    by (vm_compute; reflexivity).
  split; [exact Hd|]. split; [exact Ht|]. split; [vm_compute; reflexivity|].
  split; [exact Hm|].
  exact (proj2 (mergeChange_skip_and_folder IdRootFolder MimeTypeFolder "ROOT_REMOTE"
                  (folder 1 "F" ["ROOT_REMOTE"]) world_cursor_5 Hd Ht) Hm).
Defined.

(** The end-to-end scenario of the document: a forced pass over a feed of
    one change [{id: 5, fileId: "A", parents: ["ROOT_REMOTE"]}] saves the
    root record under the sentinel, then record ["A"] with the sentinel as
    parent, and leaves the cursor at 5. *)
Lemma root_remap_and_root_first_witness :
  EvSave "root" "A" (record_A 0) true false None
    ∈ (mergeChange IdRootFolder MimeTypeFolder "ROOT_REMOTE"
         (change 5 "A" ["ROOT_REMOTE"]) world_scenario).2
  ∧ "root" = resolved_parent IdRootFolder "ROOT_REMOTE"
               (change 5 "A" ["ROOT_REMOTE"])
  ∧ saved_ids run_scenario.2 = ["root"; "A"]
  ∧ cursor run_scenario.1.2 = inl 5
  ∧ cdf_ParentId <$> records run_scenario.1.2 !! "A" = Some "root".
Proof.
  assert (Hin : EvSave "root" "A" (record_A 0) true false None
                ∈ (mergeChange IdRootFolder MimeTypeFolder "ROOT_REMOTE"
                     (change 5 "A" ["ROOT_REMOTE"]) world_scenario).2).
  { vm_compute. left. }
  split; [exact Hin|].
  split; [exact (proj1 (proj2 (proj1 (root_remap_and_root_first IdRootFolder
            MimeTypeFolder) "ROOT_REMOTE" (change 5 "A" ["ROOT_REMOTE"])
            world_scenario _ _ _ _ _ _ Hin)))|].
  repeat split; vm_compute; reflexivity.
Defined.

(** A pass that is not forced and reads the cursor 5 asks for the changes
    from 6 on, deletions included; a forced pass asks for all changes,
    deletions excluded. *)
Lemma cursor_resolution_witness :
  requests (pass 3 false world_cursor_5).2
  = [{| IncludeSubscribed := Some false; PageToken := None;
        StartChangeId := Some 6; IncludeDeleted := None |}]
  ∧ requests (pass 3 true world_cursor_5).2
    = [{| IncludeSubscribed := Some false; PageToken := None;
          StartChangeId := None; IncludeDeleted := Some false |}]
  ∧ wrap64 (resume_point false (meta_GetLargestChangeId world_cursor_5).1) = 5 + 1.
Proof.
  split; [vm_compute; reflexivity|]. split; [vm_compute; reflexivity|].
  pose proof (cursor_resolution IdRootFolder MimeTypeFolder 3 false
                world_cursor_5) as (_ & Hres & _).
  apply (Hres 5); [reflexivity|vm_compute; reflexivity|lia].
Defined.

(** C3 on the code.  A page whose items carry the change ids 5 and 3, in
    that order, is merged without error and the cursor written is 3, the
    id of the last item, not the maximum 5. *)
Theorem cursor_is_last_id_not_maximum :
  run_unordered.1.1 = (EmptyString, None)
  ∧ (Items <$> served run_unordered.2) = [unordered_page]
  ∧ max_id unordered_page = 5
  ∧ cursor_writes run_unordered.2 = [3]
  ∧ cursor run_unordered.1.2 = inl 3.
Proof. repeat split; vm_compute; reflexivity. Qed.

End SyncRuns.

(** ** Part VIII: further properties of the blob store *)

Module BlobMore.
Import Blob BlobFacts.

#[local] Arguments MkdirAll : simpl never.
#[local] Arguments OpenFile : simpl never.
#[local] Arguments copy_loop : simpl never.
#[local] Arguments path_Join : simpl never.
#[local] Arguments append _ _ : simpl nomatch.
#[local] Arguments Nat.mul : simpl never.
#[local] Arguments Nat.div : simpl never.

(** Two stores with the same directories and the same entries are equal. *)
Lemma fs_ext (a b : gmap (list string) (gmap string (list byte))) :
  (∀ d, is_Some (a !! d) ↔ is_Some (b !! d)) →
  (∀ d n, entry a d n = entry b d n) →
  a = b.
Proof.
  intros Hd He. apply map_eq. intros d.
  specialize (Hd d). pose proof (He d) as Hn. unfold entry in Hn.
  destruct (a !! d) as [ea|], (b !! d) as [eb|]; simpl in *.
  - f_equal. apply map_eq, Hn.
  - destruct Hd as [Hd _]. by destruct Hd.
  - destruct Hd as [_ Hd]. by destruct Hd.
  - done.
Qed.

Lemma write_at_extend (F q old : list byte) :
  write_at (length F) q (write_at 0 F old) = write_at 0 (F ++ q) old.
Proof.
  unfold write_at. simpl. rewrite ?drop_0.
  rewrite take_app_length.
  replace (length F - length (F ++ drop (length F) old))%nat with 0%nat
    by (rewrite length_app; lia).
  simpl. rewrite drop_app_ge by lia.
  replace (length F + length q - length F)%nat with (length q) by lia.
  rewrite drop_drop, length_app, <- app_assoc. done.
Qed.

Lemma write_at_nil old : write_at 0 [] old = old.
Proof. unfold write_at. simpl. by rewrite drop_0. Qed.

Lemma entry_alter (g : list byte → list byte) (d0 : list string) (n0 : string)
    (fs : gmap (list string) (gmap string (list byte))) (d : list string)
    (n : string) :
  entry (alter (alter g n0) d0 fs) d n
  = if decide (d = d0 ∧ n = n0) then g <$> entry fs d n else entry fs d n.
Proof.
  unfold entry. rewrite lookup_alter.
  destruct (decide (d = d0 ∧ n = n0)) as [[-> ->]|Hdn].
  - rewrite decide_True by done.
    destruct (fs !! d0) as [es|]; simpl; [|done].
    rewrite lookup_alter. by rewrite decide_True.
  - destruct (decide (d0 = d)) as [<-|Hd]; [|done].
    destruct (fs !! d0) as [es|]; simpl; [|done].
    rewrite lookup_alter. rewrite decide_False; [done|].
    intros Hn. by apply Hdn.
Qed.

Lemma flushed_len_unique k B L :
  (L = defaultBufSize * k + B)%nat → (B ≤ defaultBufSize)%nat →
  (B = 0 → k = 0)%nat →
  (defaultBufSize * k)%nat = flushed_len L.
Proof.
  unfold flushed_len, defaultBufSize. intros -> HB H0.
  destruct B as [|B].
  - rewrite H0 by done. reflexivity.
  - f_equal. apply (Nat.div_unique _ _ _ B); lia.
Qed.

(** One write through the buffered writer: the file holds the bytes
    flushed so far over its old content, whole buffers only. *)
Lemma Writer_Write_content dir name b q fs F old :
  f_path (wr b) = dir ++ [name] →
  f_off (wr b) = length F →
  entry fs dir name = Some (write_at 0 F old) →
  (∃ k, length F = defaultBufSize * k)%nat →
  (length (buf b) ≤ defaultBufSize)%nat →
  (buf b = [] → F = []) →
  (length q ≤ defaultBufSize)%nat →
  ∃ F',
    f_path (wr (Writer_Write b q fs).1) = dir ++ [name]
    ∧ f_off (wr (Writer_Write b q fs).1) = length F'
    ∧ entry (Writer_Write b q fs).2 dir name = Some (write_at 0 F' old)
    ∧ (∃ k, length F' = defaultBufSize * k)%nat
    ∧ (length (buf (Writer_Write b q fs).1) ≤ defaultBufSize)%nat
    ∧ (buf (Writer_Write b q fs).1 = [] → F' = [])
    ∧ F' ++ buf (Writer_Write b q fs).1 = F ++ buf b ++ q
    ∧ ∀ d n, ¬ (d = dir ∧ n = name) →
             entry (Writer_Write b q fs).2 d n = entry fs d n.
Proof.
  intros Hp Ho He [k Hk] HB H0 Hq. unfold Writer_Write, Available.
  destruct (Nat.ltb_spec (defaultBufSize - length (buf b)) (length q)) as [Hlt|Hge].
  - destruct (Nat.eqb_spec (length (buf b)) 0) as [Hz|Hnz]; [lia|].
    set (n := (defaultBufSize - length (buf b))%nat) in *.
    assert (Hlen : (length (buf b) + length (take n q))%nat = defaultBufSize).
    { rewrite length_take. lia. }
    destruct (Nat.ltb_spec defaultBufSize (length (drop n q))) as [Hbig|Hsmall].
    { rewrite length_drop in Hbig. lia. }
    exists (F ++ buf b ++ take n q). unfold file_Write.
    cbn [fst snd wr buf f_path f_off].
    split; [done|]. split; [rewrite Ho, !length_app; lia|].
    split.
    { rewrite entry_alter, Hp, parent_snoc, base_snoc.
      rewrite decide_True by done. rewrite He. simpl.
      by rewrite Ho, write_at_extend. }
    split; [exists (S k); rewrite !length_app; lia|].
    split; [rewrite length_drop; lia|].
    split.
    { intros Hnil. apply (f_equal length) in Hnil. rewrite length_drop in Hnil.
      simpl in Hnil. lia. }
    split; [by rewrite <- !app_assoc, take_drop|].
    intros d m Hdm. rewrite entry_alter, Hp, parent_snoc, base_snoc.
    by rewrite decide_False.
  - exists F. cbn [fst snd wr buf f_path f_off]. split; [done|]. split; [done|]. split; [done|].
    split; [by exists k|]. split; [rewrite length_app; lia|].
    split; [intros [Hb _]%app_eq_nil; auto|]. done.
Qed.

Lemma copy_loop_content dir name rc b fs F old :
  f_path (wr b) = dir ++ [name] →
  f_off (wr b) = length F →
  entry fs dir name = Some (write_at 0 F old) →
  (∃ k, length F = defaultBufSize * k)%nat →
  (length (buf b) ≤ defaultBufSize)%nat →
  (buf b = [] → F = []) →
  Forall (λ q, (length q ≤ defaultBufSize)%nat) rc →
  ∃ F',
    entry (copy_loop rc b fs).2 dir name = Some (write_at 0 F' old)
    ∧ (∃ k, length F' = defaultBufSize * k)%nat
    ∧ (length (buf (copy_loop rc b fs).1) ≤ defaultBufSize)%nat
    ∧ (buf (copy_loop rc b fs).1 = [] → F' = [])
    ∧ F' ++ buf (copy_loop rc b fs).1 = F ++ buf b ++ concat rc
    ∧ ∀ d n, ¬ (d = dir ∧ n = name) →
             entry (copy_loop rc b fs).2 d n = entry fs d n.
Proof.
  intros Hp Ho He Hk HB H0 Hrc. revert b fs F Hp Ho He Hk HB H0.
  induction Hrc as [|q rc Hq _ IH]; intros b fs F Hp Ho He Hk HB H0.
  - exists F. unfold copy_loop. simpl. by rewrite app_nil_r.
  - change (copy_loop (q :: rc) b fs)
      with (let '(writer, fs) := Writer_Write b q fs in copy_loop rc writer fs).
    destruct (Writer_Write_content dir name b q fs F old Hp Ho He Hk HB H0 Hq)
      as (F1 & W1 & W2 & W3 & W4 & W5 & W6 & W7 & W8).
    destruct (Writer_Write b q fs) as [b1 fs1]. simpl in *.
    destruct (IH b1 fs1 F1 W1 W2 W3 W4 W5 W6) as (F2 & I1 & I2 & I3 & I4 & I5 & I6).
    exists F2. repeat (split; [done|]). split.
    + rewrite I5, app_assoc, W7, <- !app_assoc. done.
    + intros d n Hdn. by rewrite I6, W8.
Qed.

(** What the copy loop of [Save] leaves in a file opened at offset zero:
    the content read, cut at the last buffer boundary before its end, over
    the old content. *)
Lemma copy_loop_new_writer dir name rc fs old :
  entry fs dir name = Some old →
  Forall (λ q, (length q ≤ defaultBufSize)%nat) rc →
  entry (copy_loop rc (NewWriter {| f_path := dir ++ [name]; f_off := 0 |}) fs).2
        dir name
  = Some (write_at 0 (take (flushed_len (length (concat rc))) (concat rc)) old)
  ∧ ∀ d n, ¬ (d = dir ∧ n = name) →
           entry (copy_loop rc (NewWriter {| f_path := dir ++ [name]; f_off := 0 |})
                    fs).2 d n
           = entry fs d n.
Proof.
  intros He Hrc.
  set (b0 := NewWriter {| f_path := dir ++ [name]; f_off := 0 |}).
  assert (H1 : entry fs dir name = Some (write_at 0 [] old))
    by (by rewrite write_at_nil).
  assert (H2 : (∃ k, length (@nil byte) = defaultBufSize * k)%nat)
    by (by exists 0%nat).
  assert (H3 : (length (buf b0) ≤ defaultBufSize)%nat) by (simpl; lia).
  destruct (copy_loop_content dir name rc b0 fs [] old eq_refl eq_refl H1 H2 H3
              (λ _, eq_refl) Hrc)
    as (F & I1 & [k I2] & I3 & I4 & I5 & I6).
  split; [|done]. rewrite I1. do 2 f_equal. simpl in I5.
  rewrite <- I5. rewrite length_app.
  rewrite <- (flushed_len_unique k (length (buf (copy_loop rc b0 fs).1))).
  - by rewrite <- I2, take_app_length.
  - lia.
  - done.
  - intros Hz. apply length_zero_iff_nil in Hz. specialize (I4 Hz). subst F.
    simpl in I2. unfold defaultBufSize in I2. lia.
Qed.


Lemma elem_of_prefixes (d' d : list string) : d' ∈ prefixes d ↔ d' `prefix_of` d.
Proof.
  unfold prefixes. rewrite list_elem_of_fmap. split.
  - intros (k & -> & _). exists (drop k d). by rewrite take_drop.
  - intros [k ->]. exists (length d'). split; [by rewrite take_app_length|].
    apply elem_of_seq. rewrite length_app. lia.
Qed.

Lemma MkdirAll_dirs dir fs d :
  is_Some ((MkdirAll dir fs).2 !! d) ↔ d `prefix_of` dir ∨ is_Some (fs !! d).
Proof.
  unfold MkdirAll. cbn [snd]. rewrite <- elem_of_prefixes.
  generalize (prefixes dir). intros qs. revert fs.
  induction qs as [|q qs IH]; intros fs; simpl.
  - split; [by right|]. intros [Hin|?]; [by apply elem_of_nil in Hin|done].
  - rewrite IH. destruct (mkdir_spec fs q) as [Md _].
    rewrite Md, elem_of_cons. tauto.
Qed.

Lemma OpenFile_other d n fs d' n' :
  ¬ (d' = d ∧ n' = n) →
  entry (OpenFile (d ++ [n]) fs).2 d' n' = entry fs d' n'.
Proof.
  intros Hne. unfold OpenFile.
  destruct (d ++ [n]) as [|x p] eqn:E; [by destruct d|]. rewrite <- E.
  rewrite parent_snoc, base_snoc.
  destruct (fs !! d) as [es|] eqn:Hd; [|done].
  destruct (es !! n) as [c|] eqn:En; simpl; [done|].
  unfold entry. destruct (decide (d' = d)) as [->|Hd'].
  - rewrite lookup_insert_eq, Hd. simpl. rewrite lookup_insert_ne; [done|].
    intros ->. by apply Hne.
  - by rewrite lookup_insert_ne.
Qed.

Lemma Writer_Write_other b q fs :
  f_path (wr (Writer_Write b q fs).1) = f_path (wr b)
  ∧ ∀ d n, ¬ (d = parent (f_path (wr b)) ∧ n = base (f_path (wr b))) →
           entry (Writer_Write b q fs).2 d n = entry fs d n.
Proof.
  unfold Writer_Write, file_Write.
  destruct (Available b <? length q)%nat; [|done].
  destruct (length (buf b) =? 0)%nat; cbn [fst snd wr buf f_path f_off].
  - split; [done|]. intros d n Hne. rewrite entry_alter. by rewrite decide_False.
  - destruct (defaultBufSize <? _)%nat; cbn [fst snd wr buf f_path f_off].
    + split; [done|]. intros d n Hne. rewrite entry_alter.
      rewrite decide_False by done. rewrite entry_alter.
      by rewrite decide_False.
    + split; [done|]. intros d n Hne. rewrite entry_alter. by rewrite decide_False.
Qed.


Lemma substring_no_slash n m s : no_slash s = true → no_slash (substring n m s) = true.
Proof.
  revert n m. induction s as [|ch s IH]; intros n m Hs.
  - by destruct n, m.
  - simpl in Hs. apply andb_prop in Hs as [Hc Hs].
    destruct n as [|n]; simpl.
    + destruct m as [|m]; [done|]. simpl. by rewrite Hc, IH.
    + by apply IH.
Qed.

Lemma substring_length_exact n m s :
  (n + m ≤ String.length s)%nat → String.length (substring n m s) = m.
Proof.
  revert n m. induction s as [|ch s IH]; intros n m Hl.
  - destruct n, m; simpl in *; (done || lia).
  - destruct n as [|n].
    + destruct m as [|m]; [done|]. simpl. f_equal. apply IH. simpl in *. lia.
    + simpl. apply IH. simpl in *. lia.
Qed.

Lemma substring_tail_length s :
  (2 ≤ String.length s)%nat →
  String.length (substring (String.length s - 2) 2 s) = 2%nat.
Proof. intros Hl. apply substring_length_exact. lia. Qed.

Lemma substring_tail_append x a :
  (2 ≤ String.length a)%nat →
  substring (String.length (x +:+ a) - 2) 2 (x +:+ a)
  = substring (String.length a - 2) 2 a.
Proof.
  intros Hl. induction x as [|ch x IH]; [done|].
  assert (Hx : (2 ≤ String.length (x +:+ a))%nat).
  { clear IH. induction x as [|c x IHx]; simpl; [done|lia]. }
  change (String ch x +:+ a) with (String ch (x +:+ a)).
  change (String.length (String ch (x +:+ a))) with (S (String.length (x +:+ a))).
  replace (S (String.length (x +:+ a)) - 2)%nat
    with (S (String.length (x +:+ a) - 2)) by lia.
  exact IH.
Qed.

Lemma length_append x a :
  String.length (x +:+ a) = (String.length x + String.length a)%nat.
Proof. induction x as [|ch x IH]; [done|]. simpl. by rewrite IH. Qed.

Lemma Contains_append_l x s sub :
  Contains s sub = true → Contains (x +:+ s) sub = true.
Proof.
  intros Hs. induction x as [|ch x IH]; [done|].
  change (String ch x +:+ s) with (String ch (x +:+ s)).
  rewrite Contains_unfold, IH. apply orb_true_r.
Qed.

Lemma write_prefix_parts (F : nat) (data old : list byte) :
  (F ≤ length data)%nat →
  take F (write_at 0 (take F data) old) = take F data
  ∧ drop F (write_at 0 (take F data) old) = drop F old
  ∧ (length old ≤ length (write_at 0 (take F data) old))%nat.
Proof.
  intros HF.
  assert (Hlen : length (take F data) = F) by (rewrite length_take; lia).
  assert (Hw : write_at 0 (take F data) old = take F data ++ drop F old).
  { unfold write_at. rewrite take_0, Nat.sub_0_l, Hlen. done. }
  rewrite Hw. split; [by rewrite take_app_length'|].
  split; [by rewrite drop_app_length'|].
  rewrite length_app, length_drop. lia.
Qed.


Lemma flushed_len_le L : (flushed_len L ≤ L)%nat.
Proof.
  unfold flushed_len.
  pose proof (Nat.Div0.mul_div_le (L - 1) defaultBufSize). lia.
Qed.

Section Manager.

Variable blobPath : list string.

Notation getBlobDir := (Blob.getBlobDir blobPath).
Notation getBlobPath := (Blob.getBlobPath blobPath).
Notation cleanup := (Blob.cleanup blobPath).
Notation Save := (Blob.Save blobPath).
Notation Read := (Blob.Read blobPath).
Notation Delete := (Blob.Delete blobPath).

(** Everything a save does to the store, for a reader that delivers slices
    of at most the 4096 bytes asked for. *)
Lemma Save_exact id c rc fs dir :
  wf_fs fs → getBlobDir id = Some dir →
  no_slash id = true → no_slash c = true →
  Forall (λ q, (length q ≤ defaultBufSize)%nat) rc →
  ∃ fs', Save id c rc fs = Some (None, fs')
    ∧ entry fs' dir (getBlobName id c)
      = Some (write_at 0 (take (flushed_len (length (concat rc))) (concat rc))
                (default [] (entry fs dir (getBlobName id c))))
    ∧ (∀ d n, ¬ (d = dir ∧ n = getBlobName id c) →
         entry fs' d n
         = if bool_decide (d = dir ∧ stale id c n = true) then None
           else entry fs d n)
    ∧ ∀ d, is_Some (fs' !! d) ↔ d `prefix_of` dir ∨ is_Some (fs !! d).
Proof.
  intros Hwf Hdir Hi Hc Hrc. unfold Blob.Save.
  destruct (cleanup_spec blobPath id c dir fs Hwf Hdir)
    as (r & fs1 & -> & _ & Cd & Ce).
  cbn -[MkdirAll OpenFile copy_loop flushed_len defaultBufSize]. rewrite Hdir.
  cbn -[MkdirAll OpenFile copy_loop flushed_len defaultBufSize].
  destruct (MkdirAll_spec dir fs1) as (Mr & Mdir & _ & Me).
  pose proof (MkdirAll_dirs dir fs1) as Md.
  destruct (MkdirAll dir fs1) as [err fs2]. simpl in Mr, Mdir, Md, Me. subst err.
  rewrite (getBlobPath_elem blobPath id c dir Hdir Hi Hc).
  cbn -[MkdirAll OpenFile copy_loop flushed_len defaultBufSize].
  destruct Mdir as [es Hes].
  set (name := getBlobName id c) in *.
  destruct (OpenFile_snoc dir name fs2 es Hes) as (Or & Od & _).
  pose proof (OpenFile_entry dir name fs2 es Hes) as Oe.
  pose proof (OpenFile_other dir name fs2) as Oo.
  destruct (OpenFile (dir ++ [name]) fs2) as [res fs3].
  simpl in Or, Od, Oe, Oo. subst res.
  destruct (copy_loop_new_writer dir name rc fs3 _ Oe Hrc) as [Lc Lo].
  destruct (copy_loop_names rc (NewWriter {| f_path := dir ++ [name]; f_off := 0 |}) fs3)
    as [Ld _].
  destruct (copy_loop rc _ fs3) as [b fs4]. simpl in Lc, Lo, Ld.
  exists fs4. split; [done|]. split; [|split].
  - rewrite Lc. do 2 f_equal.
    specialize (Me dir name). rewrite Ce in Me.
    rewrite bool_decide_false in Me
      by (subst name; rewrite stale_same; by intros [_ ?]).
    rewrite <- Me. unfold entry. by rewrite Hes.
  - intros d n Hne. by rewrite Lo, Oo, Me, Ce.
  - intros d. by rewrite Ld, Od, Md, Cd.
Qed.







(** A save never truncates: over an existing blob file it replaces the
    bytes up to the last buffer boundary of the content read and keeps
    every byte of the old content past that point, so the file never gets
    shorter. *)
Theorem save_keeps_old_tail id c rc fs dir old :
  wf_fs fs → getBlobDir id = Some dir →
  no_slash id = true → no_slash c = true →
  Forall (λ q, (length q ≤ defaultBufSize)%nat) rc →
  entry fs dir (getBlobName id c) = Some old →
  ∃ fs' cnt, Save id c rc fs = Some (None, fs')
    ∧ entry fs' dir (getBlobName id c) = Some cnt
    ∧ take (flushed_len (length (concat rc))) cnt
      = take (flushed_len (length (concat rc))) (concat rc)
    ∧ drop (flushed_len (length (concat rc))) cnt
      = drop (flushed_len (length (concat rc))) old
    ∧ (length old ≤ length cnt)%nat.
Proof.
  intros Hwf Hdir Hi Hc Hrc Hold.
  destruct (Save_exact id c rc fs dir Hwf Hdir Hi Hc Hrc) as (fs' & Hs & He & _).
  rewrite Hold in He. cbn [default] in He.
  destruct (write_prefix_parts (flushed_len (length (concat rc))) (concat rc) old
              (flushed_len_le _)) as (P1 & P2 & P3).
  by eexists fs', _.
Qed.

(** Where a blob lives: in the directory named by the last two bytes of
    the id under the blob path, in the file named id, ["=="], checksum.  An
    id that ends in two dots puts the blob into the parent of the blob
    path. *)
Theorem blob_path_layout id c :
  (2 ≤ String.length id)%nat → no_slash id = true → no_slash c = true →
  getBlobPath id c
  = Some ((if String.eqb (substring (String.length id - 2) 2 id) ".."
           then removelast blobPath
           else blobPath ++ [substring (String.length id - 2) 2 id])
          ++ [id +:+ "==" +:+ c]).
Proof.
  intros Hl Hi Hc.
  assert (Hdir : getBlobDir id
                 = Some (if String.eqb (substring (String.length id - 2) 2 id) ".."
                         then removelast blobPath
                         else blobPath ++ [substring (String.length id - 2) 2 id])).
  { unfold Blob.getBlobDir. destruct (Nat.ltb_spec (String.length id) 2); [lia|].
    f_equal. pose proof (substring_tail_length id Hl) as Hlen.
    pose proof (substring_no_slash (String.length id - 2) 2 id Hi) as Hns.
    set (shard := substring (String.length id - 2) 2 id) in *.
    unfold path_Join. rewrite (split_slash_no_slash _ Hns). simpl.
    unfold clean_elem.
    destruct shard as [|x [|y [|z t]]]; try discriminate. simpl.
    destruct (Ascii.eqb x "."); simpl; [|done].
    by destruct (Ascii.eqb y "."). }
  by rewrite (getBlobPath_elem blobPath id c _ Hdir Hi Hc).
Qed.

End Manager.

End BlobMore.

(** ** Part IX: further properties of the inbound synchronisation *)

Module SyncMore.
Import Syncer SyncFacts.

Section Facts.
Context {W : Type} `{Collaborators W}.
Variable IdRootFolder MimeTypeFolder : string.

Notation mergeChange := (Syncer.mergeChange IdRootFolder MimeTypeFolder).
Notation mergeItems := (Syncer.mergeItems IdRootFolder MimeTypeFolder).
Notation mergeChanges := (Syncer.mergeChanges IdRootFolder MimeTypeFolder).
Notation pageLoop := (Syncer.pageLoop IdRootFolder MimeTypeFolder).
Notation syncInbound := (Syncer.syncInbound IdRootFolder MimeTypeFolder).

#[local] Arguments requests : simpl never.
#[local] Arguments served : simpl never.
#[local] Arguments cursor_writes : simpl never.
#[local] Arguments fetch_failed : simpl never.

Ltac run := unfold bind, ret, metaSave, metaDelete, Now, GetLargestChangeId,
  SaveLargestChangeId, FilesGet, ChangesList in *; simpl in *.

Lemma fail_fast_app t1 r t2 :
  Forall (λ ev, failure ev = None) t1 → fail_fast r t2 → fail_fast r (t1 ++ t2).
Proof.
  intros H1. destruct r as [e|]; simpl.
  - intros (tr' & ev & -> & Hev & Hall). exists (t1 ++ tr'), ev.
    split; [by rewrite app_assoc|]. split; [done|]. by apply Forall_app.
  - intros H2. by apply Forall_app.
Qed.

Lemma mergeChange_fail_fast rootId item w :
  let '(r, w', tr) := mergeChange rootId item w in fail_fast r tr.
Proof.
  pose proof (mergeChange_cases IdRootFolder MimeTypeFolder rootId item w) as Hc.
  destruct (mergeChange rootId item w) as [[r w'] tr].
  destruct Hc as [(-> & _ & ->) | [(-> & ->) | (data & leaf & -> & _)]].
  - constructor.
  - by repeat constructor.
  - destruct r as [e|]; simpl.
    + by exists [], (EvSave (resolved_parent IdRootFolder rootId item) (FileId item)
                       data leaf false (Some e)).
    + by repeat constructor.
Qed.

Lemma mergeItems_fail_fast rootId items l0 w :
  let '((l, err), w', tr) := mergeItems rootId items l0 w in fail_fast err tr.
Proof.
  revert l0 w. induction items as [|item rest IH]; intros l0 w.
  - simpl. constructor.
  - simpl. unfold bind at 1.
    pose proof (mergeChange_fail_fast rootId item w) as Hm.
    destruct (mergeChange rootId item w) as [[r w1] t1].
    destruct r as [e|].
    + run. by rewrite app_nil_r.
    + specialize (IH (Id item) w1).
      destruct (mergeItems rootId rest (Id item) w1) as [[[l err] w2] t2].
      simpl in *. by apply fail_fast_app.
Qed.

Lemma mergeChanges_fail_fast ini rootId start tok w :
  let '((next, err), w', tr) := mergeChanges ini rootId start tok w in
  fail_fast err tr.
Proof.
  unfold mergeChanges. fold (request_for ini start tok).
  unfold bind at 1. unfold ChangesList.
  destruct (changes_List (request_for ini start tok) w) as [[cl|e] w1].
  - unfold bind at 1.
    pose proof (mergeItems_fail_fast rootId (Items cl) 0 w1) as Hs.
    destruct (mergeItems rootId (Items cl) 0 w1) as [[[l err] w2] t2].
    destruct err as [e|].
    + run. rewrite app_nil_r.
      apply (fail_fast_app [_] (Some e)); [by repeat constructor|done].
    + destruct (0 <? l); run; constructor; try done;
        (apply Forall_app; split; [done|by repeat constructor]).
  - run. by exists [], (EvChangesList (request_for ini start tok) (inr e)).
Qed.

Lemma pageLoop_fail_fast fuel ini rootId start tok w :
  let '(r, w', tr) := pageLoop fuel ini rootId start tok w in
  match r with
  | Some r => fail_fast r tr
  | None => Forall (λ ev, failure ev = None) tr
  end.
Proof.
  revert tok w. induction fuel as [|fuel IH]; intros tok w.
  - simpl. constructor.
  - simpl. unfold bind at 1.
    pose proof (mergeChanges_fail_fast ini rootId start tok w) as Hc.
    destruct (mergeChanges ini rootId start tok w) as [[[next err] w1] t1].
    destruct (bool_decide (err ≠ None) || String.eqb next EmptyString) eqn:Estop.
    + unfold ret. simpl. by rewrite app_nil_r.
    + apply orb_false_iff in Estop as [Herr _].
      apply bool_decide_eq_false in Herr.
      assert (err = None) as -> by (by destruct err; [destruct Herr|]).
      specialize (IH next w1).
      destruct (pageLoop fuel ini rootId start next w1) as [[r w2] t2].
      simpl in *. destruct r as [r|].
      * by apply fail_fast_app.
      * by apply Forall_app.
Qed.

(** A pass stops at the first save, root fetch or page fetch that fails and
    returns the error of that call: the failing call is the last of the
    trace.  A pass that returns no error made no such failing call. *)
Theorem pass_stops_at_first_failure fuel isForce w :
  match (syncInbound fuel isForce w).1.1 with
  | Some (Some e) =>
      ∃ tr' ev, (syncInbound fuel isForce w).2 = tr' ++ [ev]
                ∧ failure ev = Some e
                ∧ Forall (λ ev, failure ev = None) tr'
  | _ => Forall (λ ev, failure ev = None) (syncInbound fuel isForce w).2
  end.
Proof.
  assert (Hlet : let '(r, w', tr) := syncInbound fuel isForce w in
                 match r with
                 | Some (Some e) =>
                     ∃ tr' ev, tr = tr' ++ [ev] ∧ failure ev = Some e
                               ∧ Forall (λ ev, failure ev = None) tr'
                 | _ => Forall (λ ev, failure ev = None) tr
                 end);
    [|by destruct (syncInbound fuel isForce w) as [[r w'] tr]].
  unfold syncInbound. unfold bind at 1. unfold GetLargestChangeId.
  destruct (meta_GetLargestChangeId w) as [cur w1].
  set (largest := match cur with
                  | inl v => if isForce then 0 else wrap64 (v + 1)
                  | inr _ => 0
                  end).
  unfold bind at 1. unfold FilesGet.
  destruct (files_Get IdRootFolder w1) as [[rootFile|e] w2].
  - unfold bind at 1. unfold Now. unfold bind at 1. unfold metaSave.
    match goal with |- context [meta_Save ?p ?i ?d ?l ?f w2] =>
      destruct (meta_Save p i d l f w2) as [sr w3] eqn:E;
      set (data := d) in * end.
    destruct sr as [e|].
    + run. exists [EvGetLargestChangeId cur; EvFilesGet IdRootFolder (inl rootFile)],
        (EvSave EmptyString IdRootFolder data false false (Some e)).
      by repeat constructor.
    + pose proof (pageLoop_fail_fast fuel (largest =? 0) (File_Id rootFile) largest
                    EmptyString w3) as Hloop.
      destruct (pageLoop fuel (largest =? 0) (File_Id rootFile) largest EmptyString w3)
        as [[r w4] loop].
      simpl in *.
      assert (H3 : Forall (λ ev, failure ev = None)
                     [EvGetLargestChangeId cur; EvFilesGet IdRootFolder (inl rootFile);
                      EvSave EmptyString IdRootFolder data false false None])
        by (by repeat constructor).
      destruct r as [[e|]|].
      * apply (fail_fast_app [_; _; _] (Some e)); done.
      * apply (fail_fast_app [_; _; _] None); done.
      * apply (Forall_app _ [_; _; _]); done.
  - run. exists [EvGetLargestChangeId cur], (EvFilesGet IdRootFolder (inr e)).
    by repeat constructor.
Qed.

Lemma page_trace_functions req cl its t :
  Forall item_event its →
  let tr1 := EvChangesList req (inl cl) :: its
             ++ match page_cursor cl with
                | Some v => [EvSaveLargestChangeId v]
                | None => []
                end in
  requests (tr1 ++ t) = req :: requests t
  ∧ served (tr1 ++ t) = cl :: served t
  ∧ cursor_writes (tr1 ++ t) = option_list (page_cursor cl) ++ cursor_writes t
  ∧ fetch_failed (tr1 ++ t) = fetch_failed t.
Proof.
  intros Hi. destruct (item_events_silent its Hi) as (Q1 & Q2 & Q3 & Q4).
  pose proof (cursor_event_silent (page_cursor cl)) as (C1 & C2 & C3 & C4).
  simpl in C1, C2, C3, C4. simpl.
  set (ct := match page_cursor cl with
             | Some v => [EvSaveLargestChangeId v]
             | None => []
             end) in *.
  rewrite requests_cons_list, served_cons_page, cursor_writes_cons_list,
    fetch_failed_cons_page.
  unfold requests, served, cursor_writes, fetch_failed in *.
  rewrite !omap_app, !existsb_app, Q1, Q2, Q3, Q4, C1, C2, C3, C4. done.
Qed.

Lemma page_cursor_sublist cl :
  option_list (page_cursor cl) `sublist_of` (Id <$> Items cl).
Proof.
  unfold page_cursor, last_id. destruct (Z.ltb_spec 0 (default 0 (Id <$> last (Items cl))))
    as [Hpos|_]; [|apply sublist_nil_l].
  destruct (last (Items cl)) as [x|] eqn:El; simpl in *; [|lia].
  apply last_Some in El as [l' ->]. rewrite fmap_app. simpl.
  by apply sublist_inserts_l.
Qed.

Lemma pageLoop_pages fuel ini rootId start tok w :
  let '(r, w', tr) := pageLoop fuel ini rootId start tok w in
  (∀ i req, requests tr !! i = Some req →
     req = request_for ini start
             (match i with
              | O => tok
              | S j => default EmptyString (NextPageToken <$> served tr !! j)
              end))
  ∧ (∀ j, (S j < length (requests tr))%nat →
       ∃ cl, served tr !! j = Some cl ∧ NextPageToken cl ≠ EmptyString)
  ∧ (r = Some None →
       fetch_failed tr = false
       ∧ length (served tr) = length (requests tr)
       ∧ (∃ cl, last (served tr) = Some cl ∧ NextPageToken cl = EmptyString)
       ∧ Forall (λ cl, NextPageToken cl ≠ EmptyString) (removelast (served tr))
       ∧ cursor_writes tr = omap page_cursor (served tr))
  ∧ cursor_writes tr `sublist_of` ids (served tr).
Proof.
  revert tok w. induction fuel as [|fuel IH]; intros tok w.
  - simpl. run. split; [done|]. split; [intros j Hj; simpl in Hj; lia|].
    split; [done|]. constructor.
  - simpl. unfold bind at 1.
    pose proof (mergeChanges_cases IdRootFolder MimeTypeFolder ini rootId start tok w) as Hc.
    destruct (mergeChanges ini rootId start tok w) as [[[next err] w1] t1].
    simpl in Hc.
    destruct Hc as [(e & -> & ->) | [(cl & e & its & -> & -> & Hi & Hr)
                                   | (cl & its & -> & -> & -> & Hi & Hr)]].
    + run. rewrite requests_cons_list.
      split; [by intros [|i] req [= <-]|].
      split; [intros j Hj; simpl in Hj; lia|]. split; [done|]. constructor.
    + run. rewrite app_nil_r.
      destruct (item_events_silent its Hi) as (Q1 & Q2 & Q3 & Q4).
      rewrite requests_cons_list, served_cons_page, cursor_writes_cons_list, Q1, Q2, Q3.
      split; [by intros [|i] req [= <-]|].
      split; [intros j Hj; simpl in Hj; lia|]. split; [done|]. apply sublist_nil_l.
    + destruct (bool_decide (None ≠ None) || String.eqb (NextPageToken cl) EmptyString)
        eqn:Estop.
      * unfold ret.
        destruct (page_trace_functions (request_for ini start tok) cl its [] Hi)
          as (F1 & F2 & F3 & F4).
        cbn zeta in F1, F2, F3, F4. rewrite !app_nil_r in F1, F2, F3, F4.
        cbn [fst snd]. rewrite !app_nil_r. rewrite F1, F2, F3, F4.
        split; [by intros [|i] req [= <-]|].
        split; [intros j Hj; simpl in Hj; lia|].
        split.
        { intros _. split; [done|]. split; [done|]. split.
          - exists cl. split; [done|].
            apply orb_true_iff in Estop as [Hb|He].
            + apply bool_decide_eq_true in Hb. by destruct Hb.
            + by apply String.eqb_eq.
          - split; [constructor|]. unfold ids. simpl. by rewrite !app_nil_r. }
        unfold ids. simpl. rewrite !app_nil_r. apply page_cursor_sublist.
      * apply orb_false_iff in Estop as [_ Htok].
        apply String.eqb_neq in Htok.
        specialize (IH (NextPageToken cl) w1).
        destruct (pageLoop fuel ini rootId start (NextPageToken cl) w1)
          as [[r w2] t2].
        destruct IH as (I1 & I2 & I3 & I4).
        destruct (page_trace_functions (request_for ini start tok) cl its t2 Hi)
          as (F1 & F2 & F3 & F4).
        cbn zeta in F1, F2, F3, F4. rewrite F1, F2, F3, F4.
        split; [|split; [|split]].
        -- intros [|[|i]] req Hreq.
           ++ by injection Hreq as <-.
           ++ simpl in *. apply (I1 0%nat req Hreq).
           ++ simpl in *. apply (I1 (S i) req Hreq).
        -- intros [|j] Hj.
           ++ by exists cl.
           ++ simpl in *. apply I2. lia.
        -- intros Hr'. destruct (I3 Hr') as (J1 & J2 & (cl' & J3 & J4) & J5 & J6).
           split; [done|]. split; [simpl; by rewrite J2|]. split.
           ++ exists cl'. split; [|done].
              destruct (served t2) as [|p ps]; [done|]. done.
           ++ split.
              ** destruct (served t2) as [|p ps]; [done|].
                 change (removelast (cl :: p :: ps)) with (cl :: removelast (p :: ps)).
                 by constructor.
              ** rewrite J6. simpl. by destruct (page_cursor cl).
        -- unfold ids. simpl. apply sublist_app; [apply page_cursor_sublist|done].
Qed.

Lemma syncInbound_loop fuel isForce w :
  let '(r, w', tr) := syncInbound fuel isForce w in
  (requests tr = [] ∧ served tr = [] ∧ cursor_writes tr = []
   ∧ ∃ e, r = Some (Some e))
  ∨ (∃ ini rootId start w3,
       let '(r2, w2, loop) := pageLoop fuel ini rootId start EmptyString w3 in
       r = r2 ∧ requests tr = requests loop ∧ served tr = served loop
       ∧ cursor_writes tr = cursor_writes loop
       ∧ fetch_failed tr = fetch_failed loop).
Proof.
  unfold syncInbound. unfold bind at 1. unfold GetLargestChangeId.
  destruct (meta_GetLargestChangeId w) as [cur w1].
  set (largest := match cur with
                  | inl v => if isForce then 0 else wrap64 (v + 1)
                  | inr _ => 0
                  end).
  unfold bind at 1. unfold FilesGet.
  destruct (files_Get IdRootFolder w1) as [[rootFile|e] w2].
  - unfold bind at 1. unfold Now. unfold bind at 1. unfold metaSave.
    match goal with |- context [meta_Save ?p ?i ?d ?l ?f w2] =>
      destruct (meta_Save p i d l f w2) as [sr w3] eqn:E;
      set (data := d) in * end.
    destruct sr as [e|].
    + run. left. repeat (split; [done|]). by exists e.
    + destruct (pageLoop fuel (largest =? 0) (File_Id rootFile) largest EmptyString w3)
        as [[r w4] loop] eqn:Ep.
      simpl. right. exists (largest =? 0), (File_Id rootFile), largest, w3.
      by rewrite Ep.
  - run. left. repeat (split; [done|]). by exists e.
Qed.

Lemma sublist_Forall_keeps {A} (P : A → Prop) (l1 l2 : list A) :
  l1 `sublist_of` l2 → Forall P l2 → Forall P l1.
Proof.
  induction 1 as [|x l1 l2 _ IH|x l1 l2 _ IH]; [done| |].
  - intros [Hx Hl]%Forall_cons. constructor; auto.
  - intros [_ Hl]%Forall_cons. auto.
Qed.

Lemma StronglySorted_sublist_keeps {A} (R : relation A) (l1 l2 : list A) :
  l1 `sublist_of` l2 → StronglySorted R l2 → StronglySorted R l1.
Proof.
  induction 1 as [|x l1 l2 Hs IH|x l1 l2 _ IH]; [done| |].
  - intros [Hl Hx]%StronglySorted_inv. constructor; [auto|].
    by apply (sublist_Forall_keeps _ l1 l2).
  - intros [Hl _]%StronglySorted_inv. auto.
Qed.

(** Pagination.  Every change request of a pass after the first carries the
    next-page token of the page served just before it, which is not empty,
    and no start change id.  No request carries both a page token and a
    start change id, an empty page token or a start change id that is not
    positive, and none includes subscribed items. *)
Theorem page_tokens_chain fuel isForce w :
  (∀ i req, requests (syncInbound fuel isForce w).2 !! S i = Some req →
     ∃ cl, served (syncInbound fuel isForce w).2 !! i = Some cl
           ∧ NextPageToken cl ≠ EmptyString
           ∧ PageToken req = Some (NextPageToken cl)
           ∧ StartChangeId req = None)
  ∧ Forall (λ req, IncludeSubscribed req = Some false
                   ∧ (PageToken req = None ∨ StartChangeId req = None)
                   ∧ PageToken req ≠ Some EmptyString
                   ∧ ∀ s, StartChangeId req = Some s → 0 < s)
           (requests (syncInbound fuel isForce w).2).
Proof.
  pose proof (syncInbound_loop fuel isForce w) as Hs.
  destruct (syncInbound fuel isForce w) as [[r w'] tr]. simpl.
  destruct Hs as [(-> & _ & _ & _) | (ini & rootId & start & w3 & Hs)].
  { split; [done|constructor]. }
  pose proof (pageLoop_pages fuel ini rootId start EmptyString w3) as Hp.
  destruct (pageLoop fuel ini rootId start EmptyString w3) as [[r2 w2] loop].
  destruct Hs as (_ & -> & -> & _ & _). destruct Hp as (A & B & _ & _).
  split.
  - intros i req Hreq.
    destruct (B i) as (cl & Hcl & Htok).
    { by apply lookup_lt_Some in Hreq. }
    exists cl. split; [done|]. split; [done|].
    rewrite (A (S i) req Hreq), Hcl. simpl.
    apply String.eqb_neq in Htok. by rewrite Htok.
  - apply Forall_lookup. intros i req Hreq. rewrite (A i req Hreq).
    unfold request_for. simpl.
    destruct (String.eqb_spec
                match i with
                | 0%nat => EmptyString
                | S j => default EmptyString (NextPageToken <$> served loop !! j)
                end EmptyString) as [He|Hne]; simpl.
    + split; [done|]. split; [by left|]. split; [done|].
      destruct (Z.ltb_spec 0 start); [by intros s [= <-]|done].
    + split; [done|]. split; [by right|]. split; [|done]. by intros [= ?].
Qed.

(** A pass that returns without error fetched the change feed to its end:
    no fetch failed, every request was served, the last page served has no
    next-page token while every page before it has one, and after each page
    whose last item has a positive change id that id was written as the
    cursor. *)
Theorem successful_pass_reads_feed_to_end fuel isForce w w' tr :
  syncInbound fuel isForce w = (Some None, w', tr) →
  fetch_failed tr = false
  ∧ length (served tr) = length (requests tr)
  ∧ (∃ cl, last (served tr) = Some cl ∧ NextPageToken cl = EmptyString)
  ∧ Forall (λ cl, NextPageToken cl ≠ EmptyString) (removelast (served tr))
  ∧ cursor_writes tr = omap page_cursor (served tr).
Proof.
  intros Hrun. pose proof (syncInbound_loop fuel isForce w) as Hs.
  rewrite Hrun in Hs.
  destruct Hs as [(_ & _ & _ & e & [=]) | (ini & rootId & start & w3 & Hs)].
  pose proof (pageLoop_pages fuel ini rootId start EmptyString w3) as Hp.
  destruct (pageLoop fuel ini rootId start EmptyString w3) as [[r2 w2] loop].
  destruct Hs as (<- & -> & -> & -> & ->). destruct Hp as (_ & _ & C & _).
  by apply C.
Qed.

(** Every cursor value a pass writes is the change id of an item served in
    that pass, and the values are written in the order of the items: when
    the change ids served in the pass are strictly increasing, so are the
    values it writes.  (This orders the writes of one pass among
    themselves, not against the cursor the pass found.) *)
Theorem cursor_writes_follow_feed fuel isForce w :
  cursor_writes (syncInbound fuel isForce w).2
    `sublist_of` ids (served (syncInbound fuel isForce w).2)
  ∧ (StronglySorted Z.lt (ids (served (syncInbound fuel isForce w).2)) →
     StronglySorted Z.lt (cursor_writes (syncInbound fuel isForce w).2)).
Proof.
  assert (Hsub : cursor_writes (syncInbound fuel isForce w).2
                   `sublist_of` ids (served (syncInbound fuel isForce w).2)).
  { pose proof (syncInbound_loop fuel isForce w) as Hs.
    destruct (syncInbound fuel isForce w) as [[r w'] tr]. simpl.
    destruct Hs as [(_ & _ & -> & _) | (ini & rootId & start & w3 & Hs)];
      [apply sublist_nil_l|].
    pose proof (pageLoop_pages fuel ini rootId start EmptyString w3) as Hp.
    destruct (pageLoop fuel ini rootId start EmptyString w3) as [[r2 w2] loop].
    destruct Hs as (_ & _ & -> & -> & _). by destruct Hp as (_ & _ & _ & D). }
  split; [exact Hsub|]. by apply StronglySorted_sublist_keeps.
Qed.

Lemma mergeItems_merged_ids rootId items l0 w :
  let '((l, err), w', tr) := mergeItems rootId items l0 w in
  merged_ids tr `sublist_of` (FileId <$> items).
Proof.
  revert l0 w. induction items as [|item rest IH]; intros l0 w.
  - simpl. constructor.
  - simpl. unfold bind at 1.
    pose proof (mergeChange_cases IdRootFolder MimeTypeFolder rootId item w) as Hc.
    destruct (mergeChange rootId item w) as [[r w1] t1].
    assert (H1 : merged_ids t1 `sublist_of` [FileId item]).
    { destruct Hc as [(_ & _ & ->) | [(_ & ->) | (data & leaf & -> & _)]];
        [apply sublist_nil_l|done|done]. }
    destruct r as [e|].
    + run. rewrite app_nil_r.
      apply (sublist_inserts_r (FileId <$> rest)) in H1. exact H1.
    + specialize (IH (Id item) w1).
      destruct (mergeItems rootId rest (Id item) w1) as [[[l err] w2] t2].
      unfold merged_ids. rewrite omap_app.
      by apply (sublist_app _ [FileId item]).
Qed.

Lemma mergeChanges_merged_ids ini rootId start tok w :
  let '((next, err), w', tr) := mergeChanges ini rootId start tok w in
  merged_ids tr `sublist_of` (FileId <$> concat (Items <$> served tr)).
Proof.
  unfold mergeChanges. fold (request_for ini start tok).
  unfold bind at 1. unfold ChangesList.
  destruct (changes_List (request_for ini start tok) w) as [[cl|e] w1].
  - unfold bind at 1.
    pose proof (mergeItems_merged_ids rootId (Items cl) 0 w1) as Hs.
    pose proof (mergeItems_spec IdRootFolder MimeTypeFolder rootId (Items cl) 0 w1) as Hi.
    destruct (mergeItems rootId (Items cl) 0 w1) as [[[l err] w2] t2].
    destruct Hi as (Hi & _ & _).
    destruct (item_events_silent t2 Hi) as (_ & Q2 & _ & _).
    assert (Hcur : ∀ ct, (ct = [] ∨ ∃ v, ct = [EvSaveLargestChangeId v]) →
              merged_ids ((EvChangesList (request_for ini start tok) (inl cl) :: t2) ++ ct)
                `sublist_of`
              (FileId <$> concat
                 (Items <$> served ((EvChangesList (request_for ini start tok) (inl cl)
                                     :: t2) ++ ct)))).
    { intros ct Hct. rewrite <- app_comm_cons, served_cons_page.
      change (merged_ids (EvChangesList (request_for ini start tok) (inl cl) :: t2 ++ ct))
        with (merged_ids (t2 ++ ct)).
      unfold served, merged_ids in *. rewrite !omap_app, Q2.
      assert (omap (λ ev, match ev with
                          | EvChangesList _ (inl cl) => Some cl
                          | _ => None
                          end) ct = [] ∧
              omap (λ ev, match ev with
                          | EvSave _ id _ _ _ _ => Some id
                          | EvDelete id _ => Some id
                          | _ => None
                          end) ct = []) as [-> ->].
      { by destruct Hct as [->|[v ->]]. }
      simpl. by rewrite !app_nil_r. }
    destruct err as [e|].
    + run. apply Hcur. by left.
    + destruct (0 <? l); run.
      * apply Hcur. right. by eexists.
      * apply Hcur. by left.
  - run. apply sublist_nil_l.
Qed.

Lemma pageLoop_merged_ids fuel ini rootId start tok w :
  let '(r, w', tr) := pageLoop fuel ini rootId start tok w in
  merged_ids tr `sublist_of` (FileId <$> concat (Items <$> served tr)).
Proof.
  revert tok w. induction fuel as [|fuel IH]; intros tok w.
  - simpl. constructor.
  - simpl. unfold bind at 1.
    pose proof (mergeChanges_merged_ids ini rootId start tok w) as Hc.
    destruct (mergeChanges ini rootId start tok w) as [[[next err] w1] t1].
    destruct (bool_decide (err ≠ None) || String.eqb next EmptyString).
    + unfold ret. by rewrite app_nil_r.
    + specialize (IH next w1).
      destruct (pageLoop fuel ini rootId start next w1) as [[r w2] t2].
      unfold merged_ids, served in *.
      rewrite !omap_app, fmap_app, concat_app, fmap_app.
      by apply sublist_app.
Qed.

(** The records a pass saves or deletes are, after the root record, those
    of change items the pass was served, in the order of the feed and each
    at most as often as it was served. *)
Theorem pass_merges_in_feed_order fuel isForce w :
  merged_ids (syncInbound fuel isForce w).2
    `sublist_of`
  IdRootFolder
    :: (FileId <$> concat (Items <$> served (syncInbound fuel isForce w).2)).
Proof.
  assert (Hlet : let '(r, w', tr) := syncInbound fuel isForce w in
                 merged_ids tr `sublist_of`
                 IdRootFolder :: (FileId <$> concat (Items <$> served tr)));
    [|by destruct (syncInbound fuel isForce w) as [[r w'] tr]].
  unfold syncInbound. unfold bind at 1. unfold GetLargestChangeId.
  destruct (meta_GetLargestChangeId w) as [cur w1].
  set (largest := match cur with
                  | inl v => if isForce then 0 else wrap64 (v + 1)
                  | inr _ => 0
                  end).
  unfold bind at 1. unfold FilesGet.
  destruct (files_Get IdRootFolder w1) as [[rootFile|e] w2].
  - unfold bind at 1. unfold Now. unfold bind at 1. unfold metaSave.
    match goal with |- context [meta_Save ?p ?i ?d ?l ?f w2] =>
      destruct (meta_Save p i d l f w2) as [sr w3] eqn:E;
      set (data := d) in * end.
    destruct sr as [e|].
    + run. apply sublist_skip, sublist_nil_l.
    + pose proof (pageLoop_merged_ids fuel (largest =? 0) (File_Id rootFile) largest
                    EmptyString w3) as Hloop.
      destruct (pageLoop fuel (largest =? 0) (File_Id rootFile) largest EmptyString w3)
        as [[r w4] loop].
      simpl. by apply sublist_skip.
  - run. apply sublist_nil_l.
Qed.

End Facts.
End SyncMore.

(** ** Part X: the further properties on concrete inputs *)

Module BlobMoreRuns.
Import Blob Sim BlobFacts BlobRuns BlobMore.


Lemma buffer_and_tail_slices :
  Forall (λ q : list byte, (length q ≤ defaultBufSize)%nat) buffer_and_tail.
Proof. refine (bool_decide_unpack _ _). vm_compute. exact I. Qed.





(** The 4100 bytes saved over the blob holding ["old"]. *)
Lemma save_keeps_old_tail_witness :
  entry store_one shard_bc (getBlobName "abc" "c0") = Some (bytes "old")
  ∧ ∃ fs' cnt,
      Save blobPath "abc" "c0" buffer_and_tail store_one = Some (None, fs')
      ∧ entry fs' shard_bc (getBlobName "abc" "c0") = Some cnt
      ∧ take (flushed_len (length (concat buffer_and_tail))) cnt
        = take (flushed_len (length (concat buffer_and_tail))) (concat buffer_and_tail)
      ∧ drop (flushed_len (length (concat buffer_and_tail))) cnt
        = drop (flushed_len (length (concat buffer_and_tail))) (bytes "old")
      ∧ (length (bytes "old") ≤ length cnt)%nat.
Proof.
  assert (He : entry store_one shard_bc (getBlobName "abc" "c0") = Some (bytes "old"))
    by (vm_compute; reflexivity).
  split; [exact He|].
  apply (save_keeps_old_tail blobPath "abc" "c0" buffer_and_tail store_one shard_bc
           (bytes "old") wf_store_one).
  - vm_compute. reflexivity.
  - vm_compute. reflexivity.
  - vm_compute. reflexivity.
  - exact buffer_and_tail_slices.
  - exact He.
Defined.

(** The blob of ["abc"] under the blob path [/var/blobs]. *)
Lemma blob_path_layout_witness :
  getBlobPath blobPath "abc" "c0"
  = Some ((if String.eqb (substring (String.length "abc" - 2) 2 "abc") ".."
           then removelast blobPath
           else blobPath ++ [substring (String.length "abc" - 2) 2 "abc"])
          ++ ["abc" +:+ "==" +:+ "c0"]).
Proof.
  apply (blob_path_layout blobPath "abc" "c0").
  - simpl. lia.
  - vm_compute. reflexivity.
  - vm_compute. reflexivity.
Defined.

End BlobMoreRuns.

Module SyncMoreRuns.
Import Syncer Sim SyncFacts SyncRuns SyncMore.

(** The pass over four changes in pages of two. *)
Lemma successful_pass_reads_feed_to_end_witness :
  run_four.1.1 = Some None
  ∧ length (requests run_four.2) = 2%nat
  ∧ cursor_writes run_four.2 = [2; 4]
  ∧ fetch_failed run_four.2 = false
  ∧ length (served run_four.2) = length (requests run_four.2)
  ∧ (∃ cl, last (served run_four.2) = Some cl ∧ NextPageToken cl = EmptyString)
  ∧ Forall (λ cl, NextPageToken cl ≠ EmptyString) (removelast (served run_four.2))
  ∧ cursor_writes run_four.2 = omap page_cursor (served run_four.2).
Proof.
  assert (Hres : run_four.1.1 = Some None) by (vm_compute; reflexivity).
  assert (Hrun : syncInbound IdRootFolder MimeTypeFolder 5 false world_four
                 = (Some None, run_four.1.2, run_four.2)).
  { rewrite <- Hres. apply triple_eta. }
  split; [exact Hres|]. split; [vm_compute; reflexivity|].
  split; [vm_compute; reflexivity|].
  exact (successful_pass_reads_feed_to_end IdRootFolder MimeTypeFolder 5 false
           world_four _ _ Hrun).
Defined.

End SyncMoreRuns.

(** ** Part XI: the blob store on a file system that fails, properties *)

Module BlobOSFacts.
Import Blob BlobFacts BlobMore BlobOS.

#[local] Arguments append _ _ : simpl nomatch.
#[local] Arguments path_Join : simpl never.
#[local] Arguments prefixes : simpl never.

(** *** The file system *)

Lemma lookup_file_entry p fs :
  p ≠ [] → lookup_file p fs = entry fs (parent p) (base p).
Proof. by destruct p. Qed.

Lemma is_file_snoc fs d n :
  is_file fs (d ++ [n]) = bool_decide (is_Some (entry fs d n)).
Proof. unfold is_file. by rewrite lookup_file_snoc. Qed.

Lemma is_file_ext fs fs' p :
  (∀ d n, entry fs' d n = entry fs d n) → is_file fs' p = is_file fs p.
Proof.
  intros He. unfold is_file. destruct p as [|x p]; [done|].
  by rewrite !lookup_file_entry, He.
Qed.

Lemma snoc_parent_base (p : list string) : p ≠ [] → p = parent p ++ [base p].
Proof.
  intros Hp. destruct (exists_last Hp) as (q & x & ->).
  by rewrite parent_snoc, base_snoc.
Qed.

Lemma entry_alter_delete (d0 : list string) (n0 : string)
    (fs : gmap (list string) (gmap string (list byte))) (d : list string)
    (n : string) :
  entry (alter (delete n0) d0 fs) d n
  = if decide (d = d0 ∧ n = n0) then None else entry fs d n.
Proof.
  unfold entry. rewrite lookup_alter.
  destruct (decide (d = d0 ∧ n = n0)) as [[-> ->]|Hdn].
  - rewrite decide_True by done.
    destruct (fs !! d0) as [es|]; simpl; [|done]. apply lookup_delete_eq.
  - destruct (decide (d0 = d)) as [<-|Hd]; [|done].
    destruct (fs !! d0) as [es|]; simpl; [|done].
    apply lookup_delete_ne. intros ->. by apply Hdn.
Qed.

Lemma subdirs_nil fs d : no_subdirs fs d → subdirs fs d = [].
Proof.
  intros Hno. unfold subdirs.
  assert (Hall : Forall (λ p, is_Some (fs !! p)) (map_to_list fs).*1).
  { apply Forall_forall. intros p Hp. apply list_elem_of_fmap in Hp as ([p' es] & -> & Hin).
    apply elem_of_map_to_list in Hin. by eexists. }
  induction Hall as [|p ps Hp _ IH]; [done|]. simpl.
  case_bool_decide as Hc; [|exact IH].
  destruct Hc as [Hne Hpar]. exfalso.
  rewrite (snoc_parent_base p Hne), Hpar, Hno in Hp. by destruct Hp.
Qed.

Lemma Remove_snoc_os env d n fs :
  no_subdirs fs d →
  (∀ d', is_Some ((Remove env (d ++ [n]) fs).2 !! d') ↔ is_Some (fs !! d'))
  ∧ ∀ d' n', entry (Remove env (d ++ [n]) fs).2 d' n'
             = if bool_decide (d' = d ∧ n' = n ∧ denied env OpRemove (d ++ [n]) = false)
               then None else entry fs d' n'.
Proof.
  intros Hno. unfold Remove.
  rewrite (bool_decide_false _ (snoc_not_nil d n)).
  rewrite is_file_snoc, parent_snoc, base_snoc.
  case_bool_decide as Hf.
  - destruct (denied env OpRemove (d ++ [n])) eqn:Hok; simpl.
    + split; [done|]. intros d' n'. rewrite bool_decide_false; [done|].
      by intros (_ & _ & ?).
    + split.
      * intros d'. rewrite lookup_alter. case_decide; [subst|done].
        by rewrite fmap_is_Some.
      * intros d' n'. rewrite entry_alter_delete.
        destruct (decide (d' = d ∧ n' = n)) as [[-> ->]|Hne].
        -- by rewrite bool_decide_true.
        -- rewrite bool_decide_false; [done|]. intros (? & ? & _). by apply Hne.
  - rewrite Hno. simpl. split; [done|]. intros d' n'.
    case_bool_decide as Hc; [|done]. destruct Hc as (-> & -> & _).
    by apply eq_None_not_Some.
Qed.

Lemma cleanup_loop_os env id c dir names fs :
  Forall (λ n, is_elem n = true) names →
  no_subdirs fs dir →
  let fs' := fold_left (λ fs name,
                          if stale id c name
                          then (Remove env (path_Join dir name) fs).2 else fs)
                       names fs in
  (∀ d, is_Some (fs' !! d) ↔ is_Some (fs !! d))
  ∧ ∀ d n, entry fs' d n
           = if bool_decide (d = dir ∧ n ∈ names ∧ stale id c n = true
                             ∧ denied env OpRemove (dir ++ [n]) = false)
             then None else entry fs d n.
Proof.
  intros Hel. revert fs. induction Hel as [|x names Hx _ IH]; intros fs Hno; simpl.
  - split; [done|]. intros d n. case_bool_decide as Hc; [|done].
    destruct Hc as (_ & Hin & _). by apply elem_of_nil in Hin.
  - rewrite (path_Join_elem _ _ Hx).
    destruct (stale id c x) eqn:Est.
    + destruct (Remove_snoc_os env dir x fs Hno) as [Rd Re].
      assert (Hno' : no_subdirs (Remove env (dir ++ [x]) fs).2 dir).
      { intros n. apply eq_None_not_Some. rewrite Rd, Hno. by intros [? ?]. }
      destruct (IH (Remove env (dir ++ [x]) fs).2 Hno') as [IHd IHe]. split.
      * intros d. by rewrite IHd, Rd.
      * intros d n. rewrite IHe, Re.
        destruct (decide (d = dir ∧ n ∈ names ∧ stale id c n = true
                          ∧ denied env OpRemove (dir ++ [n]) = false))
          as [(-> & Hin & Hst & Hok)|Hnot].
        -- rewrite !bool_decide_true; [done| |by repeat split].
           split; [done|]. split; [by right|done].
        -- rewrite (bool_decide_false _ Hnot).
           destruct (decide (d = dir ∧ n = x ∧ denied env OpRemove (dir ++ [x]) = false))
             as [(-> & -> & Hok)|Hdx].
           ++ rewrite !bool_decide_true; [done| |by repeat split].
              split; [done|]. split; [by left|done].
           ++ rewrite (bool_decide_false _ Hdx). rewrite bool_decide_false; [done|].
              intros (-> & [->|Hin]%elem_of_cons & Hst & Hok); [by apply Hdx|].
              by apply Hnot.
    + destruct (IH fs Hno) as [IHd IHe]. split; [done|].
      intros d n. rewrite IHe.
      apply (f_equal (λ b : bool, if b then None else entry fs d n)).
      apply bool_decide_ext.
      split; intros (-> & Hin & Hst & Hok); (split; [done|]); (split; [|done]).
      * by right.
      * apply elem_of_cons in Hin as [->|Hin]; [congruence|done].
Qed.

Lemma ReadDir_os_names env d fs es :
  fs !! d = Some es → no_subdirs fs d → denied env OpReadDir d = false →
  ReadDir env d fs = inl (map_to_list es).*1.
Proof.
  intros Hd Hno Hok. unfold ReadDir.
  by rewrite Hd, Hok, (subdirs_nil fs d Hno), app_nil_r.
Qed.

Lemma mkdirs_frame env qs fs :
  (∀ d, is_Some ((mkdirs env qs fs).2 !! d) → d ∈ qs ∨ is_Some (fs !! d))
  ∧ (∀ d, is_Some (fs !! d) → is_Some ((mkdirs env qs fs).2 !! d))
  ∧ (∀ d n, entry (mkdirs env qs fs).2 d n = entry fs d n)
  ∧ ((mkdirs env qs fs).1 = None → ∀ d, d ∈ qs → is_Some ((mkdirs env qs fs).2 !! d)).
Proof.
  revert fs. induction qs as [|q qs IH]; intros fs; simpl.
  - split; [by right|]. split; [done|]. split; [done|].
    intros _ d Hin. by apply elem_of_nil in Hin.
  - assert (Hmade : fs !! q = None →
      (∀ d, is_Some ((mkdirs env qs (<[q := ∅]> fs)).2 !! d) → d ∈ q :: qs ∨ is_Some (fs !! d))
      ∧ (∀ d, is_Some (fs !! d) → is_Some ((mkdirs env qs (<[q := ∅]> fs)).2 !! d))
      ∧ (∀ d n, entry (mkdirs env qs (<[q := ∅]> fs)).2 d n = entry fs d n)
      ∧ ((mkdirs env qs (<[q := ∅]> fs)).1 = None →
         ∀ d, d ∈ q :: qs → is_Some ((mkdirs env qs (<[q := ∅]> fs)).2 !! d))).
    { intros Hq. destruct (IH (<[q := ∅]> fs)) as (I1 & I2 & I3 & I4).
      split; [|split; [|split]].
      * intros d [?|Hs]%I1; [left; by right|].
        destruct (decide (d = q)) as [->|Hne]; [left; by left|].
        rewrite lookup_insert_ne in Hs by done. by right.
      * intros d Hs. apply I2. destruct (decide (d = q)) as [->|Hne].
        -- rewrite lookup_insert_eq. by eexists.
        -- by rewrite lookup_insert_ne.
      * intros d n. rewrite I3. unfold entry.
        destruct (decide (d = q)) as [->|Hne].
        -- by rewrite lookup_insert_eq, Hq.
        -- by rewrite lookup_insert_ne.
      * intros Hr d [->|Hin]%elem_of_cons; [|by apply I4].
        apply I2. rewrite lookup_insert_eq. by eexists. }
    unfold is_dir. case_bool_decide as Hd.
    + destruct (IH fs) as (I1 & I2 & I3 & I4).
      split; [|split; [done|split; [done|]]].
      * intros d [?|?]%I1; [left; by right|by right].
      * intros Hr d [->|Hin]%elem_of_cons; [by apply I2|by apply I4].
    + assert (Hq : fs !! q = None) by (by apply eq_None_not_Some).
      case_bool_decide as Hroot; [by apply Hmade|].
      destruct (is_file fs q).
      { simpl. split; [by right|]. by repeat split. }
      destruct (negb (name_ok env (base q))).
      { simpl. split; [by right|]. by repeat split. }
      destruct (denied env OpMkdir q).
      { simpl. split; [by right|]. by repeat split. }
      by apply Hmade.
Qed.

Lemma mkdirs_ok env qs fs :
  Forall (λ q, is_file fs q = false ∧ (q = [] ∨ name_ok env (base q) = true)
               ∧ denied env OpMkdir q = false) qs →
  (mkdirs env qs fs).1 = None.
Proof.
  intros Hqs. revert fs Hqs. induction qs as [|q qs IH]; intros fs Hqs; [done|].
  apply Forall_cons in Hqs as [(Hf & Hn & Hp) Hqs]. simpl.
  destruct (is_dir fs q) eqn:Hd; [by apply IH|].
  assert (Hnext : Forall (λ q0, is_file (<[q := ∅]> fs) q0 = false
                               ∧ (q0 = [] ∨ name_ok env (base q0) = true)
                               ∧ denied env OpMkdir q0 = false) qs).
  { eapply Forall_impl; [exact Hqs|]. intros p [Hp0 ?]. split; [|done].
    rewrite <- Hp0. apply is_file_ext. intros d n. unfold entry.
    apply bool_decide_eq_false in Hd.
    assert (Hq : fs !! q = None) by (by apply eq_None_not_Some).
    destruct (decide (d = q)) as [->|Hne].
    - by rewrite lookup_insert_eq, Hq.
    - by rewrite lookup_insert_ne. }
  case_bool_decide as Hroot; [by apply IH|].
  rewrite Hf, Hp. destruct Hn as [? | ->]; [done|]. simpl. by apply IH.
Qed.

Lemma MkdirAll_os_ok env d fs :
  names_ok env d = true → clear_path fs d → permits env d →
  (MkdirAll env d fs).1 = None.
Proof.
  intros Hn Hc Hp. apply mkdirs_ok. apply Forall_forall.
  intros q Hq%elem_of_prefixes.
  split; [by apply Hc|]. split; [|apply Hp; by left].
  destruct (decide (q = [])) as [->|Hne]; [by left|right].
  unfold names_ok in Hn. rewrite forallb_forall in Hn. apply Hn.
  destruct Hq as [k ->]. apply list_elem_of_In, elem_of_app. left.
  rewrite (snoc_parent_base q Hne) at 2. apply elem_of_app. right. by left.
Qed.

Lemma MkdirAll_os_frame env dir fs :
  (∀ d, is_Some ((MkdirAll env dir fs).2 !! d) → d `prefix_of` dir ∨ is_Some (fs !! d))
  ∧ (∀ d, is_Some (fs !! d) → is_Some ((MkdirAll env dir fs).2 !! d))
  ∧ (∀ d n, entry (MkdirAll env dir fs).2 d n = entry fs d n)
  ∧ ((MkdirAll env dir fs).1 = None → is_Some ((MkdirAll env dir fs).2 !! dir)).
Proof.
  destruct (mkdirs_frame env (prefixes dir) fs) as (M1 & M2 & M3 & M4).
  unfold MkdirAll. repeat split; try done.
  - intros d [?%elem_of_prefixes|?]%M1; [by left|by right].
  - intros Hr. apply (M4 Hr). by apply elem_of_prefixes.
Qed.

Lemma OpenFile_os_frame env p fs :
  (∀ d, is_Some ((OpenFile env p fs).2 !! d) ↔ is_Some (fs !! d))
  ∧ ∀ d n, ¬ (d = parent p ∧ n = base p) →
           entry (OpenFile env p fs).2 d n = entry fs d n.
Proof.
  unfold OpenFile. destruct (is_dir fs p || bool_decide (p = [])); [done|].
  destruct (is_file fs p); [by destruct (denied env OpOpenRW p)|].
  destruct (fs !! parent p) as [es|] eqn:Hd; [|done].
  destruct (name_ok env (base p)); [|done].
  destruct (denied env OpCreate p); [done|]. simpl. split.
  - intros d. destruct (decide (d = parent p)) as [->|Hne].
    + rewrite lookup_insert_eq, Hd. split; by eexists.
    + by rewrite lookup_insert_ne.
  - intros d n Hne. unfold entry. destruct (decide (d = parent p)) as [->|Hd'].
    + rewrite lookup_insert_eq, Hd. simpl. rewrite lookup_insert_ne; [done|].
      intros Heq. by apply Hne.
    + by rewrite lookup_insert_ne.
Qed.

Lemma OpenFile_os_snoc env d n fs es :
  fs !! d = Some es → fs !! (d ++ [n]) = None →
  name_ok env n = true →
  denied env OpOpenRW (d ++ [n]) = false → denied env OpCreate (d ++ [n]) = false →
  (OpenFile env (d ++ [n]) fs).1 = inl {| f_path := d ++ [n]; f_off := 0 |}
  ∧ is_Some (entry (OpenFile env (d ++ [n]) fs).2 d n).
Proof.
  intros Hd Hnd Hok Hrw Hcr. unfold OpenFile, is_dir.
  rewrite bool_decide_false by (rewrite Hnd; by intros [? ?]).
  rewrite (bool_decide_false _ (snoc_not_nil d n)). cbn [orb].
  rewrite is_file_snoc, parent_snoc, base_snoc, Hrw, Hcr, Hok.
  case_bool_decide as Hf; [done|]. rewrite Hd.
  simpl. split; [done|]. unfold entry.
  rewrite lookup_insert_eq. simpl. rewrite lookup_insert_eq. by eexists.
Qed.

Lemma copy_loop_os_frame env rc b fs :
  (∀ d, is_Some ((BlobOS.copy_loop env rc b fs).2 !! d) ↔ is_Some (fs !! d))
  ∧ (∀ d n, is_Some (entry (BlobOS.copy_loop env rc b fs).2 d n) ↔ is_Some (entry fs d n))
  ∧ ∀ d n, ¬ (d = parent (f_path (wr b)) ∧ n = base (f_path (wr b))) →
           entry (BlobOS.copy_loop env rc b fs).2 d n = entry fs d n.
Proof.
  revert b fs. induction rc as [|r rc IH]; intros b fs; [done|].
  assert (Hw : ∀ p,
    let res := match BlobOS.Writer_Write env b p fs with
               | (Some err, _, fs) => (Some err, fs)
               | (None, writer, fs) => BlobOS.copy_loop env rc writer fs
               end in
    (∀ d, is_Some (res.2 !! d) ↔ is_Some (fs !! d))
    ∧ (∀ d n, is_Some (entry res.2 d n) ↔ is_Some (entry fs d n))
    ∧ ∀ d n, ¬ (d = parent (f_path (wr b)) ∧ n = base (f_path (wr b))) →
             entry res.2 d n = entry fs d n).
  { intros p. unfold BlobOS.Writer_Write.
    destruct ((Available b <? length p)%nat && denied env OpWrite (f_path (wr b)));
      [done|].
    destruct (Writer_Write_names b p fs) as [N1 N2].
    destruct (Writer_Write_other b p fs) as [Wp Wo].
    destruct (Blob.Writer_Write b p fs) as [b1 fs1]. simpl in N1, N2, Wp, Wo.
    cbn zeta. cbn [fst snd].
    destruct (IH b1 fs1) as (I1 & I2 & I3). split; [|split].
    - intros d. by rewrite I1, N1.
    - intros d n. by rewrite I2, N2.
    - intros d n Hne. rewrite I3 by (by rewrite Wp). by apply Wo. }
  destruct r as [p|p|p]; [apply Hw|apply Hw|done].
Qed.

Lemma copy_loop_os_ok env rc b fs :
  denied env OpWrite (f_path (wr b)) = false →
  (BlobOS.copy_loop env rc b fs).1 = None.
Proof.
  revert b fs. induction rc as [|r rc IH]; intros b fs Hd; [done|].
  assert (Hw : ∀ p,
    (match BlobOS.Writer_Write env b p fs with
     | (Some err, _, fs) => (Some err, fs)
     | (None, writer, fs) => BlobOS.copy_loop env rc writer fs
     end).1 = None).
  { intros p. unfold BlobOS.Writer_Write. rewrite Hd, andb_false_r.
    destruct (Writer_Write_other b p fs) as [Wp _].
    apply IH. by rewrite Wp. }
  destruct r as [p|p|p]; [apply Hw|apply Hw|done].
Qed.

Lemma prefix_snoc_cases {A} (q d : list A) n :
  q `prefix_of` d ++ [n] → q = d ++ [n] ∨ q `prefix_of` d.
Proof.
  intros [k Hk]. destruct k as [|x k _] using rev_ind.
  - left. by rewrite app_nil_r in Hk.
  - right. rewrite app_assoc in Hk. apply app_inj_tail in Hk as [-> _].
    by exists k.
Qed.

Lemma snoc_not_prefix {A} (d : list A) n : ¬ d ++ [n] `prefix_of` d.
Proof.
  intros [k Hk]. apply (f_equal length) in Hk. rewrite !length_app in Hk.
  simpl in Hk. lia.
Qed.

Lemma lookup_error_not_exist env fs d n :
  names_ok env (d ++ [n]) = true → clear_path fs d → entry fs d n = None →
  lookup_error env fs (d ++ [n]) = ErrNotExist.
Proof.
  intros Hn Hc He. unfold lookup_error. unfold names_ok in Hn. rewrite Hn.
  cbn [negb].
  assert (existsb (is_file fs) (prefixes (d ++ [n])) = false) as ->; [|done].
  apply not_true_is_false. intros (q & Hq & Hf)%existsb_exists.
  apply list_elem_of_In, elem_of_prefixes, prefix_snoc_cases in Hq as [->|Hq].
  - rewrite is_file_snoc, He in Hf. rewrite bool_decide_false in Hf; [done|].
    by intros [? ?].
  - by rewrite (Hc q Hq) in Hf.
Qed.

Lemma is_file_true fs p :
  is_file fs p = true ↔ p ≠ [] ∧ is_Some (entry fs (parent p) (base p)).
Proof.
  unfold is_file. rewrite bool_decide_eq_true. destruct p as [|x p].
  - simpl. split; [by intros [? ?]|by intros [? _]].
  - rewrite lookup_file_entry by done. split; [by intros ?|by intros [_ ?]].
Qed.

Lemma clear_path_mono fs fs' p :
  (∀ d n, is_Some (entry fs' d n) → is_Some (entry fs d n)) →
  clear_path fs p → clear_path fs' p.
Proof.
  intros Hsub Hclear q Hq. apply not_true_is_false.
  intros [Hne Hs%Hsub]%is_file_true.
  specialize (Hclear q Hq). apply not_true_iff_false in Hclear. apply Hclear.
  by apply is_file_true.
Qed.

Section Manager.

Variable blobPath : list string.

Notation getBlobDir := (Blob.getBlobDir blobPath).
Notation getBlobPath := (Blob.getBlobPath blobPath).
Notation cleanup := (BlobOS.cleanup blobPath).
Notation Save := (BlobOS.Save blobPath).
Notation Read := (BlobOS.Read blobPath).
Notation Delete := (BlobOS.Delete blobPath).

Lemma cleanup_os_spec env id c dir fs :
  wf_fs fs → getBlobDir id = Some dir → no_subdirs fs dir →
  ∃ r fs', cleanup env id c fs = Some (r, fs')
    ∧ (is_Some (fs !! dir) → denied env OpReadDir dir = false → r = None)
    ∧ (∀ e, r = Some e →
         fs' = fs
         ∧ ((fs !! dir = None ∧ e = lookup_error env fs dir)
            ∨ (is_Some (fs !! dir) ∧ denied env OpReadDir dir = true
               ∧ e = ErrPermission)))
    ∧ (∀ d, is_Some (fs' !! d) ↔ is_Some (fs !! d))
    ∧ ∀ d n, entry fs' d n
             = if bool_decide (d = dir ∧ stale id c n = true
                               ∧ denied env OpRemove (dir ++ [n]) = false
                               ∧ denied env OpReadDir dir = false)
               then None else entry fs d n.
Proof.
  intros Hwf Hdir Hno. unfold BlobOS.cleanup. rewrite Hdir. simpl.
  destruct (fs !! dir) as [es|] eqn:Ed.
  - destruct (denied env OpReadDir dir) eqn:Hrd.
    { unfold ReadDir. rewrite Ed, Hrd. eexists _, _. split; [done|].
      split; [done|]. split.
      - intros e [= <-]. split; [done|]. right. split; [by eexists|done].
      - split; [done|]. intros d n. rewrite bool_decide_false; [done|].
        by intros (_ & _ & _ & ?). }
    rewrite (ReadDir_os_names env dir fs es Ed Hno Hrd).
    destruct (ReadDir_names dir fs es Ed) as [_ Hnames].
    eexists _, _. split; [done|]. split; [done|]. split; [done|].
    assert (Hel : Forall (λ n, is_elem n = true) (map_to_list es).*1).
    { apply Forall_forall. intros n Hn%Hnames.
      apply (proj1 (wf_fs_entry fs) Hwf dir n). unfold entry. by rewrite Ed. }
    destruct (cleanup_loop_os env id c dir _ fs Hel Hno) as [Hd He].
    split; [done|]. intros d n. rewrite He.
    destruct (decide (d = dir ∧ stale id c n = true
                      ∧ denied env OpRemove (dir ++ [n]) = false))
      as [(-> & Hst & Hok)|Hnot].
    + rewrite (bool_decide_true (_ ∧ stale id c n = true ∧ _ ∧ _)) by done.
      destruct (decide (n ∈ (map_to_list es).*1)) as [Hin|Hout].
      * by rewrite bool_decide_true.
      * rewrite bool_decide_false by (by intros (_ & ? & _)).
        unfold entry. rewrite Ed. simpl.
        destruct (es !! n) eqn:En; [|done]. exfalso. apply Hout, Hnames.
        by eexists.
    + rewrite (bool_decide_false (_ ∧ stale id c n = true ∧ _ ∧ _))
        by (intros (? & ? & ? & _); by apply Hnot).
      rewrite bool_decide_false; [done|].
      intros (-> & _ & Hst & Hok). by apply Hnot.
  - unfold ReadDir. rewrite Ed. eexists _, _. split; [done|].
    split; [by intros [? ?]|]. split.
    + intros e [= <-]. split; [done|]. by left.
    + split; [done|]. intros d n.
      case_bool_decide as Hc; [|done]. destruct Hc as [-> _].
      unfold entry. by rewrite Ed.
Qed.

#[local] Arguments BlobOS.MkdirAll : simpl never.
#[local] Arguments BlobOS.OpenFile : simpl never.
#[local] Arguments BlobOS.copy_loop : simpl never.

(** What a save leaves in the store, whatever it returns. *)
Lemma Save_os_any env id c rc fs dir r fs' :
  wf_fs fs → getBlobDir id = Some dir → no_subdirs fs dir →
  no_slash id = true → no_slash c = true →
  Save env id c rc fs = Some (r, fs') →
  (∀ d, is_Some (fs' !! d) → d `prefix_of` dir ∨ is_Some (fs !! d))
  ∧ (∀ d n, ¬ (d = dir ∧ n = getBlobName id c) →
       entry fs' d n
       = if bool_decide (d = dir ∧ stale id c n = true
                         ∧ denied env OpRemove (dir ++ [n]) = false
                         ∧ denied env OpReadDir dir = false)
         then None else entry fs d n)
  ∧ (is_Some (entry fs dir (getBlobName id c)) → is_Some (entry fs' dir (getBlobName id c))).
Proof.
  intros Hwf Hdir Hno Hi Hc. unfold BlobOS.Save.
  destruct (cleanup_os_spec env id c dir fs Hwf Hdir Hno)
    as (r1 & fs1 & -> & _ & _ & Cd & Ce).
  cbn -[BlobOS.MkdirAll BlobOS.OpenFile BlobOS.copy_loop]. rewrite Hdir.
  cbn -[BlobOS.MkdirAll BlobOS.OpenFile BlobOS.copy_loop].
  destruct (MkdirAll_os_frame env dir fs1) as (M1 & _ & Me & _).
  destruct (MkdirAll env dir fs1) as [err fs2]. simpl in M1, Me.
  set (name := getBlobName id c) in *.
  assert (Hkeep : is_Some (entry fs dir name) → is_Some (entry fs2 dir name)).
  { intros Hs. rewrite Me, Ce. rewrite bool_decide_false; [done|].
    subst name. rewrite stale_same. by intros (_ & ? & _). }
  assert (Hfr2 : ∀ d n, entry fs2 d n
             = if bool_decide (d = dir ∧ stale id c n = true
                               ∧ denied env OpRemove (dir ++ [n]) = false
                               ∧ denied env OpReadDir dir = false)
               then None else entry fs d n).
  { intros d n. by rewrite Me, Ce. }
  assert (Hd2 : ∀ d, is_Some (fs2 !! d) → d `prefix_of` dir ∨ is_Some (fs !! d)).
  { intros d [?|?%Cd]%M1; [by left|by right]. }
  destruct err as [e|].
  { intros [= <- <-]. split; [done|]. split; [by intros d n _|done]. }
  rewrite (getBlobPath_elem blobPath id c dir Hdir Hi Hc).
  cbn -[BlobOS.MkdirAll BlobOS.OpenFile BlobOS.copy_loop]. fold name.
  destruct (OpenFile_os_frame env (dir ++ [name]) fs2) as [Od Oo].
  rewrite parent_snoc, base_snoc in Oo.
  assert (Hok : (∀ f, (OpenFile env (dir ++ [name]) fs2).1 = inl f →
                      f_path f = dir ++ [name])
                ∧ (is_Some (entry fs2 dir name)
                   → is_Some (entry (OpenFile env (dir ++ [name]) fs2).2 dir name))).
  { unfold BlobOS.OpenFile. rewrite is_file_snoc.
    destruct (is_dir fs2 (dir ++ [name]) || bool_decide (dir ++ [name] = [])); [done|].
    case_bool_decide as Hf.
    { destruct (denied env OpOpenRW (dir ++ [name])); [done|].
      split; [by intros f [= <-]|done]. }
    rewrite parent_snoc, base_snoc.
    destruct (fs2 !! dir) as [es|]; [|done].
    destruct (name_ok env name); [|done].
    destruct (denied env OpCreate (dir ++ [name])); [done|].
    simpl. split; [by intros f [= <-]|]. by intros Hs. }
  destruct Hok as [Hpath Hkeep3].
  destruct (OpenFile env (dir ++ [name]) fs2) as [[file|e] fs3].
  2:{ intros [= <- <-]. simpl in Od, Oo, Hkeep3. split.
      - intros d Hs%Od. by apply Hd2.
      - split; [|intros Hs; by apply Hkeep3, Hkeep].
        intros d n Hne. by rewrite Oo, Hfr2. }
  simpl in Od, Oo, Hpath, Hkeep3. specialize (Hpath file eq_refl).
  destruct rc as [rc|]; [|done].
  cbn -[BlobOS.MkdirAll BlobOS.OpenFile BlobOS.copy_loop].
  destruct (copy_loop_os_frame env rc (NewWriter file) fs3) as (Ld & Le & Lo).
  simpl in Lo. rewrite Hpath, parent_snoc, base_snoc in Lo.
  destruct (BlobOS.copy_loop env rc (NewWriter file) fs3) as [b fs4]. simpl in Ld, Le, Lo.
  intros [= <- <-]. split; [|split].
  - intros d Hs%Ld%Od. by apply Hd2.
  - intros d n Hne. by rewrite Lo, Oo, Hfr2.
  - intros Hs. by apply Le, Hkeep3, Hkeep.
Qed.

(** When a save returns no error. *)
Lemma Save_os_ok env id c rc fs dir :
  wf_fs fs → getBlobDir id = Some dir → no_subdirs fs dir →
  no_slash id = true → no_slash c = true →
  clear_path fs dir → names_ok env dir = true →
  name_ok env (getBlobName id c) = true → permits env dir →
  ∃ fs', Save env id c (Some rc) fs = Some (None, fs')
         ∧ is_Some (entry fs' dir (getBlobName id c)).
Proof.
  intros Hwf Hdir Hno Hi Hc Hclear Hnames Hname Hperm. unfold BlobOS.Save.
  destruct (cleanup_os_spec env id c dir fs Hwf Hdir Hno)
    as (r1 & fs1 & -> & _ & _ & Cd & Ce).
  cbn -[BlobOS.MkdirAll BlobOS.OpenFile BlobOS.copy_loop]. rewrite Hdir.
  cbn -[BlobOS.MkdirAll BlobOS.OpenFile BlobOS.copy_loop].
  assert (Hclear1 : clear_path fs1 dir).
  { apply (clear_path_mono fs); [|done]. intros d n. rewrite Ce.
    case_bool_decide; [by intros [? ?]|done]. }
  pose proof (MkdirAll_os_ok env dir fs1 Hnames Hclear1 Hperm) as Mr.
  destruct (MkdirAll_os_frame env dir fs1) as (M1 & _ & Me & M4).
  destruct (MkdirAll env dir fs1) as [err fs2]. simpl in Mr, M1, Me, M4. subst err.
  destruct (M4 eq_refl) as [es Hes].
  rewrite (getBlobPath_elem blobPath id c dir Hdir Hi Hc).
  cbn -[BlobOS.MkdirAll BlobOS.OpenFile BlobOS.copy_loop].
  set (name := getBlobName id c) in *.
  assert (Hnd : fs2 !! (dir ++ [name]) = None).
  { apply eq_None_not_Some. intros [Hp|Hs%Cd]%M1.
    - by apply snoc_not_prefix in Hp.
    - rewrite Hno in Hs. by destruct Hs. }
  destruct (OpenFile_os_snoc env dir name fs2 es Hes Hnd Hname) as [Or Oe];
    [apply Hperm; right; by eexists|apply Hperm; right; by eexists|].
  destruct (OpenFile env (dir ++ [name]) fs2) as [res fs3]. simpl in Or, Oe. subst res.
  cbn -[BlobOS.MkdirAll BlobOS.OpenFile BlobOS.copy_loop].
  destruct (copy_loop_os_frame env rc (NewWriter {| f_path := dir ++ [name]; f_off := 0 |}) fs3)
    as (_ & Le & _).
  pose proof (copy_loop_os_ok env rc (NewWriter {| f_path := dir ++ [name]; f_off := 0 |}) fs3)
    as Lr.
  destruct (BlobOS.copy_loop env rc _ fs3) as [b fs4]. simpl in Le, Lr.
  rewrite Lr by (apply Hperm; right; by eexists).
  exists fs4. split; [done|]. by apply Le.
Qed.

(** What stays true of the store across a save. *)
Lemma Save_os_keeps env id c rc fs dir r fs' :
  wf_fs fs → getBlobDir id = Some dir → no_subdirs fs dir →
  no_slash id = true → no_slash c = true → clear_path fs dir →
  Save env id c rc fs = Some (r, fs') →
  (∀ d n, is_Some (entry fs' d n) →
          (d = dir ∧ n = getBlobName id c) ∨ is_Some (entry fs d n))
  ∧ wf_fs fs' ∧ no_subdirs fs' dir ∧ clear_path fs' dir.
Proof.
  intros Hwf Hdir Hno Hi Hc Hclear Hsave.
  destruct (Save_os_any env id c rc fs dir r fs' Hwf Hdir Hno Hi Hc Hsave)
    as (Sd & So & _).
  assert (Hent : ∀ d n, is_Some (entry fs' d n) →
                        (d = dir ∧ n = getBlobName id c) ∨ is_Some (entry fs d n)).
  { intros d n Hs.
    destruct (decide (d = dir ∧ n = getBlobName id c)) as [?|Hne]; [by left|right].
    rewrite (So d n Hne) in Hs. case_bool_decide; [by destruct Hs|done]. }
  split; [exact Hent|]. split; [|split].
  - apply wf_fs_entry. intros d n [[_ ->]|Hold]%Hent.
    + by apply getBlobName_elem.
    + by apply (proj1 (wf_fs_entry fs) Hwf d n).
  - intros n. apply eq_None_not_Some. intros [Hp|Hs]%Sd.
    + by apply snoc_not_prefix in Hp.
    + rewrite Hno in Hs. by destruct Hs.
  - intros q Hq. apply not_true_is_false.
    intros [Hne [[Hp Hb]|Hold]%Hent]%is_file_true.
    + rewrite (snoc_parent_base q Hne), Hp, Hb in Hq.
      by apply snoc_not_prefix in Hq.
    + specialize (Hclear q Hq). apply not_true_iff_false in Hclear. apply Hclear.
      by apply is_file_true.
Qed.

Lemma Read_os_not_found env id c dir fs seek l :
  getBlobDir id = Some dir → no_slash id = true → no_slash c = true →
  entry fs dir (getBlobName id c) = None →
  no_subdirs fs dir → clear_path fs dir →
  names_ok env (dir ++ [getBlobName id c]) = true →
  Read env id c seek l fs = Some ([], 0, Some ErrNotExist).
Proof.
  intros Hd Hi Hc He Hno Hclear Hn. unfold BlobOS.Read.
  rewrite (getBlobPath_elem blobPath id c dir Hd Hi Hc). simpl.
  unfold Open, is_dir. rewrite is_file_snoc, He, Hno.
  rewrite (bool_decide_false _ (snoc_not_nil dir (getBlobName id c))).
  rewrite !bool_decide_false by (by intros [? ?]). simpl.
  by rewrite lookup_error_not_exist.
Qed.

Lemma names_ok_snoc env d n :
  names_ok env (d ++ [n]) = names_ok env d && name_ok env n.
Proof. unfold names_ok. rewrite forallb_app. simpl. by rewrite andb_true_r. Qed.

Lemma Delete_os_spec env id fs fs' dir :
  wf_fs fs → getBlobDir id = Some dir → no_subdirs fs dir →
  Delete env id fs = Some (None, fs') →
  is_Some (fs !! dir) ∧ denied env OpReadDir dir = false
  ∧ wf_fs fs'
  ∧ (∀ d, is_Some (fs' !! d) ↔ is_Some (fs !! d))
  ∧ ∀ d n, entry fs' d n
           = if bool_decide (d = dir ∧ stale id "*" n = true
                             ∧ denied env OpRemove (dir ++ [n]) = false)
             then None else entry fs d n.
Proof.
  intros Hwf Hdir Hno Hdel. unfold BlobOS.Delete in Hdel.
  destruct (cleanup_os_spec env id "*" dir fs Hwf Hdir Hno)
    as (r & fs1 & Hcl & _ & _ & Cd & Ce).
  rewrite Hcl in Hdel. injection Hdel as -> ->.
  assert (Hok : is_Some (fs !! dir) ∧ denied env OpReadDir dir = false).
  { unfold BlobOS.cleanup in Hcl. rewrite Hdir in Hcl. simpl in Hcl.
    unfold ReadDir in Hcl. destruct (fs !! dir) as [es|]; [|done].
    destruct (denied env OpReadDir dir); [done|]. split; [by eexists|done]. }
  destruct Hok as [Hex Hrd]. split; [done|]. split; [done|].
  assert (He : ∀ d n, entry fs' d n
           = if bool_decide (d = dir ∧ stale id "*" n = true
                             ∧ denied env OpRemove (dir ++ [n]) = false)
             then None else entry fs d n).
  { intros d n. rewrite Ce.
    apply (f_equal (λ b : bool, if b then None else entry fs d n)).
    apply bool_decide_ext. rewrite Hrd. tauto. }
  split; [|done].
  apply wf_fs_entry. intros d n Hn. rewrite He in Hn.
  case_bool_decide; [by destruct Hn|].
  by apply (proj1 (wf_fs_entry fs) Hwf d n).
Qed.

(** C1, as amended.  On a well-formed store whose shard directory for the
    id holds no sub-directory and has no regular file on its path, for an
    id and two distinct checksums free of the path separator, under an
    environment that accepts the names on the path and the two blob names
    and denies nothing on that path and in the shard directory: [Save id
    c1] followed by [Save id c2], from readers that are not nil, both
    return no error; the only entry of the shard directory that is a blob
    of [id] is then the one named for [c2], and a read of [(id, c1)] fails
    with the not-found error. *)
Theorem save_twice_keeps_one_blob env id c1 c2 rc1 rc2 fs dir :
  wf_fs fs → getBlobDir id = Some dir →
  no_slash id = true → no_slash c1 = true → no_slash c2 = true →
  c1 ≠ c2 →
  no_subdirs fs dir → clear_path fs dir →
  names_ok env dir = true →
  name_ok env (getBlobName id c1) = true →
  name_ok env (getBlobName id c2) = true →
  permits env dir →
  ∃ fs1 fs2,
    Save env id c1 (Some rc1) fs = Some (None, fs1)
    ∧ Save env id c2 (Some rc2) fs1 = Some (None, fs2)
    ∧ (∀ n, is_Some (entry fs2 dir n) ∧ (∃ c, n = getBlobName id c)
            ↔ n = getBlobName id c2)
    ∧ ∀ seek l, Read env id c1 seek l fs2 = Some ([], 0, Some ErrNotExist).
Proof.
  intros Hwf Hdir Hi Hc1 Hc2 Hne Hno Hclear Hnames Hn1 Hn2 Hrm.
  destruct (Save_os_ok env id c1 rc1 fs dir Hwf Hdir Hno Hi Hc1 Hclear Hnames Hn1 Hrm)
    as (fs1 & S1 & _).
  destruct (Save_os_keeps env id c1 (Some rc1) fs dir None fs1 Hwf Hdir Hno Hi Hc1
              Hclear S1) as (_ & Hwf1 & Hno1 & Hclear1).
  destruct (Save_os_ok env id c2 rc2 fs1 dir Hwf1 Hdir Hno1 Hi Hc2 Hclear1 Hnames Hn2
              Hrm) as (fs2 & S2 & Hnew).
  destruct (Save_os_any env id c2 (Some rc2) fs1 dir None fs2 Hwf1 Hdir Hno1 Hi Hc2 S2)
    as (_ & So & _).
  destruct (Save_os_keeps env id c2 (Some rc2) fs1 dir None fs2 Hwf1 Hdir Hno1 Hi Hc2
              Hclear1 S2) as (_ & _ & Hno2 & Hclear2).
  assert (Hgone : ∀ c, c ≠ c2 → entry fs2 dir (getBlobName id c) = None).
  { intros c Hc. rewrite So by (intros [_ ?%getBlobName_inj]; done).
    rewrite bool_decide_true; [done|]. split; [done|].
    split; [by apply stale_other|].
    split; apply Hrm; [right; by eexists|by left]. }
  exists fs1, fs2. split; [done|]. split; [done|]. split.
  - intros n. split.
    + intros [Hs [c ->]]. destruct (decide (c = c2)) as [->|Hc]; [done|].
      rewrite (Hgone c Hc) in Hs. by destruct Hs.
    + intros ->. split; [done|by eexists].
  - intros seek l. apply (Read_os_not_found env id c1 dir); try done.
    + by apply Hgone.
    + by rewrite names_ok_snoc, Hnames, Hn1.
Qed.

(** C8, as amended.  On a well-formed store whose shard directory for the
    id holds no sub-directory and has no regular file on its path, for an
    id and a checksum free of the path separator, the checksum other than
    the sentinel ["*"], under an environment that accepts the names of the
    blob path and does not deny the removal of that blob: after a delete of
    the id that returns no error, every read of [(id, checksum)] fails with
    the not-found error, however many blobs the id had. *)
Theorem delete_then_read_not_found env id c fs fs' dir :
  wf_fs fs → getBlobDir id = Some dir →
  no_slash id = true → no_slash c = true →
  c ≠ "*" →
  no_subdirs fs dir → clear_path fs dir →
  names_ok env (dir ++ [getBlobName id c]) = true →
  denied env OpRemove (dir ++ [getBlobName id c]) = false →
  Delete env id fs = Some (None, fs') →
  ∀ seek l, Read env id c seek l fs' = Some ([], 0, Some ErrNotExist).
Proof.
  intros Hwf Hdir Hi Hc Hne Hno Hclear Hnames Hrm Hdel seek l.
  destruct (Delete_os_spec env id fs fs' dir Hwf Hdir Hno Hdel)
    as (_ & _ & _ & Dd & De).
  apply (Read_os_not_found env id c dir); try done.
  - rewrite De. rewrite bool_decide_true; [done|].
    split; [done|]. split; [by apply stale_other|done].
  - intros n. apply eq_None_not_Some. rewrite Dd, Hno. by intros [? ?].
  - apply (clear_path_mono fs); [|done]. intros d n. rewrite De.
    case_bool_decide; [by intros [? ?]|done].
Qed.

(** Whatever a read returns, under any environment: the count is between 0
    and the length of the slice returned; either the open failed (the slice
    is empty, the count 0 and the error the one of the open) or the slice
    has exactly the length asked for; the bytes past the count are zeros;
    and a read of positive length without error returns at least one
    byte. *)
Theorem read_result_bounds env id c seek l fs blob size err :
  Read env id c seek l fs = Some (blob, size, err) →
  0 ≤ size ≤ Z.of_nat (length blob)
  ∧ ((blob = [] ∧ size = 0
      ∧ ∃ p e, getBlobPath id c = Some p ∧ Open env p fs = inr e ∧ err = Some e)
     ∨ (0 ≤ l ≤ max_len env ∧ length blob = Z.to_nat l))
  ∧ drop (Z.to_nat size) blob
    = replicate (length blob - Z.to_nat size) x00%byte
  ∧ (err = None → 0 < l → 0 < size).
Proof.
  unfold BlobOS.Read. destruct (getBlobPath id c) as [p|]; [|done]. simpl.
  destruct (Open env p fs) as [file|e] eqn:Eo.
  - destruct (Z.ltb_spec l 0) as [|Hl]; [done|].
    destruct (Z.ltb_spec (max_len env) l) as [|Hmax]; [done|]. simpl.
    destruct (BlobOS.file_Read (file_Seek file seek) (Z.to_nat l) fs) as [data e] eqn:Er.
    intros [= <- <- <-].
    assert (Hd : (length data ≤ Z.to_nat l)%nat
                 ∧ (e = None → 0 < l → data ≠ [])).
    { unfold BlobOS.file_Read in Er.
      destruct (lookup_file _ fs) as [cnt|]; [|by injection Er as <- <-; simpl; split; [lia|]].
      destruct (Nat.eqb_spec (Z.to_nat l) 0) as [Hz|Hnz].
      { injection Er as <- <-. simpl. split; [lia|]. intros _ ?. lia. }
      destruct (Nat.leb_spec (length cnt) (f_off (file_Seek file seek))) as [Hle|Hgt].
      { injection Er as <- <-. simpl. split; [lia|]. done. }
      injection Er as <- <-. split; [rewrite length_take; lia|].
      intros _ _ Hnil. apply (f_equal length) in Hnil.
      rewrite length_take, length_drop in Hnil. simpl in Hnil. lia. }
    destruct Hd as [Hlen Hne].
    rewrite length_app, length_replicate, Nat2Z.id.
    split; [lia|]. split; [right; split; [lia|lia]|]. split.
    + rewrite drop_app_length. f_equal. lia.
    + intros He Hpos. specialize (Hne He Hpos). destruct data; [done|simpl; lia].
  - intros [= <- <- <-].
    split; [simpl; lia|]. split; [|done].
    left. split; [done|]. split; [done|]. by exists p, e.
Qed.

(** The panics.  [Read] panics exactly on an id shorter than two bytes
    and, once the blob file (or a directory at its path) is open, on a
    length that is negative or beyond what can be allocated; [Delete]
    panics exactly on an id shorter than two bytes, and so does [Save] with
    a reader that is not nil; with the nil reader [Save] panics also
    wherever the save of an empty blob would return no error, at the first
    read. *)
Theorem short_id_panics env id c rc seek l fs :
  (Read env id c seek l fs = None
   ↔ (String.length id < 2)%nat
     ∨ ∃ p f, getBlobPath id c = Some p ∧ Open env p fs = inl f
              ∧ (l < 0 ∨ max_len env < l))
  ∧ (Delete env id fs = None ↔ (String.length id < 2)%nat)
  ∧ (Save env id c (Some rc) fs = None ↔ (String.length id < 2)%nat)
  ∧ (Save env id c None fs = None
     ↔ (String.length id < 2)%nat
       ∨ ∃ fs', Save env id c (Some []) fs = Some (None, fs')).
Proof.
  split; [|split; [|split]].
  - unfold BlobOS.Read, Blob.getBlobPath, Blob.getBlobDir.
    destruct (Nat.ltb_spec (String.length id) 2) as [Hs|Hl]; simpl.
    { split; [by left|done]. }
    destruct (Open env _ fs) as [f|e] eqn:Ho.
    + destruct (Z.ltb_spec l 0) as [Hl0|Hl0]; simpl.
      { split; [|done]. intros _. right. eexists _, f. split; [done|].
        split; [done|]. by left. }
      destruct (Z.ltb_spec (max_len env) l) as [Hm|Hm].
      { split; [|done]. intros _. right. eexists _, f. split; [done|].
        split; [done|]. by right. }
      destruct (file_Read _ _ fs) as [data err]. split; [done|].
      intros [?|(p & f' & [= <-] & _ & [?|?])]; lia.
    + split; [done|].
      intros [?|(p & f' & [= <-] & Ho' & _)]; [lia|]. rewrite Ho in Ho'. done.
  - unfold BlobOS.Delete, BlobOS.cleanup, Blob.getBlobDir.
    destruct (Nat.ltb_spec (String.length id) 2) as [Hs|Hl]; simpl; [done|].
    destruct (ReadDir env _ fs); split; (done || lia).
  - unfold BlobOS.Save, BlobOS.cleanup, Blob.getBlobPath, Blob.getBlobDir.
    destruct (Nat.ltb_spec (String.length id) 2) as [Hs|Hl]; simpl; [done|].
    destruct (ReadDir env _ fs) as [names|e0]; simpl;
      (destruct (MkdirAll env _ _) as [[e|] fs2]; [split; (done || lia)|]);
      (destruct (OpenFile env _ fs2) as [[f|e] fs3]; simpl; split; (done || lia)).
  - unfold BlobOS.Save, BlobOS.cleanup, Blob.getBlobPath, Blob.getBlobDir.
    destruct (Nat.ltb_spec (String.length id) 2) as [Hs|Hl]; simpl.
    { split; [by left|done]. }
    destruct (ReadDir env _ fs) as [names|e0]; simpl;
      (destruct (MkdirAll env _ _) as [[e|] fs2];
       [split; [done|intros [?|[? ?]]; [lia|done]]|]);
      (destruct (OpenFile env _ fs2) as [[f|e] fs3]; simpl;
       [split; [intros _; right; by eexists|done]
       |split; [done|intros [?|[? ?]]; [lia|done]]]).
Qed.

(** A delete returns an error exactly when the shard path of the id is not
    an existing directory, or is one that cannot be listed; the store is
    then left as it was, and the error is the one of [ReadDir]: a refused
    name, a regular file on the path, a missing directory, or the
    denial. *)
Theorem delete_fails_iff_no_shard_dir env id fs e fs' :
  Delete env id fs = Some (Some e, fs')
  ↔ fs' = fs
    ∧ ∃ dir, getBlobDir id = Some dir
             ∧ ((fs !! dir = None
                 ∧ e = (if negb (names_ok env dir) then ErrInvalid
                        else if existsb (is_file fs) (prefixes dir) then ErrNotDir
                        else ErrNotExist))
                ∨ (is_Some (fs !! dir) ∧ denied env OpReadDir dir = true
                   ∧ e = ErrPermission)).
Proof.
  unfold BlobOS.Delete, BlobOS.cleanup.
  destruct (getBlobDir id) as [dir|]; simpl.
  - unfold ReadDir. destruct (fs !! dir) as [es|] eqn:Ed.
    + destruct (denied env OpReadDir dir) eqn:Hrd.
      * split.
        -- intros [= <- <-]. split; [done|]. exists dir. split; [done|].
           right. split; [by eexists|done].
        -- intros (-> & dir' & [= <-] & [[? _]|(_ & _ & ->)]); [congruence|done].
      * split; [done|].
        intros (_ & dir' & [= <-] & [[? _]|(_ & ? & _)]); congruence.
    + split.
      * intros [= <- <-]. split; [done|]. exists dir. split; [done|]. by left.
      * intros (-> & dir' & [= <-] & [[_ ->]|([? ?] & _)]); [done|congruence].
  - split; [done|]. by intros (_ & dir & ? & _).
Qed.

(** A delete that returns no error has removed from the shard directory of
    the id the entries whose name contains the id followed by ["=="], other
    than the one named for the checksum ["*"] and other than those whose
    removal was denied: these stay, with their content.  Every other file
    keeps its content, no directory is created or removed, and the store
    stays well-formed. *)
Theorem delete_removes_only_blobs_of_id env id fs fs' dir :
  wf_fs fs → getBlobDir id = Some dir → no_subdirs fs dir →
  Delete env id fs = Some (None, fs') →
  is_Some (fs !! dir)
  ∧ wf_fs fs'
  ∧ (∀ d, is_Some (fs' !! d) ↔ is_Some (fs !! d))
  ∧ ∀ d n, entry fs' d n
           = if bool_decide (d = dir ∧ n ≠ getBlobName id "*"
                             ∧ Contains n (getBlobName id EmptyString) = true
                             ∧ denied env OpRemove (dir ++ [n]) = false)
             then None else entry fs d n.
Proof.
  intros Hwf Hdir Hno Hdel.
  destruct (Delete_os_spec env id fs fs' dir Hwf Hdir Hno Hdel)
    as (Hex & _ & Hwf' & Hd & He).
  repeat (split; [done|]). intros d n. rewrite He.
  apply (f_equal (λ b : bool, if b then None else entry fs d n)).
  apply bool_decide_ext. unfold stale.
  rewrite andb_true_iff, negb_true_iff, String.eqb_neq. tauto.
Qed.

(** A delete repeated on the store that a delete without error left
    changes nothing and returns no error, provided the second one can list
    the shard directory and either no removal was denied in the first one
    or the second one is denied the removals the first was. *)
Theorem delete_twice_same env1 env2 id fs fs' dir :
  wf_fs fs → getBlobDir id = Some dir → no_subdirs fs dir →
  denied env2 OpReadDir dir = false →
  (∀ n, denied env1 OpRemove (dir ++ [n]) = false
        ∨ denied env2 OpRemove (dir ++ [n]) = denied env1 OpRemove (dir ++ [n])) →
  Delete env1 id fs = Some (None, fs') →
  Delete env2 id fs' = Some (None, fs').
Proof.
  intros Hwf Hdir Hno Hrd Hrm Hdel.
  destruct (Delete_os_spec env1 id fs fs' dir Hwf Hdir Hno Hdel)
    as (Hex & _ & Hwf' & Hd & He).
  assert (Hno' : no_subdirs fs' dir).
  { intros n. apply eq_None_not_Some. rewrite Hd, Hno. by intros [? ?]. }
  destruct (cleanup_os_spec env2 id "*" dir fs' Hwf' Hdir Hno')
    as (r & fs2 & Hcl & Hr & _ & Cd & Ce).
  unfold BlobOS.Delete. rewrite Hcl, Hr by (done || by apply Hd).
  do 3 f_equal. apply fs_ext.
  - intros d. by rewrite Cd.
  - intros d n. rewrite Ce, He.
    case_bool_decide as H2; [|done]. destruct H2 as (-> & Hst & Hok2 & _).
    case_bool_decide as H1; [done|].
    destruct (Hrm n) as [Hok1|Heq].
    + exfalso. by apply H1.
    + exfalso. apply H1. by rewrite <- Heq.
Qed.

(** Blobs of other ids are collateral of a save and of a delete: for an id
    [a] of length at least 2, the blob of an id that ends in [a], whatever
    its checksum, is no longer in the shard directory after a save for [a]
    that could list that directory, whatever the save returned (unless it
    is the very file the save writes), nor after a delete of [a] that
    returned no error (unless it is the file named for the checksum
    ["*"]), provided its removal was not denied; a read of it then fails at
    the open. *)
Theorem save_and_delete_remove_blobs_of_longer_ids env a x ca cb rc fs dir :
  wf_fs fs → getBlobDir a = Some dir → no_subdirs fs dir →
  no_slash a = true → no_slash x = true →
  no_slash ca = true → no_slash cb = true →
  denied env OpRemove (dir ++ [getBlobName (x +:+ a) cb]) = false →
  (getBlobName (x +:+ a) cb ≠ getBlobName a ca →
   denied env OpReadDir dir = false →
   ∀ r fs', Save env a ca rc fs = Some (r, fs') →
     entry fs' dir (getBlobName (x +:+ a) cb) = None
     ∧ ∀ env' seek l, ∃ e, Read env' (x +:+ a) cb seek l fs' = Some ([], 0, Some e))
  ∧ (getBlobName (x +:+ a) cb ≠ getBlobName a "*" →
     ∀ fs', Delete env a fs = Some (None, fs') →
       entry fs' dir (getBlobName (x +:+ a) cb) = None
       ∧ ∀ env' seek l, ∃ e, Read env' (x +:+ a) cb seek l fs' = Some ([], 0, Some e)).
Proof.
  intros Hwf Hdir Hno Ha Hx Hca Hcb Hrm.
  assert (Hl : (2 ≤ String.length a)%nat).
  { revert Hdir. unfold Blob.getBlobDir.
    destruct (Nat.ltb_spec (String.length a) 2); [done|lia]. }
  assert (Hdirb : getBlobDir (x +:+ a) = Some dir).
  { revert Hdir. unfold Blob.getBlobDir.
    rewrite (substring_tail_append x a Hl), length_append.
    destruct (Nat.ltb_spec (String.length a) 2); [lia|].
    destruct (Nat.ltb_spec (String.length x + String.length a) 2); [lia|done]. }
  assert (Hxa : no_slash (x +:+ a) = true) by (by rewrite no_slash_app, Hx, Ha).
  assert (Hst : ∀ c, getBlobName (x +:+ a) cb ≠ getBlobName a c →
                     stale a c (getBlobName (x +:+ a) cb) = true).
  { intros c Hne. unfold stale. apply andb_true_intro. split.
    - by apply negb_true_iff, String.eqb_neq.
    - unfold getBlobName. rewrite append_empty_r, <- append_assoc.
      apply Contains_append_l. rewrite append_assoc. apply Contains_prefix. }
  assert (Hread : ∀ fs', entry fs' dir (getBlobName (x +:+ a) cb) = None →
                         no_subdirs fs' dir →
            ∀ env' seek l, ∃ e, Read env' (x +:+ a) cb seek l fs' = Some ([], 0, Some e)).
  { intros fs' He Hno' env' seek l. unfold BlobOS.Read.
    rewrite (getBlobPath_elem blobPath (x +:+ a) cb dir Hdirb Hxa Hcb). simpl.
    unfold Open, is_dir. rewrite is_file_snoc, He, Hno'.
    rewrite (bool_decide_false _ (snoc_not_nil dir (getBlobName (x +:+ a) cb))).
    rewrite !bool_decide_false by (by intros [? ?]). simpl. by eexists. }
  split.
  - intros Hne Hrd r fs' Hsave.
    destruct (Save_os_any env a ca rc fs dir r fs' Hwf Hdir Hno Ha Hca Hsave)
      as (Sd & So & _).
    assert (He : entry fs' dir (getBlobName (x +:+ a) cb) = None).
    { rewrite So by (by intros [_ ?]). rewrite bool_decide_true; [done|].
      split; [done|]. split; [by apply Hst|done]. }
    split; [done|]. apply Hread; [done|].
    intros n. apply eq_None_not_Some. intros [Hp|Hs]%Sd.
    + by apply snoc_not_prefix in Hp.
    + rewrite Hno in Hs. by destruct Hs.
  - intros Hne fs' Hdel.
    destruct (Delete_os_spec env a fs fs' dir Hwf Hdir Hno Hdel)
      as (_ & _ & _ & Dd & De).
    assert (He : entry fs' dir (getBlobName (x +:+ a) cb) = None).
    { rewrite De. rewrite bool_decide_true; [done|].
      split; [done|]. split; [by apply Hst|done]. }
    split; [done|]. apply Hread; [done|].
    intros n. apply eq_None_not_Some. rewrite Dd, Hno. by intros [? ?].
Qed.

End Manager.

End BlobOSFacts.

Module AgreeFacts.
Import Blob BlobFacts BlobMore BlobOS BlobOSFacts.

#[local] Arguments append _ _ : simpl nomatch.
#[local] Arguments path_Join : simpl never.
#[local] Arguments prefixes : simpl never.

(** *** The operations, where nothing fails *)

Lemma Remove_agrees env d n fs :
  no_subdirs fs d → denied env OpRemove (d ++ [n]) = false →
  (BlobOS.Remove env (d ++ [n]) fs).2 = (Blob.Remove (d ++ [n]) fs).2.
Proof.
  intros Hno Hok. unfold BlobOS.Remove.
  rewrite (bool_decide_false _ (snoc_not_nil d n)).
  rewrite (Remove_nonempty _ _ (snoc_not_nil d n)).
  rewrite is_file_snoc, parent_snoc, base_snoc, Hok, Hno.
  unfold entry. destruct (fs !! d) as [es|] eqn:Ed; cbn [mbind option_bind].
  - destruct (es !! n) as [c|] eqn:En.
    + rewrite bool_decide_true by (by eexists). cbn [snd].
      apply map_eq. intros i. rewrite lookup_alter.
      case_decide as Hi; [subst i|].
      * by rewrite lookup_insert_eq, Ed.
      * rewrite lookup_insert_ne; [done|]. intros ->. by apply Hi.
    + rewrite bool_decide_false by (by intros [? ?]). done.
  - rewrite bool_decide_false by (by intros [? ?]). done.
Qed.

Lemma cleanup_loop_agrees env id c dir names fs :
  Forall (λ n, is_elem n = true) names →
  no_subdirs fs dir →
  (∀ n, denied env OpRemove (dir ++ [n]) = false) →
  fold_left (λ fs name,
               if stale id c name
               then (BlobOS.Remove env (path_Join dir name) fs).2 else fs)
            names fs
  = fold_left (λ fs name,
                 if stale id c name
                 then (Blob.Remove (path_Join dir name) fs).2 else fs)
              names fs.
Proof.
  intros Hel Hno Hok. revert fs Hno.
  induction Hel as [|x names Hx _ IH]; intros fs Hno; [done|]. simpl.
  rewrite (path_Join_elem _ _ Hx).
  destruct (stale id c x); [|by apply IH].
  rewrite <- (Remove_agrees env dir x fs Hno (Hok x)). apply IH.
  destruct (Remove_snoc_os env dir x fs Hno) as [Rd _].
  intros n. apply eq_None_not_Some. rewrite Rd, Hno. by intros [? ?].
Qed.

Lemma lookup_error_missing env fs d :
  names_ok env d = true → clear_path fs d → lookup_error env fs d = ErrNotExist.
Proof.
  intros Hn Hc. unfold lookup_error. unfold names_ok in Hn. rewrite Hn. cbn [negb].
  assert (existsb (is_file fs) (prefixes d) = false) as ->; [|done].
  apply not_true_is_false. intros (q & Hq & Hf)%existsb_exists.
  apply list_elem_of_In, elem_of_prefixes in Hq. by rewrite (Hc q Hq) in Hf.
Qed.

Lemma mkdirs_agrees env qs fs :
  Forall (λ q, is_file fs q = false ∧ (q = [] ∨ name_ok env (base q) = true)
               ∧ denied env OpMkdir q = false) qs →
  mkdirs env qs fs = (None, fold_left mkdir qs fs).
Proof.
  intros Hqs. revert fs Hqs. induction qs as [|q qs IH]; intros fs Hqs; [done|].
  apply Forall_cons in Hqs as [(Hf & Hn & Hp) Hqs]. simpl.
  unfold is_dir, mkdir at 2. destruct (fs !! q) as [es|] eqn:Hq.
  - rewrite bool_decide_true by (by eexists). by apply IH.
  - rewrite bool_decide_false by (by intros [? ?]).
    assert (Hnext : Forall (λ q0, is_file (<[q := ∅]> fs) q0 = false
                                 ∧ (q0 = [] ∨ name_ok env (base q0) = true)
                                 ∧ denied env OpMkdir q0 = false) qs).
    { eapply Forall_impl; [exact Hqs|]. intros p [Hp0 ?].
      split; [|done]. rewrite <- Hp0. apply is_file_ext. intros d n. unfold entry.
      destruct (decide (d = q)) as [->|Hne].
      + by rewrite lookup_insert_eq, Hq.
      + by rewrite lookup_insert_ne. }
    case_bool_decide as Hroot; [by apply IH|].
    rewrite Hf, Hp. destruct Hn as [? | ->]; [done|]. simpl. by apply IH.
Qed.

Lemma MkdirAll_agrees env d fs :
  names_ok env d = true → clear_path fs d → permits env d →
  BlobOS.MkdirAll env d fs = of_ideal_result (Blob.MkdirAll d fs).
Proof.
  intros Hn Hc Hp. unfold BlobOS.MkdirAll, Blob.MkdirAll, of_ideal_result.
  apply mkdirs_agrees. apply Forall_forall.
  intros q Hq%elem_of_prefixes.
  split; [by apply Hc|]. split; [|apply Hp; by left].
  destruct (decide (q = [])) as [->|Hne]; [by left|right].
  unfold names_ok in Hn. rewrite forallb_forall in Hn. apply Hn.
  destruct Hq as [k ->]. apply list_elem_of_In, elem_of_app. left.
  rewrite (snoc_parent_base q Hne) at 2. apply elem_of_app. right. by left.
Qed.

Lemma OpenFile_agrees env d n fs es :
  fs !! d = Some es → fs !! (d ++ [n]) = None →
  name_ok env n = true →
  denied env OpOpenRW (d ++ [n]) = false → denied env OpCreate (d ++ [n]) = false →
  BlobOS.OpenFile env (d ++ [n]) fs
  = (inl {| f_path := d ++ [n]; f_off := 0 |}, (Blob.OpenFile (d ++ [n]) fs).2)
  ∧ (Blob.OpenFile (d ++ [n]) fs).1 = inl {| f_path := d ++ [n]; f_off := 0 |}.
Proof.
  intros Hd Hnd Hok Hrw Hcr.
  assert (HB : Blob.OpenFile (d ++ [n]) fs
               = match es !! n with
                 | Some _ => (inl {| f_path := d ++ [n]; f_off := 0 |}, fs)
                 | None => (inl {| f_path := d ++ [n]; f_off := 0 |},
                            <[d := <[n := []]> es]> fs)
                 end).
  { unfold Blob.OpenFile.
    destruct (d ++ [n]) as [|x p] eqn:E; [by destruct d|]. rewrite <- E.
    by rewrite parent_snoc, base_snoc, Hd. }
  rewrite HB. unfold BlobOS.OpenFile, is_dir.
  rewrite bool_decide_false by (rewrite Hnd; by intros [? ?]).
  rewrite (bool_decide_false _ (snoc_not_nil d n)). cbn [orb].
  rewrite is_file_snoc, parent_snoc, base_snoc, Hrw, Hcr, Hok, Hd.
  unfold entry. rewrite Hd. cbn [mbind option_bind negb].
  destruct (es !! n) as [c|] eqn:En.
  - by rewrite bool_decide_true by (by eexists).
  - by rewrite bool_decide_false by (by intros [? ?]).
Qed.

Lemma copy_loop_agrees env rc b fs :
  denied env OpWrite (f_path (wr b)) = false →
  BlobOS.copy_loop env (ReadOk <$> rc) b fs = (None, (Blob.copy_loop rc b fs).2).
Proof.
  revert b fs. induction rc as [|p rc IH]; intros b fs Hd; [done|].
  cbn [fmap list_fmap BlobOS.copy_loop Blob.copy_loop].
  unfold BlobOS.Writer_Write. rewrite Hd, andb_false_r.
  destruct (Writer_Write_other b p fs) as [Wp _].
  destruct (Blob.Writer_Write b p fs) as [b1 fs1]. cbn [fst snd] in *.
  apply IH. by rewrite Wp.
Qed.

Lemma file_Read_agrees f l fs :
  BlobOS.file_Read f l fs
  = ((Blob.file_Read f l fs).1, of_ideal <$> (Blob.file_Read f l fs).2).
Proof.
  unfold BlobOS.file_Read, Blob.file_Read.
  destruct (lookup_file (f_path f) fs); [|done].
  destruct (l =? 0)%nat; [done|]. by destruct (_ <=? _)%nat.
Qed.

Section Manager.

Variable blobPath : list string.

Notation getBlobDir := (Blob.getBlobDir blobPath).
Notation getBlobPath := (Blob.getBlobPath blobPath).

#[local] Arguments BlobOS.MkdirAll : simpl never.
#[local] Arguments BlobOS.OpenFile : simpl never.
#[local] Arguments BlobOS.copy_loop : simpl never.
#[local] Arguments Blob.MkdirAll : simpl never.
#[local] Arguments Blob.OpenFile : simpl never.
#[local] Arguments Blob.copy_loop : simpl never.

Lemma cleanup_agrees env id c fs dir :
  wf_fs fs → getBlobDir id = Some dir → no_subdirs fs dir → clear_path fs dir →
  names_ok env dir = true →
  denied env OpReadDir dir = false →
  (∀ n, denied env OpRemove (dir ++ [n]) = false) →
  BlobOS.cleanup blobPath env id c fs
  = of_ideal_result <$> Blob.cleanup blobPath id c fs.
Proof.
  intros Hwf Hdir Hno Hclear Hnames Hrd Hrm.
  unfold BlobOS.cleanup, Blob.cleanup. rewrite Hdir. simpl.
  destruct (fs !! dir) as [es|] eqn:Ed.
  - rewrite (ReadDir_os_names env dir fs es Ed Hno Hrd).
    destruct (ReadDir_names dir fs es Ed) as [-> Hnames'].
    simpl. unfold of_ideal_result. simpl. do 2 f_equal.
    apply cleanup_loop_agrees; [|done|done].
    apply Forall_forall. intros n Hn%Hnames'.
    apply (proj1 (wf_fs_entry fs) Hwf dir n). unfold entry. by rewrite Ed.
  - unfold BlobOS.ReadDir, Blob.ReadDir. rewrite Ed. simpl.
    by rewrite (lookup_error_missing env fs dir Hnames Hclear).
Qed.

(** Where the file system refuses no name involved and denies nothing on
    the path of the shard directory and in it, the manager on the file
    system that fails is the manager of Part I: a save from a reader
    without errors, a delete and a read of a length that can be allocated
    return the same and leave the same store. *)
Theorem managers_agree env id c rc seek l fs dir :
  wf_fs fs → getBlobDir id = Some dir →
  no_slash id = true → no_slash c = true →
  no_subdirs fs dir → clear_path fs dir →
  names_ok env dir = true → name_ok env (getBlobName id c) = true →
  permits env dir →
  BlobOS.Save blobPath env id c (Some (ReadOk <$> rc)) fs
  = of_ideal_result <$> Blob.Save blobPath id c rc fs
  ∧ BlobOS.Delete blobPath env id fs = of_ideal_result <$> Blob.Delete blobPath id fs
  ∧ (l ≤ max_len env →
     BlobOS.Read blobPath env id c seek l fs
     = of_ideal_read <$> Blob.Read blobPath id c seek l fs).
Proof.
  intros Hwf Hdir Hi Hc Hno Hclear Hnames Hname Hperm.
  assert (Hrd : denied env OpReadDir dir = false) by (apply Hperm; by left).
  assert (Hrm : ∀ n, denied env OpRemove (dir ++ [n]) = false).
  { intros n. apply Hperm. right. by eexists. }
  set (name := getBlobName id c) in *.
  split; [|split].
  - unfold BlobOS.Save, Blob.Save.
    rewrite (cleanup_agrees env id c fs dir Hwf Hdir Hno Hclear Hnames Hrd Hrm).
    destruct (cleanup_spec blobPath id c dir fs Hwf Hdir) as (r1 & fs1 & -> & _ & Cd & Ce).
    cbn -[BlobOS.MkdirAll BlobOS.OpenFile BlobOS.copy_loop
          Blob.MkdirAll Blob.OpenFile Blob.copy_loop]. rewrite Hdir.
    cbn -[BlobOS.MkdirAll BlobOS.OpenFile BlobOS.copy_loop
          Blob.MkdirAll Blob.OpenFile Blob.copy_loop].
    assert (Hclear1 : clear_path fs1 dir).
    { apply (clear_path_mono fs); [|done]. intros d n. rewrite Ce.
      case_bool_decide; [by intros [? ?]|done]. }
    destruct (MkdirAll_os_frame env dir fs1) as (M1 & _ & _ & M4).
    rewrite (MkdirAll_agrees env dir fs1 Hnames Hclear1 Hperm) in M1, M4 |- *.
    destruct (MkdirAll_spec dir fs1) as (Mr & _).
    destruct (Blob.MkdirAll dir fs1) as [err fs2].
    unfold of_ideal_result in *. simpl in Mr, M1, M4. subst err.
    cbn [fst snd fmap option_fmap option_map].
    rewrite (getBlobPath_elem blobPath id c dir Hdir Hi Hc). fold name.
    cbn -[BlobOS.MkdirAll BlobOS.OpenFile BlobOS.copy_loop
          Blob.MkdirAll Blob.OpenFile Blob.copy_loop].
    destruct (M4 eq_refl) as [es Hes].
    assert (Hnd : fs2 !! (dir ++ [name]) = None).
    { apply eq_None_not_Some. intros [Hp|Hs]%M1.
      - by apply snoc_not_prefix in Hp.
      - apply Cd in Hs. rewrite Hno in Hs. by destruct Hs. }
    destruct (OpenFile_agrees env dir name fs2 es Hes Hnd Hname) as [-> Or];
      [apply Hperm; right; by eexists|apply Hperm; right; by eexists|].
    destruct (Blob.OpenFile (dir ++ [name]) fs2) as [res fs3]. simpl in Or. subst res.
    cbn -[BlobOS.MkdirAll BlobOS.OpenFile BlobOS.copy_loop
          Blob.MkdirAll Blob.OpenFile Blob.copy_loop].
    rewrite copy_loop_agrees by (apply Hperm; right; by eexists).
    by destruct (Blob.copy_loop rc _ fs3) as [b fs4].
  - apply (cleanup_agrees env id "*" fs dir Hwf Hdir Hno Hclear Hnames Hrd Hrm).
  - intros Hl. unfold BlobOS.Read, Blob.Read.
    rewrite (getBlobPath_elem blobPath id c dir Hdir Hi Hc). fold name. simpl.
    rewrite Open_snoc. unfold BlobOS.Open, is_dir.
    rewrite bool_decide_false by (rewrite Hno; by intros [? ?]).
    rewrite (bool_decide_false _ (snoc_not_nil dir name)).
    rewrite is_file_snoc, orb_false_r. cbn [orb].
    destruct (entry fs dir name) as [content|] eqn:En.
    + rewrite bool_decide_true by (by eexists).
      assert (denied env OpOpenRO (dir ++ [name]) = false) as ->.
      { apply Hperm. right. by eexists. }
      assert ((max_len env <? l) = false) as -> by (apply Z.ltb_ge; lia).
      rewrite orb_false_r. destruct (l <? 0); [done|].
      rewrite file_Read_agrees.
      by destruct (Blob.file_Read _ _ fs) as [data err].
    + rewrite bool_decide_false by (by intros [? ?]).
      rewrite lookup_error_not_exist; [done| |done|done].
      unfold names_ok in *. rewrite forallb_app, Hnames. simpl. by rewrite Hname.
Qed.

End Manager.

End AgreeFacts.

(** ** Part XII: resuming after a failed pass *)

Module ResumeFacts.
Import Syncer SyncFacts SyncMore.

Section Facts.
Context {W : Type} `{Collaborators W}.
Variable IdRootFolder MimeTypeFolder : string.

Notation mergeChange := (Syncer.mergeChange IdRootFolder MimeTypeFolder).
Notation mergeItems := (Syncer.mergeItems IdRootFolder MimeTypeFolder).
Notation mergeChanges := (Syncer.mergeChanges IdRootFolder MimeTypeFolder).
Notation pageLoop := (Syncer.pageLoop IdRootFolder MimeTypeFolder).
Notation syncInbound := (Syncer.syncInbound IdRootFolder MimeTypeFolder).
Notation merged_prefix := (Syncer.merged_prefix MimeTypeFolder).
Notation merged_pages := (Syncer.merged_pages MimeTypeFolder).
Notation unmerged_pages := (Syncer.unmerged_pages MimeTypeFolder).

#[local] Arguments requests : simpl never.
#[local] Arguments served : simpl never.
#[local] Arguments cursor_writes : simpl never.
#[local] Arguments fetch_failed : simpl never.

Ltac run := unfold bind, ret, metaSave, metaDelete, Now, GetLargestChangeId,
  SaveLargestChangeId, FilesGet, ChangesList in *; simpl in *.

(** The calls of the merge of one item. *)
Lemma mergeChange_merged rootId item w rest_items evs :
  let '(r, w', tr) := mergeChange rootId item w in
  Syncer.merged_prefix MimeTypeFolder (item :: rest_items) (tr ++ evs)
  = match r with
    | None => Syncer.merged_prefix MimeTypeFolder rest_items evs
    | Some _ => None
    end.
Proof.
  unfold mergeChange. simpl.
  destruct (Deleted item || Trashed (Labels (Change_File item))).
  - run. destruct (meta_Delete (FileId item) w) as [r w1]. simpl.
    by rewrite String.eqb_refl.
  - destruct (_ && _).
    + run. done.
    + run.
      match goal with |- context [meta_Save ?p ?i ?d ?l ?f w] =>
        destruct (meta_Save p i d l f w) as [r w1] end.
      simpl. destruct r; [done|]. by rewrite String.eqb_refl.
Qed.

Lemma mergeItems_merged rootId items l0 w evs :
  let '((l, err), w', tr) := mergeItems rootId items l0 w in
  Syncer.merged_prefix MimeTypeFolder items (tr ++ evs)
  = match err with None => Some evs | Some _ => None end.
Proof.
  revert l0 w. induction items as [|item rest IH]; intros l0 w.
  - simpl. done.
  - cbn [Syncer.mergeItems]. unfold bind at 1.
    pose proof (mergeChange_merged rootId item w rest) as Hm.
    destruct (mergeChange rootId item w) as [[r w1] t1].
    destruct r as [e|].
    + run. rewrite app_nil_r. apply Hm.
    + specialize (IH (Id item) w1).
      destruct (mergeItems rootId rest (Id item) w1) as [[[l err] w2] t2].
      rewrite <- app_assoc, Hm. exact IH.
Qed.

(** Calls other than a page served do not count as pages. *)
Lemma pages_skip_items its t :
  Forall item_event its →
  Syncer.merged_pages MimeTypeFolder (its ++ t) = Syncer.merged_pages MimeTypeFolder t
  ∧ Syncer.unmerged_pages MimeTypeFolder (its ++ t)
    = Syncer.unmerged_pages MimeTypeFolder t.
Proof.
  induction 1 as [|ev its Hev _ IH]; [done|]. by destruct ev.
Qed.

Lemma pages_skip_cursor (o : option Z) t :
  let ct := match o with Some v => [EvSaveLargestChangeId v] | None => [] end in
  Syncer.merged_pages MimeTypeFolder (ct ++ t) = Syncer.merged_pages MimeTypeFolder t
  ∧ Syncer.unmerged_pages MimeTypeFolder (ct ++ t)
    = Syncer.unmerged_pages MimeTypeFolder t.
Proof. by destruct o. Qed.

(** The trace of one page, with the merges it holds. *)
Lemma mergeChanges_cases_merged ini rootId start tok w :
  let '((next, err), w', tr) := mergeChanges ini rootId start tok w in
  let req := request_for ini start tok in
  (∃ e, err = Some e ∧ tr = [EvChangesList req (inr e)])
  ∨ (∃ cl e its, err = Some e ∧ tr = EvChangesList req (inl cl) :: its
       ∧ Forall item_event its
       ∧ Syncer.merged_prefix MimeTypeFolder (Items cl) its = None)
  ∨ (∃ cl its, err = None ∧ next = NextPageToken cl
       ∧ tr = EvChangesList req (inl cl) :: its
              ++ match page_cursor cl with
                 | Some v => [EvSaveLargestChangeId v]
                 | None => []
                 end
       ∧ Forall item_event its
       ∧ ∀ evs, Syncer.merged_prefix MimeTypeFolder (Items cl) (its ++ evs) = Some evs).
Proof.
  unfold Syncer.mergeChanges. fold (request_for ini start tok).
  unfold bind at 1. unfold ChangesList.
  destruct (changes_List (request_for ini start tok) w) as [[cl|e] w1].
  - unfold bind at 1.
    pose proof (mergeItems_spec IdRootFolder MimeTypeFolder rootId (Items cl) 0 w1) as Hs.
    pose proof (mergeItems_merged rootId (Items cl) 0 w1) as Hm.
    destruct (mergeItems rootId (Items cl) 0 w1) as [[[l err] w2] t2].
    destruct Hs as (H1 & H2 & H3).
    destruct err as [e|].
    + run. right; left. exists cl, e, t2. rewrite app_nil_r.
      specialize (Hm []). rewrite app_nil_r in Hm. done.
    + specialize (H3 eq_refl). subst l.
      fold (last_id cl).
      destruct (0 <? last_id cl) eqn:E; run; right; right; exists cl, t2;
        unfold page_cursor; rewrite E, ?app_nil_r; done.
  - run. left. by exists e.
Qed.

Lemma page_pages req cl its t :
  Forall item_event its →
  (∀ evs, Syncer.merged_prefix MimeTypeFolder (Items cl) (its ++ evs) = Some evs) →
  let tr1 := EvChangesList req (inl cl) :: its
             ++ match page_cursor cl with
                | Some v => [EvSaveLargestChangeId v]
                | None => []
                end in
  Syncer.merged_pages MimeTypeFolder (tr1 ++ t)
  = cl :: Syncer.merged_pages MimeTypeFolder t
  ∧ Syncer.unmerged_pages MimeTypeFolder (tr1 ++ t)
    = Syncer.unmerged_pages MimeTypeFolder t.
Proof.
  intros Hi Hm. cbn zeta. rewrite <- app_comm_cons, <- app_assoc.
  cbn [Syncer.merged_pages Syncer.unmerged_pages]. rewrite Hm.
  destruct (pages_skip_items its
              (match page_cursor cl with
               | Some v => [EvSaveLargestChangeId v]
               | None => []
               end ++ t) Hi) as [-> ->].
  destruct (pages_skip_cursor (page_cursor cl) t) as [P1 P2]. cbn zeta in P1, P2.
  by rewrite P1, P2.
Qed.

Lemma pageLoop_merged fuel ini rootId start tok w :
  let '(r, w', tr) := pageLoop fuel ini rootId start tok w in
  cursor_writes tr = omap page_cursor (Syncer.merged_pages MimeTypeFolder tr)
  ∧ served tr = Syncer.merged_pages MimeTypeFolder tr
                ++ Syncer.unmerged_pages MimeTypeFolder tr
  ∧ (length (Syncer.unmerged_pages MimeTypeFolder tr) ≤ 1)%nat
  ∧ ((∀ e, r ≠ Some (Some e)) → Syncer.unmerged_pages MimeTypeFolder tr = []).
Proof.
  revert tok w. induction fuel as [|fuel IH]; intros tok w.
  - simpl. run. split; [done|]. split; [done|]. split; [simpl; lia|done].
  - cbn [Syncer.pageLoop]. unfold bind at 1.
    pose proof (mergeChanges_cases_merged ini rootId start tok w) as Hc.
    destruct (mergeChanges ini rootId start tok w) as [[[next err] w1] t1].
    cbn zeta in Hc.
    destruct Hc as [(e & -> & ->) | [(cl & e & its & -> & -> & Hi & Hm)
                                   | (cl & its & -> & -> & -> & Hi & Hm)]].
    + run. rewrite cursor_writes_cons_list.
      split; [done|]. split; [done|]. split; [simpl; lia|].
      intros Hne. by destruct (Hne e).
    + run. rewrite app_nil_r.
      destruct (item_events_silent its Hi) as (Q1 & Q2 & Q3 & Q4).
      destruct (pages_skip_items its [] Hi) as [P1 P2].
      rewrite !app_nil_r in P1, P2. rewrite Hm, P1, P2.
      rewrite cursor_writes_cons_list, served_cons_page, Q2, Q3.
      split; [done|]. split; [done|]. split; [simpl; lia|].
      intros Hne. by destruct (Hne e).
    + assert (Hshape : ∀ t,
        let tr := (EvChangesList (request_for ini start tok) (inl cl) :: its
                   ++ match page_cursor cl with
                      | Some v => [EvSaveLargestChangeId v]
                      | None => []
                      end) ++ t in
        cursor_writes tr = option_list (page_cursor cl) ++ cursor_writes t
        ∧ served tr = cl :: served t
        ∧ Syncer.merged_pages MimeTypeFolder tr
          = cl :: Syncer.merged_pages MimeTypeFolder t
        ∧ Syncer.unmerged_pages MimeTypeFolder tr
          = Syncer.unmerged_pages MimeTypeFolder t).
      { intros t. cbn zeta.
        destruct (page_trace_functions
                    (request_for ini start tok) cl its t Hi) as (_ & F2 & F3 & _).
        destruct (page_pages (request_for ini start tok) cl its t Hi Hm) as [G1 G2].
        cbn zeta in F2, F3, G1, G2. done. }
      destruct (bool_decide (None ≠ None) || String.eqb (NextPageToken cl) EmptyString).
      * unfold ret. cbn [fst snd].
        destruct (Hshape []) as (X1 & X2 & X3 & X4). cbn zeta in X1, X2, X3, X4.
        rewrite X1, X2, X3, X4. simpl.
        split; [by destruct (page_cursor cl)|]. split; [done|].
        split; [lia|done].
      * specialize (IH (NextPageToken cl) w1).
        destruct (pageLoop fuel ini rootId start (NextPageToken cl) w1) as [[r w2] t2].
        destruct IH as (I1 & I2 & I3 & I4).
        destruct (Hshape t2) as (X1 & X2 & X3 & X4). cbn zeta in X1, X2, X3, X4.
        rewrite X1, X2, X3, X4, I1, I2. simpl.
        split; [by destruct (page_cursor cl)|]. done.
Qed.

(** The pass: the calls before the page loop are no pages. *)
Lemma syncInbound_merged fuel isForce w :
  let '(r, w', tr) := syncInbound fuel isForce w in
  cursor_writes tr = omap page_cursor (Syncer.merged_pages MimeTypeFolder tr)
  ∧ served tr = Syncer.merged_pages MimeTypeFolder tr
                ++ Syncer.unmerged_pages MimeTypeFolder tr
  ∧ (length (Syncer.unmerged_pages MimeTypeFolder tr) ≤ 1)%nat
  ∧ ((∀ e, r ≠ Some (Some e)) → Syncer.unmerged_pages MimeTypeFolder tr = []).
Proof.
  unfold Syncer.syncInbound. unfold bind at 1. unfold GetLargestChangeId.
  destruct (meta_GetLargestChangeId w) as [cur w1].
  set (largest := match cur with
                  | inl v => if isForce then 0 else wrap64 (v + 1)
                  | inr _ => 0
                  end).
  unfold bind at 1. unfold FilesGet.
  destruct (files_Get IdRootFolder w1) as [[rootFile|e] w2].
  - unfold bind at 1. unfold Now. unfold bind at 1. unfold metaSave.
    match goal with |- context [meta_Save ?p ?i ?d ?l ?f w2] =>
      destruct (meta_Save p i d l f w2) as [sr w3] eqn:E;
      set (data := d) in * end.
    destruct sr as [e|].
    + run. split; [done|]. split; [done|]. split; [lia|].
      intros Hne. by destruct (Hne e).
    + pose proof (pageLoop_merged fuel (largest =? 0) (File_Id rootFile) largest
                    EmptyString w3) as Hloop.
      destruct (pageLoop fuel (largest =? 0) (File_Id rootFile) largest EmptyString w3)
        as [[r w4] loop].
      exact Hloop.
  - run. split; [done|]. split; [done|]. split; [lia|].
    intros Hne. by destruct (Hne e).
Qed.

Lemma ids_app p1 p2 : ids (p1 ++ p2) = ids p1 ++ ids p2.
Proof. unfold ids. by rewrite fmap_app, concat_app. Qed.

Lemma Forall_ids (P : Z → Prop) pages :
  Forall P (ids pages) ↔ Forall (λ x, P (Id x)) (concat (Items <$> pages)).
Proof.
  induction pages as [|p ps IH]; [done|].
  change (ids (p :: ps)) with ((Id <$> Items p) ++ ids ps).
  change (concat (Items <$> p :: ps)) with (Items p ++ concat (Items <$> ps)).
  by rewrite !Forall_app, Forall_fmap, IH.
Qed.

(** C4, as amended.  In every pass that fails, the pages served are pages
    merged to their end followed by at most one page that was not, and the
    cursor values written are the last item ids of the pages merged to
    their end (those that are positive), in order; with a metadata service
    that keeps the last cursor written, the cursor the pass leaves is the
    last of them, or the cursor it found if it wrote none.  A later pass
    that is not forced and reads that cursor resumes one above it (at zero
    if it cannot be read), with a first request that starts there and
    carries no page token.  If the change ids served are positive, below the
    largest [int64] and strictly increasing in feed order, every item of a
    page merged to its end lies below that resume point; and every item of
    the page that was not, those merged before the failure included, lies
    at or above it, provided the pass wrote a cursor or the ids it was
    served lie above the cursor it found, which is what a pass that is not
    forced asks for. *)
Theorem failed_pass_resume fuel isForce w e w' tr :
  syncInbound fuel isForce w = (Some (Some e), w', tr) →
  let cur := (meta_GetLargestChangeId w).1 in
  let found := wrap64 (resume_point false cur) in
  let resume := wrap64 (resume_point false (Syncer.cursor_after cur tr)) in
  served tr = merged_pages tr ++ unmerged_pages tr
  ∧ (length (unmerged_pages tr) ≤ 1)%nat
  ∧ cursor_writes tr = omap page_cursor (merged_pages tr)
  ∧ (isForce = false →
     match head (requests tr) with
     | Some req => StartChangeId req = (if 0 <? found then Some found else None)
     | None => True
     end)
  ∧ (∀ fuel2 w2,
       (meta_GetLargestChangeId w2).1 = Syncer.cursor_after cur tr →
       match head (requests (syncInbound fuel2 false w2).2) with
       | Some req =>
           PageToken req = None
           ∧ StartChangeId req = (if 0 <? resume then Some resume else None)
       | None => True
       end)
  ∧ (Forall (λ i, 0 < i < 2 ^ 63 - 1) (ids (served tr)) →
     StronglySorted Z.lt (ids (served tr)) →
     Forall (λ x, Id x < resume) (concat (Items <$> merged_pages tr))
     ∧ (cursor_writes tr ≠ [] ∨ Forall (λ i, found ≤ i) (ids (served tr)) →
        Forall (λ x, resume ≤ Id x) (concat (Items <$> unmerged_pages tr)))).
Proof.
  intros Hrun cur found resume.
  pose proof (syncInbound_merged fuel isForce w) as Hm. rewrite Hrun in Hm.
  destruct Hm as (Hcw & Hsplit & Hlen & _).
  split; [exact Hsplit|]. split; [exact Hlen|]. split; [exact Hcw|].
  split; [|split].
  - intros ->. pose proof (pass_requests IdRootFolder MimeTypeFolder fuel false w)
      as [Hfirst _].
    rewrite Hrun in Hfirst. cbn [snd] in Hfirst. fold cur found in Hfirst.
    destruct (head (requests tr)) as [req|]; [|done]. apply Hfirst.
  - intros fuel2 w2 Hget.
    pose proof (pass_requests IdRootFolder MimeTypeFolder fuel2 false w2)
      as [Hfirst _].
    cbn zeta in Hfirst. rewrite Hget in Hfirst. exact Hfirst.
  - intros Hpos Hsort. rewrite Hsplit, ids_app in Hpos, Hsort.
    apply Forall_app in Hpos as [Hp1 Hp2].
    assert (Hlast : last (cursor_writes tr) = last (ids (merged_pages tr))).
    { rewrite Hcw. apply last_page_cursor.
      eapply Forall_impl; [exact Hp1|]. simpl. lia. }
    subst resume. unfold Syncer.cursor_after.
    destruct (last (cursor_writes tr)) as [c|] eqn:El.
    + symmetry in Hlast.
      destruct (sorted_around_last _ _ _ Hsort Hlast) as [Hle Hlt].
      assert (Hc63 : 0 < c < 2 ^ 63 - 1).
      { apply last_Some in Hlast as [l' Hl]. rewrite Hl in Hp1.
        apply Forall_app in Hp1 as [_ Hp]. by inversion Hp. }
      assert (Hres : wrap64 (resume_point false (inl c)) = c + 1).
      { simpl. apply wrap64_small. lia. }
      rewrite Hres. split.
      * apply (Forall_ids (λ i, i < c + 1)).
        eapply Forall_impl; [exact Hle|]. simpl. lia.
      * intros _. apply (Forall_ids (λ i, c + 1 ≤ i)).
        eapply Forall_impl; [exact Hlt|]. simpl. lia.
    + symmetry in Hlast. apply last_None in Hlast. apply last_None in El.
      fold found. split.
      * apply (Forall_ids (λ i, i < found)). rewrite Hlast. constructor.
      * intros [Hne | Hf]; [done|].
        apply (Forall_ids (λ i, found ≤ i)).
        rewrite Hsplit, ids_app in Hf. by apply Forall_app in Hf as [_ Hf].
Qed.

End Facts.
End ResumeFacts.

(** ** Part XIII: runs on a file system that fails, and of failed passes *)

Module BlobOSRuns.
Import Blob Sim SimOS BlobFacts BlobRuns BlobMore BlobOS BlobOSFacts AgreeFacts.

Lemma os_succeeded r : os_err_of r = Some None → r = Some (None, os_fs_of r).
Proof. by destruct r as [[[e|] fs]|]. Qed.

Lemma store_with_no_subdirs d n c : no_subdirs (store_with d n c) d.
Proof.
  intros m. unfold store_with. apply lookup_singleton_ne.
  intros H. apply (f_equal length) in H. rewrite length_app in H. simpl in H. lia.
Qed.

Lemma store_with_clear_path d n c : clear_path (store_with d n c) d.
Proof.
  intros q Hq. apply not_true_is_false. intros [Hne Hs]%is_file_true.
  unfold entry, store_with in Hs.
  destruct (decide (parent q = d)) as [Hp|Hp].
  - rewrite (snoc_parent_base q Hne), Hp in Hq. by apply snoc_not_prefix in Hq.
  - rewrite lookup_singleton_ne in Hs by done. by destruct Hs.
Qed.

Lemma posix_permits d : permits posix d.
Proof. by intros o q _. Qed.

(** The two saves of ["abc"] on the store holding one blob of it. *)
Lemma save_twice_keeps_one_blob_witness :
  ∃ fs1 fs2,
    Save blobPath posix "abc" "c1" (Some [ReadOk (bytes "one")]) store_one
    = Some (None, fs1)
    ∧ Save blobPath posix "abc" "c2" (Some [ReadOk (bytes "two")]) fs1
      = Some (None, fs2)
    ∧ (∀ n, is_Some (entry fs2 shard_bc n) ∧ (∃ c, n = getBlobName "abc" c)
            ↔ n = getBlobName "abc" "c2")
    ∧ ∀ seek l, Read blobPath posix "abc" "c1" seek l fs2
                = Some ([], 0, Some ErrNotExist).
Proof.
  apply (save_twice_keeps_one_blob blobPath posix "abc" "c1" "c2"
           [ReadOk (bytes "one")] [ReadOk (bytes "two")] store_one shard_bc
           wf_store_one).
  - vm_compute. reflexivity.
  - vm_compute. reflexivity.
  - vm_compute. reflexivity.
  - vm_compute. reflexivity.
  - discriminate.
  - apply store_with_no_subdirs.
  - apply store_with_clear_path.
  - vm_compute. reflexivity.
  - vm_compute. reflexivity.
  - vm_compute. reflexivity.
  - apply posix_permits.
Defined.

(** C1 fails as stated.  (1) For the id ["a/../abc"] the two saves return
    no error and land on the files of the id ["abc"]; the clean-up finds
    nothing to remove, both blobs remain and the read of the first checksum
    succeeds.  (2) When the removal of the first blob is denied during the
    second save, that save still returns no error, both blobs remain and
    the first is still read.  (3) For an id with a NUL byte both saves
    return an error and no blob exists.  (4) For the plain id ["abc"],
    nothing failing, the one blob left does not hold the second content: it
    is empty. *)
Lemma save_twice_counterexample :
  (os_err_of (os_save_twice posix posix "a/../abc" "c1" "c2" empty_store) = Some None
   ∧ shard_names (os_fs_of (os_save_twice posix posix "a/../abc" "c1" "c2" empty_store))
     = Some {[ "abc==c1"; "abc==c2" ]}
   ∧ Read blobPath posix "a/../abc" "c1" 0 0
       (os_fs_of (os_save_twice posix posix "a/../abc" "c1" "c2" empty_store))
     = Some ([], 0, None))
  ∧ (os_err_of (os_save_twice posix (denying OpRemove (shard_bc ++ ["abc==c1"]))
                  "abc" "c1" "c2" empty_store) = Some None
     ∧ shard_names (os_fs_of (os_save_twice posix
                                (denying OpRemove (shard_bc ++ ["abc==c1"]))
                                "abc" "c1" "c2" empty_store))
       = Some {[ "abc==c1"; "abc==c2" ]}
     ∧ Read blobPath posix "abc" "c1" 0 0
         (os_fs_of (os_save_twice posix (denying OpRemove (shard_bc ++ ["abc==c1"]))
                      "abc" "c1" "c2" empty_store))
       = Some ([], 0, None))
  ∧ (os_err_of (Save blobPath posix ("a" +:+ nul +:+ "bc") "c1"
                  (Some [ReadOk (bytes "one")]) empty_store)
     = Some (Some ErrInvalid)
     ∧ os_err_of (os_save_twice posix posix ("a" +:+ nul +:+ "bc") "c1" "c2" empty_store)
       = Some (Some ErrInvalid)
     ∧ shard_names (os_fs_of (os_save_twice posix posix ("a" +:+ nul +:+ "bc")
                                "c1" "c2" empty_store))
       = Some ∅)
  ∧ (os_err_of (os_save_twice posix posix "abc" "c1" "c2" empty_store) = Some None
     ∧ lookup_file (shard_bc ++ ["abc==c2"])
         (os_fs_of (os_save_twice posix posix "abc" "c1" "c2" empty_store))
       = Some []).
Proof. repeat split; vm_compute; reflexivity. Qed.

Lemma deleted_store_one_os :
  Delete blobPath posix "abc" store_one
  = Some (None, os_fs_of (Delete blobPath posix "abc" store_one)).
Proof. apply os_succeeded. vm_compute. reflexivity. Qed.

(** The delete of ["abc"] on the store holding its blob, and the reads
    after it. *)
Lemma delete_then_read_not_found_witness :
  Delete blobPath posix "abc" store_one
  = Some (None, os_fs_of (Delete blobPath posix "abc" store_one))
  ∧ ∀ seek l, Read blobPath posix "abc" "c0" seek l
                (os_fs_of (Delete blobPath posix "abc" store_one))
              = Some ([], 0, Some ErrNotExist).
Proof.
  split; [exact deleted_store_one_os|].
  apply (delete_then_read_not_found blobPath posix "abc" "c0" store_one _ shard_bc
           wf_store_one).
  - vm_compute. reflexivity.
  - vm_compute. reflexivity.
  - vm_compute. reflexivity.
  - discriminate.
  - apply store_with_no_subdirs.
  - apply store_with_clear_path.
  - vm_compute. reflexivity.
  - vm_compute. reflexivity.
  - exact deleted_store_one_os.
Defined.

(** C8 fails as stated.  (1) A blob saved under the checksum ["*"] is the
    one file the delete keeps: the delete returns no error and the blob is
    still read.  (2) When the removal of the blob is denied, the delete
    still returns no error and the blob is still read.  (3) For a checksum
    with a NUL byte the read after the delete fails, but with the error of
    a refused name, not with the not-found error.  (4) The delete of
    ["a/../abc"] removes nothing, while the read of that id reaches the
    blob of ["abc"]. *)
Lemma delete_keeps_blobs_readable :
  (os_err_of (Delete blobPath posix "abc" store_star) = Some None
   ∧ Read blobPath posix "abc" "*" 0 2 (os_fs_of (Delete blobPath posix "abc" store_star))
     = Some (bytes "xy", 2, None))
  ∧ (os_err_of (Delete blobPath (denying OpRemove (shard_bc ++ ["abc==c0"])) "abc"
                  store_one) = Some None
     ∧ Read blobPath posix "abc" "c0" 0 3
         (os_fs_of (Delete blobPath (denying OpRemove (shard_bc ++ ["abc==c0"])) "abc"
                      store_one))
       = Some (bytes "old", 3, None))
  ∧ (os_err_of (Delete blobPath posix "abc" store_one) = Some None
     ∧ Read blobPath posix "abc" ("c" +:+ nul) 0 3
         (os_fs_of (Delete blobPath posix "abc" store_one))
       = Some ([], 0, Some ErrInvalid))
  ∧ (os_err_of (Delete blobPath posix "a/../abc" store_one) = Some None
     ∧ Read blobPath posix "a/../abc" "c0" 0 3
         (os_fs_of (Delete blobPath posix "a/../abc" store_one))
       = Some (bytes "old", 3, None)).
Proof. repeat split; vm_compute; reflexivity. Qed.

(** A read of five bytes at offset 1 of the blob holding ["old"]. *)
Lemma read_result_bounds_witness :
  0 ≤ 2 ≤ Z.of_nat (length (drop 1 (bytes "old") ++ replicate 3 x00%byte))
  ∧ ((drop 1 (bytes "old") ++ replicate 3 x00%byte = [] ∧ 2 = 0
      ∧ ∃ p e, getBlobPath blobPath "abc" "c0" = Some p
               ∧ Open posix p store_one = inr e ∧ None = Some e)
     ∨ (0 ≤ 5 ≤ max_len posix
        ∧ length (drop 1 (bytes "old") ++ replicate 3 x00%byte) = Z.to_nat 5))
  ∧ drop (Z.to_nat 2) (drop 1 (bytes "old") ++ replicate 3 x00%byte)
    = replicate (length (drop 1 (bytes "old") ++ replicate 3 x00%byte) - Z.to_nat 2)
        x00%byte
  ∧ (@None error = None → 0 < 5 → 0 < 2).
Proof.
  apply (read_result_bounds blobPath posix "abc" "c0" 1 5 store_one).
  vm_compute. reflexivity.
Defined.

(** The delete of ["abc"] on the store holding its blob. *)
Lemma delete_removes_only_blobs_of_id_witness :
  is_Some (store_one !! shard_bc)
  ∧ wf_fs (os_fs_of (Delete blobPath posix "abc" store_one))
  ∧ (∀ d, is_Some (os_fs_of (Delete blobPath posix "abc" store_one) !! d)
          ↔ is_Some (store_one !! d))
  ∧ ∀ d n, entry (os_fs_of (Delete blobPath posix "abc" store_one)) d n
           = if bool_decide (d = shard_bc ∧ n ≠ getBlobName "abc" "*"
                             ∧ Contains n (getBlobName "abc" EmptyString) = true
                             ∧ denied posix OpRemove (shard_bc ++ [n]) = false)
             then None else entry store_one d n.
Proof.
  apply (delete_removes_only_blobs_of_id blobPath posix "abc" store_one _ shard_bc
           wf_store_one).
  - vm_compute. reflexivity.
  - apply store_with_no_subdirs.
  - exact deleted_store_one_os.
Defined.

(** The delete of ["abc"], repeated. *)
Lemma delete_twice_same_witness :
  Delete blobPath posix "abc" (os_fs_of (Delete blobPath posix "abc" store_one))
  = Some (None, os_fs_of (Delete blobPath posix "abc" store_one)).
Proof.
  apply (delete_twice_same blobPath posix posix "abc" store_one _ shard_bc
           wf_store_one).
  - vm_compute. reflexivity.
  - apply store_with_no_subdirs.
  - reflexivity.
  - intros n. by left.
  - exact deleted_store_one_os.
Defined.

(** A save for ["bc"] on the store holding a blob of ["abc"]. *)
Lemma save_and_delete_remove_blobs_of_longer_ids_witness :
  entry (os_fs_of (Save blobPath posix "bc" "c1" (Some [ReadOk (bytes "new")]) store_one))
        shard_bc (getBlobName ("a" +:+ "bc") "c0") = None
  ∧ ∀ env' seek l, ∃ e,
      Read blobPath env' ("a" +:+ "bc") "c0" seek l
        (os_fs_of (Save blobPath posix "bc" "c1" (Some [ReadOk (bytes "new")]) store_one))
      = Some ([], 0, Some e).
Proof.
  assert (Hsave : Save blobPath posix "bc" "c1" (Some [ReadOk (bytes "new")]) store_one
                  = Some (None, os_fs_of (Save blobPath posix "bc" "c1"
                                            (Some [ReadOk (bytes "new")]) store_one))).
  { apply os_succeeded. vm_compute. reflexivity. }
  assert (Hne : getBlobName ("a" +:+ "bc") "c0" ≠ getBlobName "bc" "c1")
    by (vm_compute; discriminate).
  refine (proj1 (save_and_delete_remove_blobs_of_longer_ids blobPath posix "bc" "a"
                   "c1" "c0" (Some [ReadOk (bytes "new")]) store_one shard_bc
                   wf_store_one _ (store_with_no_subdirs _ _ _) _ _ _ _ _)
                Hne eq_refl None _ Hsave);
    vm_compute; reflexivity.
Defined.

(** The two managers on the store holding the blob of ["abc"]: the same
    save, the same delete and the same read. *)
Lemma managers_agree_on_store_one :
  Save blobPath posix "abc" "c0" (Some (ReadOk <$> buffer_and_tail)) store_one
  = of_ideal_result <$> Blob.Save blobPath "abc" "c0" buffer_and_tail store_one
  ∧ Delete blobPath posix "abc" store_one
    = of_ideal_result <$> Blob.Delete blobPath "abc" store_one
  ∧ Read blobPath posix "abc" "c0" 0 3 store_one
    = of_ideal_read <$> Blob.Read blobPath "abc" "c0" 0 3 store_one.
Proof.
  assert (Hall : wf_fs store_one ∧ Blob.getBlobDir blobPath "abc" = Some shard_bc).
  { split; [exact wf_store_one|vm_compute; reflexivity]. }
  destruct Hall as [Hwf Hdir].
  destruct (managers_agree blobPath posix "abc" "c0" buffer_and_tail 0 3 store_one
              shard_bc Hwf Hdir eq_refl eq_refl
              (store_with_no_subdirs _ _ _) (store_with_clear_path _ _ _))
    as (H1 & H2 & H3); [vm_compute; reflexivity|vm_compute; reflexivity
                       |apply posix_permits|].
  split; [exact H1|]. split; [exact H2|]. apply H3. vm_compute. discriminate.
Defined.

End BlobOSRuns.

Module ResumeRuns.
Import Syncer Sim SyncFacts SyncRuns ResumeFacts.

(** Two failing passes.  Over four changes in pages of two, the save of the
    third change fails: the first page was merged to its end, the cursor is
    left at 2 and the next pass resumes at 3, above the merged page and at
    the first item of the failed one.  Over one page of two changes, the
    save of the second fails: no cursor is written, the cursor stays at 0
    and the next pass resumes at 1, the first item of the failed page. *)
Lemma failed_pass_resume_witness :
  (run_fail_C.1.1 = Some (Some "save failed")
   ∧ cursor run_fail_C.1.2 = inl 2
   ∧ resume_after world_fail_C run_fail_C.2 = 3
   ∧ Id <$> concat (Items <$> Syncer.merged_pages MimeTypeFolder run_fail_C.2) = [1; 2]
   ∧ Id <$> concat (Items <$> Syncer.unmerged_pages MimeTypeFolder run_fail_C.2) = [3; 4]
   ∧ Forall (λ x, Id x < resume_after world_fail_C run_fail_C.2)
            (concat (Items <$> Syncer.merged_pages MimeTypeFolder run_fail_C.2))
   ∧ Forall (λ x, resume_after world_fail_C run_fail_C.2 ≤ Id x)
            (concat (Items <$> Syncer.unmerged_pages MimeTypeFolder run_fail_C.2)))
  ∧ (run_fail_B.1.1 = Some (Some "save failed")
     ∧ cursor_writes run_fail_B.2 = []
     ∧ cursor run_fail_B.1.2 = inl 0
     ∧ resume_after world_fail_B run_fail_B.2 = 1
     ∧ Syncer.merged_pages MimeTypeFolder run_fail_B.2 = []
     ∧ Id <$> concat (Items <$> Syncer.unmerged_pages MimeTypeFolder run_fail_B.2) = [1; 2]
     ∧ Forall (λ x, resume_after world_fail_B run_fail_B.2 ≤ Id x)
              (concat (Items <$> Syncer.unmerged_pages MimeTypeFolder run_fail_B.2))).
Proof.
  split.
  - assert (Hres : run_fail_C.1.1 = Some (Some "save failed"))
      by (vm_compute; reflexivity).
    assert (Hrun : syncInbound IdRootFolder MimeTypeFolder 5 false world_fail_C
                   = (Some (Some "save failed"), run_fail_C.1.2, run_fail_C.2)).
    { rewrite <- Hres. apply triple_eta. }
    destruct (failed_pass_resume IdRootFolder MimeTypeFolder 5 false world_fail_C
                _ _ _ Hrun) as (_ & _ & _ & _ & _ & Hall).
    assert (Hids : ids (served run_fail_C.2) = [1; 2; 3; 4])
      by (vm_compute; reflexivity).
    assert (Hpos : Forall (λ i, 0 < i < 2 ^ 63 - 1) (ids (served run_fail_C.2))).
    { rewrite Hids. repeat constructor. }
    assert (Hsort : StronglySorted Z.lt (ids (served run_fail_C.2))).
    { rewrite Hids. repeat constructor. }
    destruct (Hall Hpos Hsort) as [H1 H2].
    assert (Hcw : cursor_writes run_fail_C.2 ≠ []) by (vm_compute; discriminate).
    split; [exact Hres|]. split; [vm_compute; reflexivity|].
    split; [vm_compute; reflexivity|]. split; [vm_compute; reflexivity|].
    split; [vm_compute; reflexivity|]. split; [exact H1|].
    exact (H2 (or_introl Hcw)).
  - assert (Hres : run_fail_B.1.1 = Some (Some "save failed"))
      by (vm_compute; reflexivity).
    assert (Hrun : syncInbound IdRootFolder MimeTypeFolder 5 false world_fail_B
                   = (Some (Some "save failed"), run_fail_B.1.2, run_fail_B.2)).
    { rewrite <- Hres. apply triple_eta. }
    destruct (failed_pass_resume IdRootFolder MimeTypeFolder 5 false world_fail_B
                _ _ _ Hrun) as (_ & _ & _ & _ & _ & Hall).
    assert (Hids : ids (served run_fail_B.2) = [1; 2])
      by (vm_compute; reflexivity).
    assert (Hpos : Forall (λ i, 0 < i < 2 ^ 63 - 1) (ids (served run_fail_B.2))).
    { rewrite Hids. repeat constructor. }
    assert (Hsort : StronglySorted Z.lt (ids (served run_fail_B.2))).
    { rewrite Hids. repeat constructor. }
    destruct (Hall Hpos Hsort) as [_ H2].
    assert (Hfound : Forall (λ i, wrap64 (resume_point false
                                (meta_GetLargestChangeId world_fail_B).1) ≤ i)
                       (ids (served run_fail_B.2))).
    { rewrite Hids. repeat constructor; vm_compute; discriminate. }
    split; [exact Hres|]. split; [vm_compute; reflexivity|].
    split; [vm_compute; reflexivity|]. split; [vm_compute; reflexivity|].
    split; [vm_compute; reflexivity|]. split; [vm_compute; reflexivity|].
    exact (H2 (or_intror Hfound)).
Defined.

(** C4 fails as stated, in both halves.  In a page of two changes the save
    of the second fails: the first was merged, no cursor is written, and
    the next pass, not forced, asks for the same changes and merges the
    first one again.  And a forced pass begun with the cursor at 2 fails in
    the page of the changes 1 and 2, at the second: it writes no cursor, the
    cursor stays at 2, and the next pass, not forced, starts at 3, is
    served nothing and ends without error, so that the second change, of
    the failed page, is skipped. *)
Lemma resume_reprocesses_or_skips :
  (run_fail_B.1.1 = Some (Some "save failed")
   ∧ saved_ids run_fail_B.2 = ["root"; "A"]
   ∧ cursor_writes run_fail_B.2 = []
   ∧ requests rerun_fail_B.2 = requests run_fail_B.2
   ∧ saved_ids rerun_fail_B.2 = ["root"; "A"])
  ∧ (run_forced_B.1.1 = Some (Some "save failed")
     ∧ Id <$> concat (Items <$> Syncer.unmerged_pages MimeTypeFolder run_forced_B.2)
       = [1; 2]
     ∧ saved_ids run_forced_B.2 = ["root"; "A"]
     ∧ cursor_writes run_forced_B.2 = []
     ∧ cursor run_forced_B.1.2 = inl 2
     ∧ rerun_forced_B.1.1 = Some None
     ∧ (StartChangeId <$> requests rerun_forced_B.2) = [Some 3]
     ∧ ids (served rerun_forced_B.2) = []
     ∧ saved_ids rerun_forced_B.2 = ["root"]).
Proof. repeat split; vm_compute; reflexivity. Qed.

End ResumeRuns.
